(** * ciphrtxt-go: header codec, header ordering and the peer WebSocket
      protocol handler

    A shallow embedding of [ciphrtxt/header.go] and [ciphrtxt/wsprotocol.go].

    - Go [string] and [[]byte] values are lists of [byte]; a nil slice is [[]].
    - [uint8], [uint32] and [uint64] values are numbers in [N]; every
      wrap-around or truncation of the source is written out with [mod].
    - A Go function that can panic returns an [option]: [None] is the panic.
    - A function with a pointer receiver that it mutates takes the receiver's
      old value and returns the new one (state passing).
    - Output on stdout ([fmt.Printf], [fmt.Println]) is not part of the
      modelled state. *)

From Stdlib Require Import String Strings.Byte List NArith ZArith Lia Bool Arith
  Permutation.
Import ListNotations.

Ltac Zify.zify_post_hook ::= Z.to_euclidean_division_equations.

(** A Go string literal. *)
Definition str (s : string) : list byte := list_byte_of_string s.

(** ** The parts of the Go standard library the two files call *)

Module GoLib.

Local Open Scope N_scope.

(** [byte(n)]: conversion of an unsigned value to [uint8] keeps the low
    eight bits. *)
Definition byte_of_N (n : N) : byte :=
  match Byte.of_N (n mod 256) with
  | Some b => b
  | None => x00
  end.

Definition uint32 (n : N) : N := n mod 2 ^ 32.
Definition uint64 (n : N) : N := n mod 2 ^ 64.

(** [a <= c && c <= b] on bytes. *)
Definition between (a c b : byte) : bool :=
  (to_N a <=? to_N c) && (to_N c <=? to_N b).

(** Equality of two strings or byte slices ([strings.Compare(a, b) == 0],
    [bytes.Compare(a, b) == 0]). *)
Fixpoint bytes_eqb (a b : list byte) : bool :=
  match a, b with
  | [], [] => true
  | x :: a', y :: b' => Byte.eqb x y && bytes_eqb a' b'
  | _, _ => false
  end.

(** An [error] value is represented by its message. *)
Definition error := string.
Definition errors_New (msg : string) : error := msg.

(** *** strings.Split with a one-byte separator *)

Fixpoint Split (s : list byte) (sep : byte) : list (list byte) :=
  match s with
  | [] => [[]]
  | c :: rest =>
      if Byte.eqb c sep then [] :: Split rest sep
      else match Split rest sep with
           | f :: fs => (c :: f) :: fs
           | [] => [[c]]
           end
  end.

(** *** encoding/hex *)

Definition hextable : list byte := str "0123456789abcdef".

Definition fromHexChar (c : byte) : option N :=
  if between "0" c "9" then Some (to_N c - to_N "0")
  else if between "a" c "f" then Some (to_N c - to_N "a" + 10)
  else if between "A" c "F" then Some (to_N c - to_N "A" + 10)
  else None.

(** [hex.EncodeToString]: two lower-case digits per byte. *)
Fixpoint EncodeToString (src : list byte) : list byte :=
  match src with
  | [] => []
  | v :: rest =>
      nth (N.to_nat (N.shiftr (to_N v) 4)) hextable x00
      :: nth (N.to_nat (N.land (to_N v) 15)) hextable x00
      :: EncodeToString rest
  end.

Fixpoint hex_Decode (src : list byte) : option (list byte) :=
  match src with
  | [] => Some []
  | c1 :: c2 :: rest =>
      match fromHexChar c1, fromHexChar c2 with
      | Some a, Some b =>
          option_map (cons (byte_of_N (N.lor (N.shiftl a 4) b)))
                     (hex_Decode rest)
      | _, _ => None
      end
  | [_] => None
  end.

(** [hex.DecodeString]: an odd length is [ErrLength], a byte that is not
    a hex digit is [InvalidByteError]; on an error the returned slice is
    nil (the library of the repository's time; the caller looks at the
    error only). *)
Definition DecodeString (s : list byte) : list byte * option error :=
  if Nat.odd (length s)
  then ([], Some (errors_New "encoding/hex: odd length hex string"))
  else match hex_Decode s with
       | Some b => (b, None)
       | None => ([], Some (errors_New "encoding/hex: invalid byte"))
       end.

(** *** strconv.ParseUint *)

Inductive NumError := ErrSyntax | ErrRange.

Definition maxUint64 : N := 2 ^ 64 - 1.

(** The digit switch of the parsing loop. *)
Definition digit_val (d : byte) : option N :=
  if between "0" d "9" then Some (to_N d - to_N "0")
  else if between "a" d "z" then Some (to_N d - to_N "a" + 10)
  else if between "A" d "Z" then Some (to_N d - to_N "A" + 10)
  else None.

Fixpoint ParseUint_loop (base cutoff maxVal : N) (s : list byte) (n : N)
  : N * option NumError :=
  match s with
  | [] => (n, None)
  | d :: rest =>
      match digit_val d with
      | None => (0, Some ErrSyntax)
      | Some v =>
          if base <=? v then (0, Some ErrSyntax)
          else if cutoff <=? n then (maxUint64, Some ErrRange)
          else
            let n' := uint64 (n * base) in
            let n1 := uint64 (n' + v) in
            if (n1 <? n') || (maxVal <? n1) then (maxUint64, Some ErrRange)
            else ParseUint_loop base cutoff maxVal rest n1
      end
  end.

(** [strconv.ParseUint(s, base, bitSize)] for an explicit base in 2..36. *)
Definition ParseUint (s : list byte) (base bitSize : N)
  : N * option NumError :=
  match s with
  | [] => (0, Some ErrSyntax)
  | _ => ParseUint_loop base (maxUint64 / base + 1) (2 ^ bitSize - 1) s 0
  end.

(** *** fmt: the verb %08X applied to a uint32 *)

Definition upperhex : list byte := str "0123456789ABCDEF".

(** The [k] low hexadecimal digits of [v], most significant first. *)
Fixpoint hex_digits_upper (k : nat) (v : N) : list byte :=
  match k with
  | O => []
  | S k' =>
      hex_digits_upper k' (v / 16) ++ [nth (N.to_nat (v mod 16)) upperhex x00]
  end.

(** A uint32 has at most eight hexadecimal digits, so zero padding to
    width 8 gives exactly eight. *)
Definition fmt_08X (v : N) : list byte := hex_digits_upper 8 v.

(** *** encoding/base64, StdEncoding *)

Definition encodeStd : list byte :=
  str "ABCDEFGHIJKLMNOPQRSTUVWXYZabcdefghijklmnopqrstuvwxyz0123456789+/".

Definition padChar : byte := "=".

Fixpoint index_of (c : byte) (l : list byte) (i : N) : option N :=
  match l with
  | [] => None
  | x :: l' => if Byte.eqb c x then Some i else index_of c l' (i + 1)
  end.

(** [enc.decodeMap[c]]; the entry 0xFF of a byte outside the alphabet is
    [None]. *)
Definition decodeMap (c : byte) : option N := index_of c encodeStd 0.

(** [enc.encode[v]]. *)
Definition encode (v : N) : byte := nth (N.to_nat v) encodeStd x00.

(** [Encoding.Encode]: the encoded text of [src], with padding. *)
Fixpoint Encode (src : list byte) : list byte :=
  match src with
  | [] => []
  | [b0] =>
      let val := N.shiftl (to_N b0) 16 in
      [encode (N.land (N.shiftr val 18) 63);
       encode (N.land (N.shiftr val 12) 63); padChar; padChar]
  | [b0; b1] =>
      let val := N.lor (N.shiftl (to_N b0) 16) (N.shiftl (to_N b1) 8) in
      [encode (N.land (N.shiftr val 18) 63);
       encode (N.land (N.shiftr val 12) 63);
       encode (N.land (N.shiftr val 6) 63); padChar]
  | b0 :: b1 :: b2 :: rest =>
      let val := N.lor (N.lor (N.shiftl (to_N b0) 16) (N.shiftl (to_N b1) 8))
                       (to_N b2) in
      encode (N.land (N.shiftr val 18) 63)
      :: encode (N.land (N.shiftr val 12) 63)
      :: encode (N.land (N.shiftr val 6) 63)
      :: encode (N.land val 63)
      :: Encode rest
  end.

Definition is_newline (c : byte) : bool := Byte.eqb c x0a || Byte.eqb c x0d.

Definition removeNewlines (s : list byte) : list byte :=
  filter (fun c => negb (is_newline c)) s.

(** The 24-bit value of one quantum of four 6-bit digits. *)
Definition quantum (v0 v1 v2 v3 : N) : N :=
  N.lor (N.lor (N.lor (N.shiftl v0 18) (N.shiftl v1 12)) (N.shiftl v2 6)) v3.

Definition is_nil (l : list byte) : bool :=
  match l with [] => true | _ => false end.

(** The decoding loop over text without newlines: quanta of four
    alphabet characters; padding only in the last quantum and followed
    by nothing.  [None] is a [CorruptInputError]. *)
Fixpoint decode (src : list byte) : option (list byte) :=
  match src with
  | [] => Some []
  | c0 :: c1 :: c2 :: c3 :: rest =>
      match decodeMap c0, decodeMap c1 with
      | Some v0, Some v1 =>
          match decodeMap c2 with
          | Some v2 =>
              match decodeMap c3 with
              | Some v3 =>
                  let val := quantum v0 v1 v2 v3 in
                  option_map
                    (fun t => byte_of_N (N.shiftr val 16)
                              :: byte_of_N (N.shiftr val 8)
                              :: byte_of_N val :: t)
                    (decode rest)
              | None =>
                  if Byte.eqb c3 padChar && is_nil rest then
                    let val := quantum v0 v1 v2 0 in
                    Some [byte_of_N (N.shiftr val 16);
                          byte_of_N (N.shiftr val 8)]
                  else None
              end
          | None =>
              if Byte.eqb c2 padChar && Byte.eqb c3 padChar && is_nil rest
              then Some [byte_of_N (N.shiftr (quantum v0 v1 0 0) 16)]
              else None
          end
      | _, _ => None
      end
  | _ => None
  end.

(** [base64.StdEncoding.DecodeString]: carriage returns and line feeds
    are dropped, the rest is decoded.  On an error the caller looks at
    the error only, so the bytes decoded before it are not returned. *)
Definition b64_DecodeString (s : list byte) : list byte * option error :=
  match decode (removeNewlines s) with
  | Some b => (b, None)
  | None => ([], Some (errors_New "illegal base64 data"))
  end.

(** *** encoding/binary, BigEndian *)

Definition Uint32 (b : list byte) : N :=
  N.lor (N.lor (N.lor (to_N (nth 3 b x00))
                      (N.shiftl (to_N (nth 2 b x00)) 8))
               (N.shiftl (to_N (nth 1 b x00)) 16))
        (N.shiftl (to_N (nth 0 b x00)) 24).

Definition Uint64 (b : list byte) : N :=
  N.lor (N.lor (N.lor (N.lor (N.lor (N.lor (N.lor
    (to_N (nth 7 b x00))
    (N.shiftl (to_N (nth 6 b x00)) 8))
    (N.shiftl (to_N (nth 5 b x00)) 16))
    (N.shiftl (to_N (nth 4 b x00)) 24))
    (N.shiftl (to_N (nth 3 b x00)) 32))
    (N.shiftl (to_N (nth 2 b x00)) 40))
    (N.shiftl (to_N (nth 1 b x00)) 48))
    (N.shiftl (to_N (nth 0 b x00)) 56).

(** [binary.Write(buf, binary.BigEndian, v)] appends these bytes. *)
Definition PutUint32 (v : N) : list byte :=
  [byte_of_N (N.shiftr v 24); byte_of_N (N.shiftr v 16);
   byte_of_N (N.shiftr v 8); byte_of_N v].

Definition PutUint64 (v : N) : list byte :=
  [byte_of_N (N.shiftr v 56); byte_of_N (N.shiftr v 48);
   byte_of_N (N.shiftr v 40); byte_of_N (N.shiftr v 32);
   byte_of_N (N.shiftr v 24); byte_of_N (N.shiftr v 16);
   byte_of_N (N.shiftr v 8); byte_of_N v].

(** *** Slices *)

(** [l[a:b]] for [a <= b <= len(l)]. *)
Definition slice (a b : nat) (l : list byte) : list byte :=
  firstn (b - a) (skipn a l).

(** [make([]byte, n)]. *)
Definition make (n : nat) : list byte := repeat x00 n.

(** [l[i] = v] for [i < len(l)]. *)
Fixpoint set_at {A : Type} (i : nat) (v : A) (l : list A) : list A :=
  match l, i with
  | [], _ => []
  | _ :: l', O => v :: l'
  | y :: l', Datatypes.S i' => y :: set_at i' v l'
  end.

(** [copy(dst, src)]: the first [min(len(dst), len(src))] bytes of [dst]
    are overwritten; the value is the new content of [dst]. *)
Definition copy (dst src : list byte) : list byte :=
  firstn (length dst) src ++ skipn (length src) dst.

End GoLib.

(** ** header.go *)

Module Header.

Import GoLib.
Local Open Scope N_scope.

Definition MessageHeaderLengthV1 : nat :=
  5 + 1 + 8 + 1 + 8 + 1 + 66 + 1 + 66 + 1 + 66 + 1 + 64 + 1 + 64.

Definition ShortMessageHeaderLengthV2 : nat := 123.
Definition ShortMessageHeaderLengthB64V2 : nat := 164.
Definition MessageHeaderLengthV2 : nat := 192.
Definition MessageHeaderLengthB64V2 : nat := 256.

(** The struct [RawMessageHeader].  The fields [I], [J], [K], [r], [s] of
    the source are [keyI], [keyJ], [keyK], [sig_r], [sig_s] here. *)
Record RawMessageHeader := mkRaw {
  version : list byte;
  time : N;
  expire : N;
  keyI : list byte;
  keyJ : list byte;
  keyK : list byte;
  blocklen : N;
  reserved : N;
  sig_r : list byte;
  sig_s : list byte;
  nonce : N
}.

(** [&RawMessageHeader{}]: every field has its zero value. *)
Definition new_RawMessageHeader : RawMessageHeader :=
  mkRaw [] 0 0 [] [] [] 0 0 [] [] 0.

Definition set_version (z : RawMessageHeader) (v : list byte) :=
  mkRaw v (time z) (expire z) (keyI z) (keyJ z) (keyK z) (blocklen z)
        (reserved z) (sig_r z) (sig_s z) (nonce z).
Definition set_time (z : RawMessageHeader) (v : N) :=
  mkRaw (version z) v (expire z) (keyI z) (keyJ z) (keyK z) (blocklen z)
        (reserved z) (sig_r z) (sig_s z) (nonce z).
Definition set_expire (z : RawMessageHeader) (v : N) :=
  mkRaw (version z) (time z) v (keyI z) (keyJ z) (keyK z) (blocklen z)
        (reserved z) (sig_r z) (sig_s z) (nonce z).
Definition set_I (z : RawMessageHeader) (v : list byte) :=
  mkRaw (version z) (time z) (expire z) v (keyJ z) (keyK z) (blocklen z)
        (reserved z) (sig_r z) (sig_s z) (nonce z).
Definition set_J (z : RawMessageHeader) (v : list byte) :=
  mkRaw (version z) (time z) (expire z) (keyI z) v (keyK z) (blocklen z)
        (reserved z) (sig_r z) (sig_s z) (nonce z).
Definition set_K (z : RawMessageHeader) (v : list byte) :=
  mkRaw (version z) (time z) (expire z) (keyI z) (keyJ z) v (blocklen z)
        (reserved z) (sig_r z) (sig_s z) (nonce z).
Definition set_blocklen (z : RawMessageHeader) (v : N) :=
  mkRaw (version z) (time z) (expire z) (keyI z) (keyJ z) (keyK z) v
        (reserved z) (sig_r z) (sig_s z) (nonce z).
Definition set_reserved (z : RawMessageHeader) (v : N) :=
  mkRaw (version z) (time z) (expire z) (keyI z) (keyJ z) (keyK z)
        (blocklen z) v (sig_r z) (sig_s z) (nonce z).
Definition set_r (z : RawMessageHeader) (v : list byte) :=
  mkRaw (version z) (time z) (expire z) (keyI z) (keyJ z) (keyK z)
        (blocklen z) (reserved z) v (sig_s z) (nonce z).
Definition set_s (z : RawMessageHeader) (v : list byte) :=
  mkRaw (version z) (time z) (expire z) (keyI z) (keyJ z) (keyK z)
        (blocklen z) (reserved z) (sig_r z) v (nonce z).
Definition set_nonce (z : RawMessageHeader) (v : N) :=
  mkRaw (version z) (time z) (expire z) (keyI z) (keyJ z) (keyK z)
        (blocklen z) (reserved z) (sig_r z) (sig_s z) v.

Definition colon : byte := ":".

(** [deserializeV1].  The errors of the two [ParseUint] calls are
    discarded, as in the source; each hex field is stored before its error
    is looked at. *)
Definition deserializeV1 (z : RawMessageHeader) (s : list byte)
  : RawMessageHeader * option error :=
  let d := Split s colon in
  if negb (length d =? 8)%nat || negb (bytes_eqb (nth 0 d []) (str "M0100"))
  then (z, Some (errors_New "V1 version string error"))
  else
    let z := set_version z (str "0100") in
    let (t64, _) := ParseUint (nth 1 d []) 16 32 in
    let z := set_time z (uint32 t64) in
    let (t64, _) := ParseUint (nth 2 d []) 16 32 in
    let z := set_expire z (uint32 t64) in
    let (b, err) := DecodeString (nth 3 d []) in
    let z := set_I z b in
    match err with
    | Some _ => (z, Some (errors_New "V1 Error decoding I value as hex"))
    | None =>
    let (b, err) := DecodeString (nth 4 d []) in
    let z := set_J z b in
    match err with
    | Some _ => (z, Some (errors_New "V1 Error decoding J value as hex"))
    | None =>
    let (b, err) := DecodeString (nth 5 d []) in
    let z := set_K z b in
    match err with
    | Some _ => (z, Some (errors_New "V1 Error decoding K value as hex"))
    | None =>
    let (b, err) := DecodeString (nth 6 d []) in
    let z := set_r z b in
    match err with
    | Some _ => (z, Some (errors_New "V1 Error decoding r value as hex"))
    | None =>
    let (b, err) := DecodeString (nth 7 d []) in
    let z := set_s z b in
    match err with
    | Some _ => (z, Some (errors_New "V1 Error decoding s value as hex"))
    | None => (z, None)
    end end end end end.

(** [[]byte("M\x02\x00\x00")]. *)
Definition magicV2 : list byte := ["M"%byte; x02; x00; x00].

(** [importBinaryHeaderV2].  The slices are in range by the two length
    tests. *)
Definition importBinaryHeaderV2 (z : RawMessageHeader) (smh : list byte)
  : RawMessageHeader * option error :=
  if (length smh <? ShortMessageHeaderLengthV2)%nat
  then (z, Some (errors_New "V2 Header too short"))
  else if negb (bytes_eqb (slice 0 4 smh) magicV2)
  then (z, Some (errors_New "V2 version string mismatch"))
  else
    let z := set_version z (str "0200") in
    let z := set_time z (Uint32 (slice 4 8 smh)) in
    let z := set_expire z (Uint32 (slice 8 12 smh)) in
    let z := set_I z (copy (make 33) (slice 12 45 smh)) in
    let z := set_J z (copy (make 33) (slice 45 78 smh)) in
    let z := set_K z (copy (make 33) (slice 78 111 smh)) in
    let z := set_blocklen z (Uint32 (slice 111 115 smh)) in
    let z := set_reserved z (Uint64 (slice 115 123 smh)) in
    let z :=
      if (MessageHeaderLengthV2 <=? length smh)%nat then
        let z := set_r z (copy (make 32) (slice 123 155 smh)) in
        let z := set_s z (copy (make 32) (slice 155 187 smh)) in
        let ui8 := to_N (nth 0 (slice 187 188 smh) x00) in
        let ui32 := Uint32 (slice 188 192 smh) in
        let z := set_nonce z (uint64 (N.shiftl ui8 32)) in
        set_nonce z (uint64 (nonce z + ui32))
      else z in
    (z, None).

(** [deserializeV2]. *)
Definition deserializeV2 (z : RawMessageHeader) (s : list byte)
  : RawMessageHeader * option error :=
  if (length s <? ShortMessageHeaderLengthB64V2)%nat
  then (z, Some (errors_New "V2 Header too short"))
  else
    let (smh, err) :=
      if (MessageHeaderLengthB64V2 <=? length s)%nat
      then b64_DecodeString (slice 0 MessageHeaderLengthB64V2 s)
      else b64_DecodeString (slice 0 ShortMessageHeaderLengthB64V2 s) in
    match err with
    | Some _ => (z, Some (errors_New "V2 not in base64"))
    | None => importBinaryHeaderV2 z smh
    end.

(** [Deserialize].  [s[:3]] panics on a string shorter than three
    bytes: the value is [None] then. *)
Definition Deserialize (z : RawMessageHeader) (s : list byte)
  : option (RawMessageHeader * option error) :=
  if (length s <? 3)%nat then None
  else if bytes_eqb (slice 0 3 s) (str "M01")
  then Some (deserializeV1 z s)
  else Some (deserializeV2 z s).

(** [serializeV1]; [None] is the nil pointer returned on a length other
    than [MessageHeaderLengthV1]. *)
Definition serializeV1 (z : RawMessageHeader) : option (list byte) :=
  let I := EncodeToString (keyI z) in
  let J := EncodeToString (keyJ z) in
  let K := EncodeToString (keyK z) in
  let r := EncodeToString (sig_r z) in
  let s := EncodeToString (sig_s z) in
  let ss := str "M" ++ version z ++ [colon] ++ fmt_08X (time z) ++ [colon]
            ++ fmt_08X (expire z) ++ [colon] ++ I ++ [colon] ++ J ++ [colon]
            ++ K ++ [colon] ++ r ++ [colon] ++ s in
  if negb (length ss =? MessageHeaderLengthV1)%nat then None
  else Some (copy (make MessageHeaderLengthV1) ss).

(** [exportBinaryHeaderV2]; [None] is the nil pointer returned when the
    buffer is not [MessageHeaderLengthV2] bytes long. *)
Definition exportBinaryHeaderV2 (z : RawMessageHeader) : option (list byte) :=
  let buf := magicV2
             ++ PutUint32 (time z)
             ++ PutUint32 (expire z)
             ++ keyI z ++ keyJ z ++ keyK z
             ++ PutUint32 (blocklen z)
             ++ PutUint64 (reserved z)
             ++ sig_r z ++ sig_s z
             ++ [byte_of_N (N.shiftr (nonce z) 32)]
             ++ PutUint32 (uint32 (N.land (nonce z) 4294967295)) in
  if negb (length buf =? MessageHeaderLengthV2)%nat then None
  else Some (copy (make MessageHeaderLengthV2) buf).

(** [serializeV2]; [bmh[:]] dereferences the pointer, so a nil [bmh] is
    a panic: [None]. *)
Definition serializeV2 (z : RawMessageHeader) : option (list byte) :=
  match exportBinaryHeaderV2 z with
  | None => None
  | Some bmh =>
      let b64 := copy (make MessageHeaderLengthB64V2) (Encode bmh) in
      Some (copy (make MessageHeaderLengthB64V2) b64)
  end.

(** [Serialize]; a nil result of [serializeV1] is dereferenced, which
    panics: [None]. *)
Definition Serialize (z : RawMessageHeader) : option (list byte) :=
  if bytes_eqb (version z) (str "0100") then serializeV1 z
  else serializeV2 z.

Section Hashing.

(** [sha256.Sum256]. *)
Variable Sum256 : list byte -> list byte.

(** [Hash]: the digest of the serialization. *)
Definition Hash (z : RawMessageHeader) : option (list byte) :=
  option_map Sum256 (Serialize z).

End Hashing.

(** The body of the 33-step loop of [Less]: [n] steps from index [x].
    An index out of range panics. *)
Fixpoint Less_loop (n x : nat) (Ii Ij : list byte) : option bool :=
  match n with
  | O => Some false
  | S n' =>
      match nth_error Ii x, nth_error Ij x with
      | Some p, Some q =>
          if to_N p <? to_N q then Some true
          else if to_N q <? to_N p then Some false
          else Less_loop n' (S x) Ii Ij
      | _, _ => None
      end
  end.

(** [RawMessageHeaderSlice.Less]. *)
Definition Less (z : list RawMessageHeader) (i j : nat) : option bool :=
  match nth_error z i, nth_error z j with
  | Some zi, Some zj =>
      if time zi <? time zj then Some true
      else if time zj <? time zi then Some false
      else Less_loop 33 0 (keyI zi) (keyI zj)
  | _, _ => None
  end.

(** [RawMessageHeaderSlice.Swap]: each of the two headers is overwritten
    by deserializing the text of the other into it; the errors are
    discarded.  A nil text or an index out of range panics. *)
Definition Swap (z : list RawMessageHeader) (i j : nat)
  : option (list RawMessageHeader) :=
  match nth_error z i, nth_error z j with
  | Some zi, Some zj =>
      match Serialize zi, Serialize zj with
      | Some t1, Some t2 =>
          match Deserialize zj t1 with
          | None => None
          | Some (zj', _) =>
              let z := set_at j zj' z in
              match nth_error z i with
              | None => None
              | Some zi =>
                  match Deserialize zi t2 with
                  | None => None
                  | Some (zi', _) => Some (set_at i zi' z)
                  end
              end
          end
      | _, _ => None
      end
  | _, _ => None
  end.

(** The struct [MessageHeaderJSON]; its fields [I], [J], [K], [R], [S] are
    [JSON_I], [JSON_J], [JSON_K], [JSON_R], [JSON_S] here. *)
Record MessageHeaderJSON := mkJSON {
  Version : list byte;
  Time : N;
  Expire : N;
  TimeStr : list byte;
  ExpireStr : list byte;
  JSON_I : list byte;
  JSON_J : list byte;
  JSON_K : list byte;
  Size : N;
  JSON_R : list byte;
  JSON_S : list byte;
  Nonce : N
}.

Section JSONView.

(** [time.Unix(t, 0).UTC().Format("2006-01-02 15:04:05")]. *)
Variable FormatUnixUTC : N -> list byte.

(** [JSON].  [z.blocklen+1] is computed in uint32 before the conversion
    to uint64. *)
Definition JSON (z : RawMessageHeader) : MessageHeaderJSON :=
  mkJSON (version z) (time z) (expire z)
         (FormatUnixUTC (time z)) (FormatUnixUTC (expire z))
         (EncodeToString (keyI z)) (EncodeToString (keyJ z))
         (EncodeToString (keyK z))
         (uint64 (uint64 (uint32 (blocklen z + 1))
                  * N.of_nat MessageHeaderLengthB64V2))
         (EncodeToString (sig_r z)) (EncodeToString (sig_s z))
         (nonce z).

End JSONView.

End Header.

(** ** wsprotocol.go *)

Module WS.

Import GoLib Header.
Local Open Scope N_scope.

(** [time.Duration] counts nanoseconds. *)
Definition Second : N := 1000000000.

Definition DefaultWatchdogTimeout : N := 150 * Second.
Definition DefaultTimeTickle : N := 30 * Second.
Definition DefaultStatusTickle : N := 300 * Second.
Definition DefaultPeersTickle : N := 300 * Second.

(** *** time.Timer

    [armed] is the duration the timer was last started with while it is
    still running; [C] tells whether the one-place channel of the timer
    holds a tick that was not received yet. *)
Record Timer := mkTimer { armed : option N; C : bool }.

Definition NewTimer (d : N) : Timer := mkTimer (Some d) false.

(** [t.Stop()]: true when the call stops a running timer.  The channel is
    not touched. *)
Definition Stop (t : Timer) : bool * Timer :=
  (match armed t with Some _ => true | None => false end, mkTimer None (C t)).

(** [t.Reset(d)]. *)
Definition Reset (t : Timer) (d : N) : Timer := mkTimer (Some d) (C t).

(** The runtime fires a running timer: it stops running and a tick is put
    in its channel. *)
Definition fire (t : Timer) : Timer := mkTimer None true.

(** [if !t.Stop() { <-t.C }].  After [Stop] returned false the timer does
    not run, so nothing will ever be sent on an empty [t.C]: the receive
    blocks for ever, which is [None]. *)
Definition stop_drain (t : Timer) : option Timer :=
  let (stopped, t') := Stop t in
  if stopped then Some t'
  else if C t' then Some (mkTimer (armed t') false)
  else None.

(** A timer that runs, or whose tick was not received yet: the idiom
    [stop_drain] returns on such a timer. *)
Definition live (t : Timer) : Prop := armed t <> None \/ C t = true.

(** *** What a call does *)

(** A call returns ([Done]), blocks for ever on a channel ([Blocked]) or
    panics ([Panicked]); each carries the state reached. *)
Inductive outcome (A : Type) : Type :=
| Done (a : A)
| Blocked (a : A)
| Panicked (a : A).
Arguments Done {A} a.
Arguments Blocked {A} a.
Arguments Panicked {A} a.

Definition bind {A : Type} (m : outcome A) (k : A -> outcome A) : outcome A :=
  match m with
  | Done a => k a
  | Blocked a => Blocked a
  | Panicked a => Panicked a
  end.

Notation "m >>= k" := (bind m k) (at level 50, left associativity).

(** The state a call has reached, whether it returned or not. *)
Definition state_of {A : Type} (o : outcome A) : A :=
  match o with
  | Done a => a
  | Blocked a => a
  | Panicked a => a
  end.

(** The payload of an event on the connection. *)
Inductive payload :=
| PInt (n : Z)
| PText (s : list byte).

(** The observable effects of a handler: events emitted on its connection
    and invocations of the registered [WSDisconnectFunc] (a callback is
    identified by a number). *)
Inductive effect :=
| Emit (event : string) (p : payload)
| Called (f : nat).

Section Handler.

(** The header caches are not part of the two files; the handler only
    calls their [Insert] methods. *)
Variables LocalHeaderCache HeaderCache StatusResponse : Type.

(** [HeaderCache.Insert] and [LocalHeaderCache.Insert]: the new
    content of the cache and the pair [(inserted, err)]. *)
Variable hc_Insert :
  HeaderCache -> RawMessageHeader -> HeaderCache * (bool * option error).
Variable lhc_Insert :
  LocalHeaderCache -> RawMessageHeader
  -> LocalHeaderCache * (bool * option error).

(** The struct [wsHandler].  [self] is the address of the struct, which is
    what the registry stores.  [remote] is the address of a peer cache, or
    [None] for nil.  The fields [con] and [local] point to objects shared
    with the rest of the program: they live in [World].  [at_select] stands
    for the channel [abort]: a send on it completes only while the
    goroutine of [eventLoop] waits in its [select]. *)
Record wsHandler := mkHandler {
  self : nat;
  remote : option nat;
  tmpStatus : option StatusResponse;
  disconnect : option nat;
  watchdog : Timer;
  timeTickle : Timer;
  statusTickle : Timer;
  peersTickle : Timer;
  at_select : bool;
  inbound : bool
}.

(** The objects the handler shares: the local cache, the heap of peer
    caches, the global [wsHandlerList] and what was emitted or called so
    far (oldest first). *)
Record World := mkWorld {
  lhc : LocalHeaderCache;
  hcs : nat -> HeaderCache;
  wsHandlerList : list nat;
  trace : list effect
}.

Definition St : Type := wsHandler * World.

Definition set_remote (h : wsHandler) (v : option nat) :=
  mkHandler (self h) v (tmpStatus h) (disconnect h) (watchdog h)
            (timeTickle h) (statusTickle h) (peersTickle h) (at_select h)
            (inbound h).
Definition set_disconnect (h : wsHandler) (v : option nat) :=
  mkHandler (self h) (remote h) (tmpStatus h) v (watchdog h)
            (timeTickle h) (statusTickle h) (peersTickle h) (at_select h)
            (inbound h).
Definition set_watchdog (h : wsHandler) (v : Timer) :=
  mkHandler (self h) (remote h) (tmpStatus h) (disconnect h) v
            (timeTickle h) (statusTickle h) (peersTickle h) (at_select h)
            (inbound h).
Definition set_timeTickle (h : wsHandler) (v : Timer) :=
  mkHandler (self h) (remote h) (tmpStatus h) (disconnect h) (watchdog h)
            v (statusTickle h) (peersTickle h) (at_select h) (inbound h).
Definition set_statusTickle (h : wsHandler) (v : Timer) :=
  mkHandler (self h) (remote h) (tmpStatus h) (disconnect h) (watchdog h)
            (timeTickle h) v (peersTickle h) (at_select h) (inbound h).
Definition set_peersTickle (h : wsHandler) (v : Timer) :=
  mkHandler (self h) (remote h) (tmpStatus h) (disconnect h) (watchdog h)
            (timeTickle h) (statusTickle h) v (at_select h) (inbound h).
Definition set_at_select (h : wsHandler) (v : bool) :=
  mkHandler (self h) (remote h) (tmpStatus h) (disconnect h) (watchdog h)
            (timeTickle h) (statusTickle h) (peersTickle h) v (inbound h).

Definition set_lhc (w : World) (v : LocalHeaderCache) :=
  mkWorld v (hcs w) (wsHandlerList w) (trace w).
Definition set_hc (w : World) (p : nat) (v : HeaderCache) :=
  mkWorld (lhc w) (fun q => if Nat.eqb q p then v else hcs w q)
          (wsHandlerList w) (trace w).
Definition set_wsHandlerList (w : World) (v : list nat) :=
  mkWorld (lhc w) (hcs w) v (trace w).
Definition add_effect (w : World) (e : effect) :=
  mkWorld (lhc w) (hcs w) (wsHandlerList w) (trace w ++ [e]).

(** [wsh.con.Emit(event, p)]. *)
Definition con_Emit (event : string) (p : payload) (st : St) : outcome St :=
  Done (fst st, add_effect (snd st) (Emit event p)).

Definition AdoptRemote (rhc : option nat) (st : St) : outcome St :=
  Done (set_remote (fst st) rhc, snd st).

Definition OnDisconnect (f : option nat) (st : St) : outcome St :=
  Done (set_disconnect (fst st) f, snd st).

Definition resetWatchdog (st : St) : outcome St :=
  let (wsh, w) := st in
  match stop_drain (watchdog wsh) with
  | None => Blocked st
  | Some t => Done (set_watchdog wsh (Reset t DefaultWatchdogTimeout), w)
  end.

Definition resetTimeTickle (st : St) : outcome St :=
  let (wsh, w) := st in
  match stop_drain (timeTickle wsh) with
  | None => Blocked st
  | Some t =>
      resetWatchdog (set_timeTickle wsh (Reset t DefaultTimeTickle), w)
  end.

Definition resetStatusTickle (st : St) : outcome St :=
  let (wsh, w) := st in
  match stop_drain (statusTickle wsh) with
  | None => Blocked st
  | Some t =>
      resetWatchdog (set_statusTickle wsh (Reset t DefaultStatusTickle), w)
  end.

(** [TxHeader]; [ser] is [rmh.Serialize()], a panic when it is [None]. *)
Definition TxHeader (ser : option (list byte)) (st : St) : outcome St :=
  match ser with
  | None => Panicked st
  | Some s => con_Emit "response-header" (PText s) st
  end.

(** [rxHeader]. *)
Definition rxHeader (s : list byte) (st : St) : outcome St :=
  match Deserialize new_RawMessageHeader s with
  | None => Panicked st
  | Some (_, Some _) => Done st
  | Some (rmh, None) =>
      resetWatchdog st >>= fun st =>
      let (wsh, w) := st in
      match remote wsh with
      | Some p =>
          let '(hc', (insert, err)) := hc_Insert (hcs w p) rmh in
          let w := set_hc w p hc' in
          match err with
          | Some _ => Done (wsh, w)
          | None =>
              if insert
              then Done (wsh, set_lhc w (fst (lhc_Insert (lhc w) rmh)))
              else Done (wsh, w)
          end
      | None => Done (wsh, w)
      end
  end.

(** [RequestStatus]. *)
Definition RequestStatus (st : St) : outcome St :=
  resetStatusTickle st >>= con_Emit "request-status" (PInt 0).

(** The position of the first [x] in [l], counted from [i]. *)
Fixpoint find_from (x : nat) (l : list nat) (i : nat) : option nat :=
  match l with
  | [] => None
  | y :: l' => if Nat.eqb y x then Some i else find_from x l' (i + 1)
  end.

(** The body of the removal loop of [Disconnect] at the index found: the
    last entry is moved to position [i] and the list is cut by one. *)
Definition swap_remove (i : nat) (l : list nat) : list nat :=
  removelast (set_at i (last l 0%nat) l).

(** [wsh.abort <- true] on the unbuffered channel: the send completes when
    [eventLoop] receives it in its [select]; the loop then returns. *)
Definition send_abort (st : St) : outcome St :=
  let (wsh, w) := st in
  if at_select wsh then Done (set_at_select wsh false, w)
  else Blocked st.

Definition drain_with (get : wsHandler -> Timer)
                      (set : wsHandler -> Timer -> wsHandler)
                      (st : St) : outcome St :=
  match stop_drain (get (fst st)) with
  | None => Blocked st
  | Some t => Done (set (fst st) t, snd st)
  end.

(** [Disconnect]. *)
Definition Disconnect (st : St) : outcome St :=
  let (wsh, w) := st in
  let w := match disconnect wsh with
           | Some f => add_effect w (Called f)
           | None => w
           end in
  drain_with timeTickle set_timeTickle (wsh, w) >>= fun st =>
  drain_with statusTickle set_statusTickle st >>= fun st =>
  drain_with watchdog set_watchdog st >>= fun st =>
  send_abort st >>= fun st =>
  let (wsh, w) := st in
  match find_from (self wsh) (wsHandlerList w) 0 with
  | Some i => Done (wsh, set_wsHandlerList w (swap_remove i (wsHandlerList w)))
  | None => Panicked st
  end.

(** The cases of the [select] of [eventLoop] that wait for a timer.  The
    case on [abort] is the receiving side of [send_abort]. *)
Inductive timer_case :=
| WatchdogC
| TimeTickleC
| StatusTickleC
| PeersTickleC.

Definition recv (t : Timer) : Timer := mkTimer (armed t) false.

(** One pass through the [for { select { ... } }] of [eventLoop] taking
    the case [c]; [None] when the loop is not waiting or the channel of
    that case holds no tick.  After the pass [at_select] tells whether the
    loop went back to the [select]. *)
Definition eventLoop (c : timer_case) (st : St) : option (outcome St) :=
  let (wsh, w) := st in
  if negb (at_select wsh) then None
  else
    match c with
    | WatchdogC =>
        if C (watchdog wsh) then
          Some (Disconnect
                  (set_at_select (set_watchdog wsh (recv (watchdog wsh)))
                                 false, w))
        else None
    | TimeTickleC =>
        if C (timeTickle wsh) then
          Some (con_Emit "request-time" (PInt 0)
                  (set_timeTickle wsh (recv (timeTickle wsh)), w)
                >>= fun st =>
                Done (set_timeTickle (fst st)
                        (Reset (timeTickle (fst st)) DefaultTimeTickle),
                      snd st))
        else None
    | StatusTickleC =>
        if C (statusTickle wsh) then
          Some (con_Emit "request-status" (PInt 0)
                  (set_statusTickle wsh (recv (statusTickle wsh)), w)
                >>= fun st =>
                Done (set_statusTickle (fst st)
                        (Reset (statusTickle (fst st)) DefaultStatusTickle),
                      snd st))
        else None
    | PeersTickleC =>
        if C (peersTickle wsh) then
          Some (con_Emit "request-peers" (PInt 0)
                  (set_peersTickle wsh (recv (peersTickle wsh)), w)
                >>= fun st =>
                Done (set_statusTickle (fst st)
                        (Reset (statusTickle (fst st)) DefaultStatusTickle),
                      snd st))
        else None
    end.

(** What [txPeers] uses of the local cache, which is outside the two
    files: [ListPeers], and [json.Marshal] on an item of the list ([None]
    is an error). *)
Variable PeerItemResponse : Type.
Variable ListPeers : LocalHeaderCache -> list PeerItemResponse.
Variable Marshal_peer : PeerItemResponse -> option (list byte).

(** The loop of [txPeers] over the listed peers. *)
Fixpoint emit_peers (peers : list PeerItemResponse) (st : St)
  : outcome St :=
  match peers with
  | [] => Done st
  | peer :: rest =>
      match Marshal_peer peer with
      | Some j => con_Emit "response-peer" (PText j) st >>= emit_peers rest
      | None => emit_peers rest st
      end
  end.

(** [txPeers]. *)
Definition txPeers (st : St) : outcome St :=
  resetWatchdog st >>= fun st => emit_peers (ListPeers (lhc (snd st))) st.

(** [NewWSProtocolHandler] with [setup]: the four timers are started, the
    goroutine of [eventLoop] waits in its [select], the handler is
    appended to the registry, and the goroutine that [setup] starts with
    [go wsh.txPeers(0)] runs: it resets the watchdog and sends the peer
    list once.  [addr] is the address of the new struct.  The handlers
    registered on the connection are the functions of this file. *)
Definition NewWSProtocolHandler (addr : nat) (remote : option nat)
                                (w : World) : outcome St :=
  txPeers
    (mkHandler addr remote None None
               (NewTimer DefaultWatchdogTimeout)
               (NewTimer DefaultTimeTickle)
               (NewTimer DefaultStatusTickle)
               (NewTimer DefaultPeersTickle)
               true
               (match remote with None => true | Some _ => false end),
     set_wsHandlerList w (wsHandlerList w ++ [addr])).

End Handler.

Arguments mkHandler {StatusResponse}.
Arguments self {StatusResponse}.
Arguments remote {StatusResponse}.
Arguments tmpStatus {StatusResponse}.
Arguments disconnect {StatusResponse}.
Arguments watchdog {StatusResponse}.
Arguments timeTickle {StatusResponse}.
Arguments statusTickle {StatusResponse}.
Arguments peersTickle {StatusResponse}.
Arguments at_select {StatusResponse}.
Arguments inbound {StatusResponse}.
Arguments mkWorld {LocalHeaderCache HeaderCache}.
Arguments lhc {LocalHeaderCache HeaderCache}.
Arguments hcs {LocalHeaderCache HeaderCache}.
Arguments wsHandlerList {LocalHeaderCache HeaderCache}.
Arguments trace {LocalHeaderCache HeaderCache}.
Arguments set_remote {StatusResponse}.
Arguments set_disconnect {StatusResponse}.
Arguments set_watchdog {StatusResponse}.
Arguments set_timeTickle {StatusResponse}.
Arguments set_statusTickle {StatusResponse}.
Arguments set_peersTickle {StatusResponse}.
Arguments set_at_select {StatusResponse}.
Arguments set_lhc {LocalHeaderCache HeaderCache}.
Arguments set_hc {LocalHeaderCache HeaderCache}.
Arguments set_wsHandlerList {LocalHeaderCache HeaderCache}.
Arguments add_effect {LocalHeaderCache HeaderCache}.
Arguments con_Emit {LocalHeaderCache HeaderCache StatusResponse}.
Arguments AdoptRemote {LocalHeaderCache HeaderCache StatusResponse}.
Arguments OnDisconnect {LocalHeaderCache HeaderCache StatusResponse}.
Arguments resetWatchdog {LocalHeaderCache HeaderCache StatusResponse}.
Arguments resetTimeTickle {LocalHeaderCache HeaderCache StatusResponse}.
Arguments resetStatusTickle {LocalHeaderCache HeaderCache StatusResponse}.
Arguments TxHeader {LocalHeaderCache HeaderCache StatusResponse}.
Arguments rxHeader {LocalHeaderCache HeaderCache StatusResponse}.
Arguments RequestStatus {LocalHeaderCache HeaderCache StatusResponse}.
Arguments send_abort {LocalHeaderCache HeaderCache StatusResponse}.
Arguments drain_with {LocalHeaderCache HeaderCache StatusResponse}.
Arguments Disconnect {LocalHeaderCache HeaderCache StatusResponse}.
Arguments eventLoop {LocalHeaderCache HeaderCache StatusResponse}.
Arguments emit_peers {LocalHeaderCache HeaderCache StatusResponse
                      PeerItemResponse}.
Arguments txPeers {LocalHeaderCache HeaderCache StatusResponse
                   PeerItemResponse}.
Arguments NewWSProtocolHandler {LocalHeaderCache HeaderCache} StatusResponse
                               {PeerItemResponse}.

End WS.

(** ** The header formats, as predicates on strings and headers *)

Module Format.

Import GoLib Header.
Local Open Scope N_scope.

Definition is_lowerhex (c : byte) : bool :=
  between "0" c "9" || between "a" c "f".

Definition is_upperhex (c : byte) : bool :=
  between "0" c "9" || between "A" c "F".

(** A character of the base-64 alphabet. *)
Definition is_b64 (c : byte) : bool :=
  match decodeMap c with Some _ => true | None => false end.

Definition lowerhex_text (n : nat) (s : list byte) : Prop :=
  length s = n /\ Forall (fun c => is_lowerhex c = true) s.

Definition upperhex_text (n : nat) (s : list byte) : Prop :=
  length s = n /\ Forall (fun c => is_upperhex c = true) s.

(** The eight fields of a v1 header joined by colons. *)
Definition v1_text (t e i j k r s' : list byte) : list byte :=
  str "M0100" ++ [colon] ++ t ++ [colon] ++ e ++ [colon] ++ i
  ++ [colon] ++ j ++ [colon] ++ k ++ [colon] ++ r ++ [colon] ++ s'.

(** A valid v1 ASCII header:
    [M0100:HHHHHHHH:HHHHHHHH:<66 hex>:<66 hex>:<66 hex>:<64 hex>:<64 hex>]
    with the two times in upper-case and the five blobs in lower-case
    hexadecimal. *)
Definition valid_v1 (s : list byte) : Prop :=
  exists t e i j k r s',
    s = v1_text t e i j k r s' /\
    upperhex_text 8 t /\ upperhex_text 8 e /\
    lowerhex_text 66 i /\ lowerhex_text 66 j /\ lowerhex_text 66 k /\
    lowerhex_text 64 r /\ lowerhex_text 64 s'.

(** A valid v2 header of [n] base-64 characters: only characters of the
    alphabet, and the decoded bytes start with the magic. *)
Definition valid_v2 (n : nat) (s : list byte) : Prop :=
  length s = n /\ Forall (fun c => is_b64 c = true) s /\
  slice 0 4 (fst (b64_DecodeString s)) = magicV2.

Definition valid_v2_long : list byte -> Prop :=
  valid_v2 MessageHeaderLengthB64V2.
Definition valid_v2_short : list byte -> Prop :=
  valid_v2 ShortMessageHeaderLengthB64V2.

(** The blobs have the sizes of the data model. *)
Definition sized (h : RawMessageHeader) : Prop :=
  length (keyI h) = 33%nat /\ length (keyJ h) = 33%nat /\
  length (keyK h) = 33%nat /\
  length (sig_r h) = 32%nat /\ length (sig_s h) = 32%nat.

(** The integer fields are values of their Go types. *)
Definition typed (h : RawMessageHeader) : Prop :=
  time h < 2 ^ 32 /\ expire h < 2 ^ 32 /\ blocklen h < 2 ^ 32 /\
  reserved h < 2 ^ 64 /\ nonce h < 2 ^ 64.

(** What the serialization of a header can carry: a v1 header has no
    block length, reserved word or nonce; the nonce of a v2 header has 40
    bits. *)
Definition representable (h : RawMessageHeader) : Prop :=
  (version h = str "0100" /\ blocklen h = 0 /\ reserved h = 0 /\ nonce h = 0)
  \/ (version h = str "0200" /\ nonce h < 2 ^ 40).

Definition v1_prefixed (s : list byte) : Prop := slice 0 3 s = str "M01".

(** Hexadecimal text as [hex.DecodeString] takes it: an even number of
    digits of either case. *)
Definition hex_text (s : list byte) : Prop :=
  Nat.even (length s) = true /\ Forall (fun c => fromHexChar c <> None) s.

(** The part of a v2 string that is decoded. *)
Definition v2_prefix (s : list byte) : list byte :=
  if (MessageHeaderLengthB64V2 <=? length s)%nat
  then slice 0 MessageHeaderLengthB64V2 s
  else slice 0 ShortMessageHeaderLengthB64V2 s.

(** The ways in which a string of at least three characters misses the
    two formats that [Deserialize] looks for. *)
Inductive malformed (s : list byte) : Prop :=
| v1_field_count :
    v1_prefixed s -> length (Split s colon) <> 8%nat -> malformed s
| v1_magic :
    v1_prefixed s -> nth 0 (Split s colon) [] <> str "M0100" -> malformed s
| v1_blob_not_hex (i : nat) :
    v1_prefixed s -> (3 <= i <= 7)%nat ->
    ~ hex_text (nth i (Split s colon) []) -> malformed s
| v2_too_short :
    ~ v1_prefixed s -> (length s < ShortMessageHeaderLengthB64V2)%nat ->
    malformed s
| v2_alphabet_short :
    ~ v1_prefixed s -> (length s < MessageHeaderLengthB64V2)%nat ->
    ~ Forall (fun c => is_b64 c = true)
             (slice 0 ShortMessageHeaderLengthB64V2 s) ->
    malformed s
| v2_alphabet (c : byte) :
    ~ v1_prefixed s -> In c (v2_prefix s) ->
    is_b64 c = false -> c <> padChar -> is_newline c = false ->
    malformed s
| v2_magic :
    ~ v1_prefixed s ->
    slice 0 4 (fst (b64_DecodeString (v2_prefix s))) <> magicV2 ->
    malformed s.

(** The 192 bytes of a long v2 header, field by field. *)
Definition layout (t e I J K bl rs r s n8 n32 : list byte) : list byte :=
  magicV2 ++ t ++ e ++ I ++ J ++ K ++ bl ++ rs ++ r ++ s ++ n8 ++ n32.

(** The first 33 bytes of [I] with the time: the key [Less] compares. *)
Definition sort_key (h : RawMessageHeader) : N * list byte :=
  (time h, firstn 33 (keyI h)).

(** Byte-lexicographic order on byte strings ([bytes.Compare(a, b) < 0]). *)
Fixpoint lex_ltb (a b : list byte) : bool :=
  match a, b with
  | [], [] => false
  | [], _ :: _ => true
  | _ :: _, [] => false
  | x :: a', y :: b' =>
      if to_N x <? to_N y then true
      else if to_N y <? to_N x then false
      else lex_ltb a' b'
  end.

(** Ascending time, ties broken by the byte-lexicographic order. *)
Definition key_ltb (p q : N * list byte) : bool :=
  (fst p <? fst q) || ((fst p =? fst q) && lex_ltb (snd p) (snd q)).

End Format.

(** ** A model of the header caches *)

Module CacheModel.

Import GoLib Header.
Local Open Scope N_scope.

(** Modelled from the spec: [HeaderCache.Insert] and
    [LocalHeaderCache.Insert], which are not in the two files.  Section
    4.3: "Returns [(false, nil)] if [I0||I] exists (dedup).  Returns
    [(false, HeaderExpired)] if [header.expire <= now].  Otherwise writes
    the four index entries, increments [Count], returns [(true, nil)]."
    The clock is part of the cache here. *)
Record Cache := mkCache {
  now : N;
  entries : list RawMessageHeader;
  Count : N
}.

Definition Insert (c : Cache) (h : RawMessageHeader)
  : Cache * (bool * option error) :=
  if existsb (fun e => bytes_eqb (keyI e) (keyI h)) (entries c)
  then (c, (false, None))
  else if expire h <=? now c
  then (c, (false, Some (errors_New "HeaderExpired")))
  else (mkCache (now c) (entries c ++ [h]) (Count c + 1), (true, None)).

Definition empty (t : N) : Cache := mkCache t [] 0.

End CacheModel.

(** ** Sample values *)

Module Examples.

Import GoLib Header Format WS.
Local Open Scope N_scope.

Definition v1_header : RawMessageHeader :=
  mkRaw (str "0100") 0x585C9E80 0x5860F980
        (x02 :: repeat xab 32) (repeat x03 33) (repeat xff 33)
        0 0 (repeat x10 32) (repeat x00 32) 0.

Definition v1_string : list byte :=
  v1_text (str "585C9E80") (str "5860F980")
          (str "02" ++ concat (repeat (str "ab") 32))
          (concat (repeat (str "03") 33))
          (concat (repeat (str "ff") 33))
          (concat (repeat (str "10") 32))
          (concat (repeat (str "00") 32)).

Definition v2_header : RawMessageHeader :=
  mkRaw (str "0200") 0x585C9E80 0x5860F980
        (x02 :: repeat xab 32) (repeat x03 33) (repeat xff 33)
        7 0 (repeat x10 32) (repeat x00 32) 0x1234567890.

Definition v2_short_string : list byte :=
  str "TQIAAFhcnoBYYPmAAqurq6urq6urq6urq6urq6urq6urq6urq6urq6urq6urAwMDAwMDAwMDAwMDAwMDAwMDAwMDAwMDAwMDAwMDAwMD////////////////////////////////////////////AAAABwAAAAAAAAAA".

Definition v2_long_string : list byte :=
  v2_short_string
  ++ str "EBAQEBAQEBAQEBAQEBAQEBAQEBAQEBAQEBAQEBAQEBAAAAAAAAAAAAAAAAAAAAAAAAAAAAAAAAAAAAAAAAAAABI0VniQ".

(** A v1 header that carries a block length and a nonce: what [Swap]
    leaves behind when it deserializes the text of [v1_header] into a
    header that held [v2_header]. *)
Definition v1_header_with_blocklen : RawMessageHeader :=
  mkRaw (str "0100") 0x585C9E80 0x5860F980
        (x02 :: repeat xab 32) (repeat x03 33) (repeat xff 33)
        7 0 (repeat x10 32) (repeat x00 32) 0x1234567890.

(** A v2 header whose nonce does not fit in 40 bits. *)
Definition v2_header_wide_nonce : RawMessageHeader :=
  set_nonce v2_header (2 ^ 40).

(** A v2 header with the largest block length. *)
Definition v2_header_max_blocklen : RawMessageHeader :=
  set_blocklen v2_header (2 ^ 32 - 1).

(** Two headers of the same time whose [I] are 34 bytes long and differ
    in the last byte only. *)
Definition long_I_a : RawMessageHeader := set_I v1_header (repeat x00 34).
Definition long_I_b : RawMessageHeader :=
  set_I v1_header (repeat x00 33 ++ [x01]).

(** A v1-prefixed text of eight fields whose times are not hexadecimal
    and whose blobs are empty. *)
Definition v1_junk : list byte := str "M0100:ZZ:ZZ:::::".

(** A fresh handler at address 1 with peer cache 0 or none, in a world
    whose caches are empty and whose clock reads [1482500000]. *)
Definition world0 : World CacheModel.Cache CacheModel.Cache :=
  mkWorld (CacheModel.empty 1482500000)
          (fun _ => CacheModel.empty 1482500000) [] [].

(** The local cache of these samples lists no peer, so that the
    [txPeers] of the constructor has nothing to send. *)
Definition no_peers (c : CacheModel.Cache) : list unit := [].
Definition Marshal_unit (p : unit) : option (list byte) := Some [].

Definition outbound0 : St CacheModel.Cache CacheModel.Cache unit :=
  state_of (NewWSProtocolHandler unit no_peers Marshal_unit
                                 1 (Some 0%nat) world0).

Definition inbound0 : St CacheModel.Cache CacheModel.Cache unit :=
  state_of (NewWSProtocolHandler unit no_peers Marshal_unit 1 None world0).

(** The outbound handler with the callback 7 registered. *)
Definition with_callback : St CacheModel.Cache CacheModel.Cache unit :=
  (set_disconnect (fst outbound0) (Some 7%nat), snd outbound0).

(** The same handler and world after [Disconnect] has returned. *)
Definition after_disconnect : St CacheModel.Cache CacheModel.Cache unit :=
  (mkHandler 1%nat (Some 0%nat) None (Some 7%nat)
             (mkTimer None false) (mkTimer None false) (mkTimer None false)
             (NewTimer DefaultPeersTickle) false false,
   mkWorld (CacheModel.empty 1482500000)
           (fun _ => CacheModel.empty 1482500000) [] [Called 7]).

(** The outbound handler 300 seconds later, when [peersTickle] has fired
    and its tick waits in the channel. *)
Definition peers_due : St CacheModel.Cache CacheModel.Cache unit :=
  (set_peersTickle (fst outbound0) (fire (peersTickle (fst outbound0))),
   snd outbound0).



Definition inbound_due : St CacheModel.Cache CacheModel.Cache unit :=
  (set_watchdog (fst inbound0) (fire (watchdog (fst inbound0))),
   snd inbound0).

Definition inbound_expired : St CacheModel.Cache CacheModel.Cache unit :=
  (mkHandler 1%nat None None None
             (mkTimer None false) (mkTimer None false) (mkTimer None false)
             (NewTimer DefaultPeersTickle) false true,
   snd inbound0).

End Examples.

(** ** header.go: the remaining methods *)

Module HeaderExt.

Import GoLib Header.
Local Open Scope N_scope.

(** [ImportBytes].  [b[:3]] panics on fewer than three bytes: [None]. *)
Definition ImportBytes (z : RawMessageHeader) (b : list byte)
  : option (RawMessageHeader * option error) :=
  if (length b <? 3)%nat then None
  else if bytes_eqb (slice 0 3 b) (str "M01")
  then Some (deserializeV1 z b)
  else Some (importBinaryHeaderV2 z b).

(** [SerializeV1]; [None] is the nil pointer. *)
Definition SerializeV1 (z : RawMessageHeader) : option (list byte) :=
  if bytes_eqb (version z) (str "0100") then serializeV1 z else None.

(** [SerializeV2]: the outer [None] is the panic of [serializeV2], the
    inner [None] the nil pointer returned for a v1 header. *)
Definition SerializeV2 (z : RawMessageHeader)
  : option (option (list byte)) :=
  if bytes_eqb (version z) (str "0100") then Some None
  else match serializeV2 z with
       | None => None
       | Some smh => Some (Some smh)
       end.

(** [ExportBinaryHeaderV2]; [None] is the nil pointer. *)
Definition ExportBinaryHeaderV2 (z : RawMessageHeader)
  : option (list byte) :=
  if bytes_eqb (version z) (str "0100") then None
  else exportBinaryHeaderV2 z.

(** The function [ImportBinaryHeaderV2]; [None] is the nil pointer. *)
Definition ImportBinaryHeaderV2 (smh : list byte) : option RawMessageHeader :=
  match importBinaryHeaderV2 new_RawMessageHeader smh with
  | (z, None) => Some z
  | (_, Some _) => None
  end.

(** [ExportBytes]: both branches slice the array behind the pointer they
    get, so a nil pointer is a panic: [None]. *)
Definition ExportBytes (z : RawMessageHeader) : option (list byte) :=
  if bytes_eqb (version z) (str "0100") then SerializeV1 z
  else exportBinaryHeaderV2 z.

Definition IKey (z : RawMessageHeader) : list byte := keyI z.
Definition JKey (z : RawMessageHeader) : list byte := keyJ z.
Definition KKey (z : RawMessageHeader) : list byte := keyK z.

(** [RawMessageHeaderSlice.Len]. *)
Definition Len (z : list RawMessageHeader) : nat := length z.

(** The struct [dbkeys] is declared outside the two files; these are the
    fields [dbKeys] assigns. *)
Record dbkeys := mkDbkeys {
  date : list byte;
  servertime : list byte;
  dbexpire : list byte;
  dbI : list byte
}.

(** [fmt.Sprintf("D0%08X", t)] and the like: two literal characters and
    the eight digits of a uint32. *)
Definition Sprintf_key (tag : string) (t : N) : list byte :=
  str tag ++ fmt_08X t.

(** [dbKeys]: [(nil, err)] on an error of [hex.DecodeString]. *)
Definition dbKeys (h : RawMessageHeader) (st : N)
  : option dbkeys * option error :=
  let (d, err) := DecodeString (Sprintf_key "D0" (time h)) in
  match err with
  | Some e => (None, Some e)
  | None =>
  let d := d ++ keyI h in
  let (c, err) := DecodeString (Sprintf_key "C0" st) in
  match err with
  | Some e => (None, Some e)
  | None =>
  let c := c ++ keyI h in
  let (e, err) := DecodeString (Sprintf_key "E0" (expire h)) in
  match err with
  | Some e' => (None, Some e')
  | None =>
  let e := e ++ keyI h in
  (Some (mkDbkeys d c e (keyI h)), None)
  end end end.

(** *** math/big *)

(** The big-endian bytes of [x] without leading zeros; [fuel] bounds the
    number of bytes. *)
Fixpoint be_bytes (fuel : nat) (x : N) : list byte :=
  match fuel with
  | O => []
  | Datatypes.S f =>
      if x =? 0 then [] else be_bytes f (x / 256) ++ [byte_of_N x]
  end.

(** [x.Bytes()]: the absolute value, big-endian. *)
Definition big_Bytes (x : Z) : list byte :=
  be_bytes (N.to_nat (N.size (Z.abs_N x))) (Z.abs_N x).

(** The number whose big-endian bytes are [b]. *)
Definition value_of (b : list byte) : N :=
  fold_left (fun acc c => acc * 256 + to_N c) b 0.

(** The value [z.SetBytes(b)] gives to [z]. *)
Definition big_SetBytes (b : list byte) : Z := Z.of_N (value_of b).

(** [padbytes]; the nil result is [[]]. *)
Definition padbytes (x : Z) (nbyte : nat) : list byte :=
  if (x <? 0)%Z then []
  else
    let lsbytes := big_Bytes x in
    let lenls := length lsbytes in
    if (nbyte <? lenls)%nat then []
    else if (lenls =? nbyte)%nat then lsbytes
    else
      let pad := make nbyte in
      firstn (nbyte - lenls) pad ++ copy (skipn (nbyte - lenls) pad) lsbytes.

(** The struct [FullMessageHeader]; its fields [I], [J], [K], [r], [s] are
    [bigI], [bigJ], [bigK], [big_r], [big_s] here. *)
Record FullMessageHeader := mkFull {
  rmh : RawMessageHeader;
  bigI : Z;
  bigJ : Z;
  bigK : Z;
  big_r : Z;
  big_s : Z
}.

Definition new_FullMessageHeader : FullMessageHeader :=
  mkFull new_RawMessageHeader 0 0 0 0 0.

(** The five assignments that [Serialize] and [ExportBytes] start with. *)
Definition sync_rmh (z : FullMessageHeader) : FullMessageHeader :=
  mkFull (set_s (set_r (set_K (set_J (set_I (rmh z)
            (padbytes (bigI z) 33))
            (padbytes (bigJ z) 33))
            (padbytes (bigK z) 33))
            (padbytes (big_r z) 32))
            (padbytes (big_s z) 32))
         (bigI z) (bigJ z) (bigK z) (big_r z) (big_s z).

(** [FullMessageHeader.Serialize]: the receiver after the call and the
    string, [None] for a panic. *)
Definition Full_Serialize (z : FullMessageHeader)
  : FullMessageHeader * option (list byte) :=
  let z := sync_rmh z in (z, Serialize (rmh z)).

Definition Full_ExportBytes (z : FullMessageHeader)
  : FullMessageHeader * option (list byte) :=
  let z := sync_rmh z in (z, ExportBytes (rmh z)).

(** The five [SetBytes] calls after a successful parse. *)
Definition load_big (z : FullMessageHeader) (r : RawMessageHeader)
  : FullMessageHeader :=
  mkFull r (big_SetBytes (keyI r)) (big_SetBytes (keyJ r))
         (big_SetBytes (keyK r)) (big_SetBytes (sig_r r))
         (big_SetBytes (sig_s r)).

(** [FullMessageHeader.Deserialize]. *)
Definition Full_Deserialize (z : FullMessageHeader) (s : list byte)
  : option (FullMessageHeader * option error) :=
  match Deserialize (rmh z) s with
  | None => None
  | Some (r, Some e) =>
      Some (mkFull r (bigI z) (bigJ z) (bigK z) (big_r z) (big_s z), Some e)
  | Some (r, None) => Some (load_big z r, None)
  end.

(** [FullMessageHeader.ImportBytes]. *)
Definition Full_ImportBytes (z : FullMessageHeader) (b : list byte)
  : option (FullMessageHeader * option error) :=
  match ImportBytes (rmh z) b with
  | None => None
  | Some (r, Some e) =>
      Some (mkFull r (bigI z) (bigJ z) (bigK z) (big_r z) (big_s z), Some e)
  | Some (r, None) => Some (load_big z r, None)
  end.

Definition Full_IKey (z : FullMessageHeader) : list byte :=
  padbytes (bigI z) 33.
Definition Full_JKey (z : FullMessageHeader) : list byte :=
  padbytes (bigJ z) 33.
Definition Full_KKey (z : FullMessageHeader) : list byte :=
  padbytes (bigK z) 33.

(** [FullMessageHeader.dbKeys]. *)
Definition Full_dbKeys (z : FullMessageHeader) (st : N)
  : FullMessageHeader * (option dbkeys * option error) :=
  let z := mkFull (set_I (rmh z) (padbytes (bigI z) 33))
                  (bigI z) (bigJ z) (bigK z) (big_r z) (big_s z) in
  (z, dbKeys (rmh z) st).

(** A number that [padbytes] can write in [nbyte] bytes, and a full header
    whose five numbers fit their fields. *)
Definition fits (x : Z) (nbyte : nat) : Prop :=
  (0 <= x < 256 ^ Z.of_nat nbyte)%Z.

Definition in_range (z : FullMessageHeader) : Prop :=
  fits (bigI z) 33 /\ fits (bigJ z) 33 /\ fits (bigK z) 33 /\
  fits (big_r z) 32 /\ fits (big_s z) 32.

End HeaderExt.

(** ** wsprotocol.go: the remaining handlers *)

Module WSExt.

Import GoLib Header WS.
Local Open Scope N_scope.

Section Handlers.

Variables LocalHeaderCache HeaderCache StatusResponse PeerItemResponse : Type.

(** What the handlers use of the caches, which are outside the two
    files: the fields [serverTime] and [status] of a peer cache, and
    [Status] and [AddPeer] of the local cache. *)
Variable set_serverTime : HeaderCache -> N -> HeaderCache.
Variable get_status : HeaderCache -> StatusResponse.
Variable set_status : HeaderCache -> StatusResponse -> HeaderCache.
Variable lhc_Status : LocalHeaderCache -> StatusResponse.
Variable AddPeer : LocalHeaderCache -> PeerItemResponse -> LocalHeaderCache.

(** [json.Marshal] and [json.Unmarshal] at the two types; [None] is an
    error. *)
Variable Marshal_status : StatusResponse -> option (list byte).
Variable Unmarshal_status : list byte -> option StatusResponse.
Variable Unmarshal_peer : list byte -> option PeerItemResponse.

Let state : Type := St LocalHeaderCache HeaderCache StatusResponse.

Definition set_tmpStatus (h : wsHandler StatusResponse)
                         (v : option StatusResponse) :=
  mkHandler (self h) (remote h) v (disconnect h) (watchdog h)
            (timeTickle h) (statusTickle h) (peersTickle h) (at_select h)
            (inbound h).

(** [txTime]; [now] is [time.Now().Unix()]. *)
Definition txTime (now : Z) (st : state) : outcome state :=
  resetTimeTickle st >>= con_Emit "response-time" (PInt now).

(** [rxTime]; [uint32(t)] keeps the low 32 bits of the int. *)
Definition rxTime (t : Z) (st : state) : outcome state :=
  resetWatchdog st >>= fun st =>
  let (wsh, w) := st in
  match remote wsh with
  | Some p =>
      Done (wsh, set_hc w p (set_serverTime (hcs w p)
                                            (Z.to_N (t mod 2 ^ 32))))
  | None => Done (wsh, w)
  end.

(** [txStatus]. *)
Definition txStatus (st : state) : outcome state :=
  resetWatchdog st >>= fun st =>
  match Marshal_status (lhc_Status (lhc (snd st))) with
  | Some j => con_Emit "response-status" (PText j) st
  | None => Done st
  end.

(** [rxStatus]. *)
Definition rxStatus (m : list byte) (st : state) : outcome state :=
  match Unmarshal_status m with
  | Some status =>
      resetStatusTickle st >>= fun st =>
      let (wsh, w) := st in
      match remote wsh with
      | Some p => Done (wsh, set_hc w p (set_status (hcs w p) status))
      | None => Done (set_tmpStatus wsh (Some status), w)
      end
  | None => Done st
  end.

(** [rxPeer]; [AddPeer] is given the item, of which the code passes on
    the fields [Host] and [Port]. *)
Definition rxPeer (m : list byte) (st : state) : outcome state :=
  resetWatchdog st >>= fun st =>
  match Unmarshal_peer m with
  | Some peer => Done (fst st, set_lhc (snd st) (AddPeer (lhc (snd st)) peer))
  | None => Done st
  end.

(** [Status]: the status of the peer cache, or the pending status;
    [None] is nil. *)
Definition Status (st : state) : option StatusResponse :=
  match remote (fst st) with
  | Some p => Some (get_status (hcs (snd st) p))
  | None => tmpStatus (fst st)
  end.

End Handlers.

Arguments set_tmpStatus {StatusResponse}.
Arguments txTime {LocalHeaderCache HeaderCache StatusResponse}.
Arguments rxTime {LocalHeaderCache HeaderCache StatusResponse}.
Arguments txStatus {LocalHeaderCache HeaderCache StatusResponse}.
Arguments rxStatus {LocalHeaderCache HeaderCache StatusResponse}.
Arguments rxPeer {LocalHeaderCache HeaderCache StatusResponse
                  PeerItemResponse}.
Arguments Status {LocalHeaderCache HeaderCache StatusResponse}.

End WSExt.

(** ** The server of the command: the list of WebSocket clients *)

Module Server.

Import GoLib.

(** [WSServer.clients]: the addresses of the [WSClient] structs. *)
Definition clients := list nat.

(** [WSServer.Connect]; [c] is the address of the new client. *)
Definition Connect (c : nat) (cl : clients) : clients := cl ++ [c].

(** The position of the first [x] in [l], counted from [p]. *)
Fixpoint position (x : nat) (l : list nat) (p : nat) : option nat :=
  match l with
  | [] => None
  | v :: l' => if Nat.eqb v x then Some p else position x l' (p + 1)
  end.

(** [WSServer.Disconnect]; [None] is one of its two panics. *)
Definition Disconnect (wsc : nat) (cl : clients) : option clients :=
  let l := length cl in
  if (l =? 0)%nat then None
  else match position wsc cl 0 with
       | Some p => Some (firstn (l - 1) (set_at p (nth (l - 1) cl 0%nat) cl))
       | None => None
       end.

End Server.

(** ** More sample values *)

Module Examples2.

Import GoLib Header Format HeaderExt WS WSExt Examples.
Local Open Scope N_scope.

(** The 192 bytes of [v2_header]. *)
Definition v2_bytes : list byte :=
  layout (PutUint32 0x585C9E80) (PutUint32 0x5860F980)
         (x02 :: repeat xab 32) (repeat x03 33) (repeat xff 33)
         (PutUint32 7) (PutUint64 0) (repeat x10 32) (repeat x00 32)
         [x12] (PutUint32 0x34567890).

(** A header whose blobs have the wrong sizes but the right total. *)
Definition v2_header_shifted : RawMessageHeader :=
  set_J (set_I v2_header (repeat x02 34)) (repeat x03 32).

(** A v1 header without blobs, as [v1_junk] deserializes. *)
Definition v1_header_empty : RawMessageHeader :=
  mkRaw (str "0100") 0 0 [] [] [] 0 0 [] [] 0.

(** A full header whose numbers are small, and one with a negative
    [r]. *)
Definition full_header : FullMessageHeader :=
  mkFull v2_header 2 3 5 7 11.

Definition full_header_negative : FullMessageHeader :=
  mkFull v2_header 2 3 5 (-7) 11.

End Examples2.

(** ** The handler as a system: what can happen to it *)

Module System.

Import GoLib Header WS WSExt.

(** A timer is tidy when it is not both running and holding a tick that
    was not received: the state [Reset] is meant to be called in. *)
Definition tidy (t : Timer) : Prop := armed t = None \/ C t = false.

(** The handlers of the connection. *)
Inductive handler :=
| H_txTime | H_rxTime | H_txStatus | H_rxStatus | H_rxHeader | H_txPeers
| H_rxPeer.

Section System.

Variables LocalHeaderCache HeaderCache StatusResponse PeerItemResponse : Type.

Variable set_serverTime : HeaderCache -> N -> HeaderCache.
Variable set_status : HeaderCache -> StatusResponse -> HeaderCache.
Variable lhc_Status : LocalHeaderCache -> StatusResponse.
Variable ListPeers : LocalHeaderCache -> list PeerItemResponse.
Variable AddPeer : LocalHeaderCache -> PeerItemResponse -> LocalHeaderCache.
Variable Marshal_status : StatusResponse -> option (list byte).
Variable Unmarshal_status : list byte -> option StatusResponse.
Variable Marshal_peer : PeerItemResponse -> option (list byte).
Variable Unmarshal_peer : list byte -> option PeerItemResponse.
Variable hc_Insert :
  HeaderCache -> RawMessageHeader -> HeaderCache * (bool * option error).
Variable lhc_Insert :
  LocalHeaderCache -> RawMessageHeader
  -> LocalHeaderCache * (bool * option error).

Let state : Type := St LocalHeaderCache HeaderCache StatusResponse.

Definition tidy_all (h : wsHandler StatusResponse) : Prop :=
  tidy (watchdog h) /\ tidy (timeTickle h) /\ tidy (statusTickle h) /\
  tidy (peersTickle h).

(** The table that [setup] fills with [con.On]: the handler registered
    for an event name. *)
Definition registered (event : string) : option handler :=
  if String.eqb event "request-time" then Some H_txTime
  else if String.eqb event "response-time" then Some H_rxTime
  else if String.eqb event "request-status" then Some H_txStatus
  else if String.eqb event "response-status" then Some H_rxStatus
  else if String.eqb event "response-header" then Some H_rxHeader
  else if String.eqb event "request-peers" then Some H_txPeers
  else if String.eqb event "response-peer" then Some H_rxPeer
  else None.

(** An event arrives on the connection: the registered handler is called
    with the payload, which is an [int] for [txTime], [rxTime], [txStatus]
    and [txPeers] and a [[]byte] or [string] for the others; [None] when
    the table has no handler for the event with such a payload.  [now] is
    the clock that [txTime] reads. *)
Definition on_event (now : Z) (event : string) (p : payload) (st : state)
  : option (outcome state) :=
  match registered event, p with
  | Some H_txTime, PInt _ => Some (txTime now st)
  | Some H_rxTime, PInt t => Some (rxTime set_serverTime t st)
  | Some H_txStatus, PInt _ => Some (txStatus lhc_Status Marshal_status st)
  | Some H_txPeers, PInt _ => Some (txPeers ListPeers Marshal_peer st)
  | Some H_rxStatus, PText m =>
      Some (rxStatus set_status Unmarshal_status m st)
  | Some H_rxHeader, PText m => Some (rxHeader hc_Insert lhc_Insert m st)
  | Some H_rxPeer, PText m => Some (rxPeer AddPeer Unmarshal_peer m st)
  | _, _ => None
  end.

Definition timer_of (c : timer_case) (h : wsHandler StatusResponse) : Timer :=
  match c with
  | WatchdogC => watchdog h
  | TimeTickleC => timeTickle h
  | StatusTickleC => statusTickle h
  | PeersTickleC => peersTickle h
  end.

Definition set_timer (c : timer_case) (h : wsHandler StatusResponse)
                     (t : Timer) : wsHandler StatusResponse :=
  match c with
  | WatchdogC => set_watchdog h t
  | TimeTickleC => set_timeTickle h t
  | StatusTickleC => set_statusTickle h t
  | PeersTickleC => set_peersTickle h t
  end.

(** The runtime fires the timer of case [c], which has to be running. *)
Definition fire_timer (c : timer_case) (st : state) : option state :=
  match armed (timer_of c (fst st)) with
  | Some _ => Some (set_timer c (fst st) (fire (timer_of c (fst st))), snd st)
  | None => None
  end.

(** What can happen to a handler: an event arrives on the connection, a
    timer fires, the event loop takes the tick of a timer, or the program
    calls a method of the interface. *)
Inductive call :=
| Event (now : Z) (event : string) (p : payload)
| Fire (c : timer_case)
| Tick (c : timer_case)
| CallTxHeader (ser : option (list byte))
| CallRequestStatus
| CallAdoptRemote (rhc : option nat)
| CallOnDisconnect (f : option nat)
| CallDisconnect.

Definition run (c : call) (st : state) : option (outcome state) :=
  match c with
  | Event now event p => on_event now event p st
  | Fire c =>
      match fire_timer c st with
      | Some st' => Some (Done st')
      | None => None
      end
  | Tick c => eventLoop c st
  | CallTxHeader ser => Some (TxHeader ser st)
  | CallRequestStatus => Some (RequestStatus st)
  | CallAdoptRemote rhc => Some (AdoptRemote rhc st)
  | CallOnDisconnect f => Some (OnDisconnect f st)
  | CallDisconnect => Some (Disconnect st)
  end.

(** [n] periods of the timer of case [c]: each time the timer fires and
    the event loop takes its tick; [None] when the timer is not running or
    the loop does not come back to its [select]. *)
Fixpoint rounds (n : nat) (c : timer_case) (st : state) : option state :=
  match n with
  | O => Some st
  | Datatypes.S n' =>
      match fire_timer c st with
      | None => None
      | Some st1 =>
          match eventLoop c st1 with
          | Some (Done st2) => rounds n' c st2
          | _ => None
          end
      end
  end.

(** What a call may do to the handler and the world: it leaves the timers
    tidy, it leaves the registry alone, and every event it emits is one
    the table of the peer has a handler for. *)
Definition keeps_tidy (st st' : state) : Prop :=
  tidy_all (fst st) -> tidy_all (fst st').

Definition keeps_registry (st st' : state) : Prop :=
  wsHandlerList (snd st') = wsHandlerList (snd st).

Definition emits_handled (st st' : state) : Prop :=
  exists new,
    trace (snd st') = trace (snd st) ++ new /\
    forall event p, In (Emit event p) new ->
                    forall now s, on_event now event p s <> None.

Definition well_behaved (st st' : state) : Prop :=
  keeps_tidy st st' /\ keeps_registry st st' /\ emits_handled st st'.

End System.

Arguments tidy_all {StatusResponse}.
Arguments timer_of {StatusResponse}.
Arguments set_timer {StatusResponse}.
Arguments fire_timer {LocalHeaderCache HeaderCache StatusResponse}.
Arguments rounds {LocalHeaderCache HeaderCache StatusResponse}.
Arguments on_event {LocalHeaderCache HeaderCache StatusResponse
                    PeerItemResponse}.
Arguments run {LocalHeaderCache HeaderCache StatusResponse PeerItemResponse}.
Arguments keeps_tidy {LocalHeaderCache HeaderCache StatusResponse}.
Arguments keeps_registry {LocalHeaderCache HeaderCache StatusResponse}.
Arguments emits_handled {LocalHeaderCache HeaderCache StatusResponse
                         PeerItemResponse}.
Arguments well_behaved {LocalHeaderCache HeaderCache StatusResponse
                        PeerItemResponse}.

End System.

(** ** Sample caches and handlers *)

Module Examples3.

Import GoLib Header WS WSExt System.
Local Open Scope N_scope.

(** A peer cache with the two fields the handlers assign, and a local
    cache with its list of peers.  A status and a peer are kept as their
    JSON text, so marshalling is the identity and unmarshalling fails on
    the empty text only. *)
Record PeerCache := mkPeer {
  headers : CacheModel.Cache;
  serverTime : N;
  status : list byte
}.

Record LocalCache := mkLocal {
  local_headers : CacheModel.Cache;
  peers : list (list byte)
}.

Definition peer_Insert (c : PeerCache) (h : RawMessageHeader)
  : PeerCache * (bool * option error) :=
  let (c', r) := CacheModel.Insert (headers c) h in
  (mkPeer c' (serverTime c) (status c), r).

Definition local_Insert (c : LocalCache) (h : RawMessageHeader)
  : LocalCache * (bool * option error) :=
  let (c', r) := CacheModel.Insert (local_headers c) h in
  (mkLocal c' (peers c), r).

Definition set_serverTime (c : PeerCache) (t : N) : PeerCache :=
  mkPeer (headers c) t (status c).
Definition set_status (c : PeerCache) (s : list byte) : PeerCache :=
  mkPeer (headers c) (serverTime c) s.
Definition local_Status (c : LocalCache) : list byte := str "{}".
Definition AddPeer (c : LocalCache) (p : list byte) : LocalCache :=
  mkLocal (local_headers c) (peers c ++ [p]).
Definition Marshal (v : list byte) : option (list byte) := Some v.
Definition Unmarshal (m : list byte) : option (list byte) :=
  match m with
  | [] => None
  | _ => Some m
  end.

(** A world in which the handlers 4 and 5 are registered and the local
    cache knows two peers. *)
Definition world3 : World LocalCache PeerCache :=
  mkWorld (mkLocal (CacheModel.empty 1482500000)
                   [str "{a:1}"; str "{b:2}"])
          (fun _ => mkPeer (CacheModel.empty 1482500000) 0 [])
          [4%nat; 5%nat] [].

(** A fresh handler at address 6 for the peer cache 0, and one without a
    peer cache; each has sent the two peers. *)
Definition outbound3 : St LocalCache PeerCache (list byte) :=
  state_of (NewWSProtocolHandler (list byte) peers Marshal
                                 6 (Some 0%nat) world3).
Definition inbound3 : St LocalCache PeerCache (list byte) :=
  state_of (NewWSProtocolHandler (list byte) peers Marshal 6 None world3).

(** The outbound handler after its watchdog has fired, and after the
    program has disconnected it. *)
Definition watchdog_due3 : St LocalCache PeerCache (list byte) :=
  (set_watchdog (fst outbound3) (fire (watchdog (fst outbound3))),
   snd outbound3).
Definition torn_down3 : St LocalCache PeerCache (list byte) :=
  (mkHandler 6%nat (Some 0%nat) None None
             (mkTimer None false) (mkTimer None false) (mkTimer None false)
             (NewTimer DefaultPeersTickle) false false,
   set_wsHandlerList (snd outbound3) [4%nat; 5%nat]).

(** The outbound handler 300 seconds later, when [peersTickle] has
    fired. *)
Definition peers_due3 : St LocalCache PeerCache (list byte) :=
  (set_peersTickle (fst outbound3) (fire (peersTickle (fst outbound3))),
   snd outbound3).

(** The handler at address 4, made before 5 and 6 were, and what
    [Disconnect] leaves of it and of the world. *)
Definition oldest3 : St LocalCache PeerCache (list byte) :=
  (fst (state_of (NewWSProtocolHandler (list byte) peers Marshal
                                       4 None world3)),
   set_wsHandlerList world3 [4%nat; 5%nat; 6%nat]).
Definition oldest3_gone : St LocalCache PeerCache (list byte) :=
  (mkHandler 4%nat None None None
             (mkTimer None false) (mkTimer None false) (mkTimer None false)
             (NewTimer DefaultPeersTickle) false true,
   set_wsHandlerList world3 [6%nat; 5%nat]).

End Examples3.

(** * Facts about the library functions *)

Module GoLibFacts.

Import GoLib Format.
Local Open Scope N_scope.

Lemma to_N_lt (b : byte) : to_N b < 256.
Proof. pose proof (Byte.to_N_bounded b). lia. Qed.

Lemma to_N_byte_of_N (n : N) : to_N (byte_of_N n) = n mod 256.
Proof.
  unfold byte_of_N. destruct (Byte.of_N (n mod 256)) eqn:E.
  - now apply Byte.to_of_N.
  - apply Byte.of_N_None_iff in E.
    assert (n mod 256 < 256) by (apply N.mod_lt; discriminate). lia.
Qed.

Lemma byte_of_N_to_N (b : byte) : byte_of_N (to_N b) = b.
Proof.
  unfold byte_of_N. rewrite N.mod_small by apply to_N_lt.
  now rewrite Byte.of_to_N.
Qed.

Lemma to_N_inj (a b : byte) : to_N a = to_N b -> a = b.
Proof.
  intro H. rewrite <- (byte_of_N_to_N a), <- (byte_of_N_to_N b). now rewrite H.
Qed.

Lemma byte_eqb_refl (b : byte) : Byte.eqb b b = true.
Proof. now apply Byte.byte_dec_lb. Qed.

Lemma byte_eqb_neq (a b : byte) : a <> b -> Byte.eqb a b = false.
Proof.
  intro H. destruct (Byte.eqb a b) eqn:E; [|reflexivity].
  apply Byte.byte_dec_bl in E. contradiction.
Qed.

Lemma bytes_eqb_eq (a b : list byte) : bytes_eqb a b = true <-> a = b.
Proof.
  revert b. induction a as [|x a IH]; intros [|y b]; simpl; split;
    try reflexivity; try discriminate.
  - intro H. apply andb_true_iff in H as [H1 H2].
    apply Byte.byte_dec_bl in H1. apply IH in H2. now subst.
  - intro H. inversion H; subst. rewrite byte_eqb_refl. simpl. now apply IH.
Qed.

Lemma bytes_eqb_refl (a : list byte) : bytes_eqb a a = true.
Proof. now apply bytes_eqb_eq. Qed.

Lemma bytes_eqb_neq (a b : list byte) : a <> b -> bytes_eqb a b = false.
Proof.
  intro H. destruct (bytes_eqb a b) eqn:E; [|reflexivity].
  apply bytes_eqb_eq in E. contradiction.
Qed.

(** Bitwise or of two numbers with no common bit is their sum. *)
Lemma lor_disjoint_add (k a b : N) :
  a mod 2 ^ k = 0 -> b < 2 ^ k -> N.lor a b = a + b.
Proof.
  intros Ha Hb.
  assert (Hl : N.land a b = 0).
  { apply N.bits_inj. intro m. rewrite N.land_spec, N.bits_0.
    destruct (N.lt_ge_cases m k) as [Hm | Hm].
    - rewrite (N.div_mod a (2 ^ k)) by (apply N.pow_nonzero; discriminate).
      rewrite Ha, N.add_0_r, N.mul_comm, N.mul_pow2_bits_low by assumption.
      reflexivity.
    - rewrite <- (N.mod_small b (2 ^ k)) by assumption.
      rewrite N.mod_pow2_bits_high by assumption. apply andb_false_r. }
  rewrite <- N.lxor_lor by assumption. symmetry.
  now apply N.add_nocarry_lxor.
Qed.

(** *** Slices *)

Lemma length_make (n : nat) : length (make n) = n.
Proof. apply repeat_length. Qed.

Lemma copy_full (dst src : list byte) :
  length dst = length src -> copy dst src = src.
Proof.
  intro H. unfold copy. rewrite H, firstn_all. rewrite <- H, skipn_all.
  apply app_nil_r.
Qed.

Lemma length_slice (a b : nat) (l : list byte) :
  (a <= b)%nat -> (b <= length l)%nat -> length (slice a b l) = (b - a)%nat.
Proof.
  intros. unfold slice. rewrite length_firstn, length_skipn. lia.
Qed.

Lemma slice_app (a b c : nat) (l : list byte) :
  (a <= b)%nat -> (b <= c)%nat ->
  slice a b l ++ slice b c l = slice a c l.
Proof.
  intros Hab Hbc. unfold slice.
  replace (c - a)%nat with ((b - a) + (c - b))%nat by lia.
  rewrite <- (firstn_skipn (b - a) (firstn (b - a + (c - b)) (skipn a l))).
  rewrite firstn_firstn, Nat.min_l by lia. f_equal.
  rewrite skipn_firstn_comm, skipn_skipn. f_equal; [lia|]. f_equal. lia.
Qed.

Lemma slice_all (l : list byte) : slice 0 (length l) l = l.
Proof. unfold slice. rewrite Nat.sub_0_r. simpl. apply firstn_all. Qed.

Lemma slice_mid (p f q : list byte) (a b : nat) :
  length p = a -> length f = (b - a)%nat ->
  slice a b (p ++ f ++ q) = f.
Proof.
  intros Hp Hf. unfold slice. rewrite skipn_app, Hp, Nat.sub_diag.
  rewrite <- Hp, skipn_all. simpl. rewrite Hp, <- Hf.
  rewrite firstn_app, Nat.sub_diag, firstn_all. simpl. apply app_nil_r.
Qed.

(** *** encoding/hex *)

Lemma hex_byte_b (v : byte) :
  match fromHexChar (nth (N.to_nat (N.shiftr (to_N v) 4)) hextable x00),
        fromHexChar (nth (N.to_nat (N.land (to_N v) 15)) hextable x00) with
  | Some a, Some b => Byte.eqb (byte_of_N (N.lor (N.shiftl a 4) b)) v
  | _, _ => false
  end = true.
Proof. destruct v; vm_compute; reflexivity. Qed.

Lemma hex_byte (v : byte) :
  exists a b,
    fromHexChar (nth (N.to_nat (N.shiftr (to_N v) 4)) hextable x00) = Some a /\
    fromHexChar (nth (N.to_nat (N.land (to_N v) 15)) hextable x00) = Some b /\
    byte_of_N (N.lor (N.shiftl a 4) b) = v.
Proof.
  pose proof (hex_byte_b v) as H.
  destruct (fromHexChar (nth (N.to_nat (N.shiftr (to_N v) 4)) hextable x00))
    as [a|]; [|discriminate].
  destruct (fromHexChar (nth (N.to_nat (N.land (to_N v) 15)) hextable x00))
    as [b|]; [|discriminate].
  exists a, b. repeat split. now apply Byte.byte_dec_bl.
Qed.

Lemma hex_byte_lower (v : byte) :
  is_lowerhex (nth (N.to_nat (N.shiftr (to_N v) 4)) hextable x00) = true /\
  is_lowerhex (nth (N.to_nat (N.land (to_N v) 15)) hextable x00) = true.
Proof. destruct v; vm_compute; split; reflexivity. Qed.

Lemma hex_Decode_EncodeToString (b : list byte) :
  hex_Decode (EncodeToString b) = Some b.
Proof.
  induction b as [|v b IH]; [reflexivity|].
  cbn [EncodeToString hex_Decode].
  destruct (hex_byte v) as (x & y & -> & -> & E). rewrite IH, E. reflexivity.
Qed.

Lemma lowerhex_char (c : byte) :
  is_lowerhex c = true ->
  exists v, v < 16 /\ fromHexChar c = Some v /\
            nth (N.to_nat v) hextable x00 = c.
Proof.
  intro H. destruct c; try discriminate H;
    vm_compute; eexists; repeat split; reflexivity.
Qed.

Lemma nibbles (a b : N) :
  a < 16 -> b < 16 ->
  let v := to_N (byte_of_N (N.lor (N.shiftl a 4) b)) in
  N.shiftr v 4 = a /\ N.land v 15 = b.
Proof.
  intros Ha Hb v. subst v.
  rewrite to_N_byte_of_N, N.shiftl_mul_pow2, (lor_disjoint_add 4),
    N.shiftr_div_pow2 by (change (2 ^ 4) with 16; lia).
  change 15 with (N.ones 4). rewrite N.land_ones.
  change (2 ^ 4) with 16. lia.
Qed.

Lemma lowerhex_pair (c1 c2 : byte) :
  is_lowerhex c1 = true -> is_lowerhex c2 = true ->
  exists a b, fromHexChar c1 = Some a /\ fromHexChar c2 = Some b /\
    EncodeToString [byte_of_N (N.lor (N.shiftl a 4) b)] = [c1; c2].
Proof.
  intros H1 H2.
  destruct (lowerhex_char c1 H1) as (a & Ha & Fa & Na).
  destruct (lowerhex_char c2 H2) as (b & Hb & Fb & Nb).
  exists a, b. repeat split; try assumption.
  cbn [EncodeToString]. destruct (nibbles a b Ha Hb) as [-> ->].
  now rewrite Na, Nb.
Qed.

Lemma EncodeToString_app (a b : list byte) :
  EncodeToString (a ++ b) = EncodeToString a ++ EncodeToString b.
Proof.
  induction a as [|v a IH]; [reflexivity|].
  cbn [EncodeToString app]. now rewrite IH.
Qed.

Lemma length_EncodeToString (b : list byte) :
  length (EncodeToString b) = (2 * length b)%nat.
Proof.
  induction b as [|v b IH]; [reflexivity|].
  cbn [EncodeToString length]. rewrite IH. lia.
Qed.

Lemma lowerhex_EncodeToString (b : list byte) :
  Forall (fun c => is_lowerhex c = true) (EncodeToString b).
Proof.
  induction b as [|v b IH]; [constructor|].
  cbn [EncodeToString]. destruct (hex_byte_lower v). now repeat constructor.
Qed.

(** Lower-case hex text of even length decodes, and the bytes encode to
    the same text. *)
Lemma hex_Decode_lowerhex (n : nat) (s : list byte) :
  length s = (2 * n)%nat -> Forall (fun c => is_lowerhex c = true) s ->
  exists b, hex_Decode s = Some b /\ EncodeToString b = s /\ length b = n.
Proof.
  revert s. induction n as [|n IH]; intros s Hl Hs.
  - destruct s; [|discriminate]. exists []. now repeat split.
  - destruct s as [|c1 [|c2 s]]; simpl in Hl; try lia.
    apply Forall_cons_iff in Hs as [H1 Hs]. apply Forall_cons_iff in Hs as [H2 Hs].
    destruct (IH s) as (b & Hd & He & Hb); [lia | assumption |].
    destruct (lowerhex_pair c1 c2 H1 H2) as (x & y & Fx & Fy & E).
    exists (byte_of_N (N.lor (N.shiftl x 4) y) :: b).
    cbn [hex_Decode]. rewrite Fx, Fy, Hd. repeat split.
    + change (EncodeToString ([byte_of_N (N.lor (N.shiftl x 4) y)] ++ b) = [c1; c2] ++ s).
      now rewrite EncodeToString_app, E, He.
    + simpl. now rewrite Hb.
Qed.

Lemma DecodeString_EncodeToString (b : list byte) :
  DecodeString (EncodeToString b) = (b, None).
Proof.
  unfold DecodeString. rewrite length_EncodeToString.
  rewrite Nat.odd_mul. simpl. now rewrite hex_Decode_EncodeToString.
Qed.

Lemma DecodeString_lowerhex (n : nat) (s : list byte) :
  length s = (2 * n)%nat -> Forall (fun c => is_lowerhex c = true) s ->
  exists b, DecodeString s = (b, None) /\ EncodeToString b = s /\ length b = n.
Proof.
  intros Hl Hs. destruct (hex_Decode_lowerhex n s Hl Hs) as (b & Hd & He & Hb).
  exists b. unfold DecodeString. rewrite Hl, Nat.odd_mul. simpl.
  now rewrite Hd.
Qed.

(** *** strings.Split *)

Lemma Split_nonempty (s : list byte) (sep : byte) : Split s sep <> [].
Proof.
  destruct s as [|c s]; simpl; [discriminate|].
  destruct (Byte.eqb c sep); [discriminate|].
  destruct (Split s sep); discriminate.
Qed.

Lemma Split_no_sep (a : list byte) (sep : byte) :
  ~ In sep a -> Split a sep = [a].
Proof.
  induction a as [|c a IH]; intro H; [reflexivity|].
  simpl. rewrite byte_eqb_neq by (intro E; apply H; left; congruence).
  rewrite IH by (intro E; apply H; now right). reflexivity.
Qed.

Lemma Split_app_sep (a rest : list byte) (sep : byte) :
  ~ In sep a -> Split (a ++ sep :: rest) sep = a :: Split rest sep.
Proof.
  induction a as [|c a IH]; intro H.
  - simpl. now rewrite byte_eqb_refl.
  - simpl. rewrite byte_eqb_neq by (intro E; apply H; left; congruence).
    rewrite IH by (intro E; apply H; now right). reflexivity.
Qed.

Lemma length_Split (s : list byte) (sep : byte) :
  length (Split s sep) = Datatypes.S (count_occ Byte.byte_eq_dec s sep).
Proof.
  induction s as [|c s IH]; [reflexivity|].
  simpl. destruct (Byte.byte_eq_dec c sep) as [E|E].
  - subst. rewrite byte_eqb_refl. simpl. now rewrite IH.
  - rewrite byte_eqb_neq by assumption.
    destruct (Split s sep) eqn:Es; [now apply Split_nonempty in Es|].
    simpl in *. assumption.
Qed.

Lemma lowerhex_no_colon (s : list byte) :
  Forall (fun c => is_lowerhex c = true) s -> ~ In ":"%byte s.
Proof.
  intros H Hin. rewrite Forall_forall in H. apply H in Hin. discriminate.
Qed.

Lemma upperhex_no_colon (s : list byte) :
  Forall (fun c => is_upperhex c = true) s -> ~ In ":"%byte s.
Proof.
  intros H Hin. rewrite Forall_forall in H. apply H in Hin. discriminate.
Qed.

(** *** strconv.ParseUint and the verb %08X *)

Lemma upperhex_char (c : byte) :
  is_upperhex c = true ->
  exists v, v < 16 /\ digit_val c = Some v /\
            nth (N.to_nat v) upperhex x00 = c.
Proof.
  intro H. destruct c; try discriminate H;
    vm_compute; eexists; repeat split; reflexivity.
Qed.

Lemma upperhex_digit (v : N) :
  v < 16 ->
  is_upperhex (nth (N.to_nat v) upperhex x00) = true /\
  digit_val (nth (N.to_nat v) upperhex x00) = Some v.
Proof.
  intro H.
  assert (E : (N.to_nat v = 0 \/ N.to_nat v = 1 \/ N.to_nat v = 2 \/
              N.to_nat v = 3 \/ N.to_nat v = 4 \/ N.to_nat v = 5 \/
              N.to_nat v = 6 \/ N.to_nat v = 7 \/ N.to_nat v = 8 \/
              N.to_nat v = 9 \/ N.to_nat v = 10 \/ N.to_nat v = 11 \/
              N.to_nat v = 12 \/ N.to_nat v = 13 \/ N.to_nat v = 14 \/
              N.to_nat v = 15)%nat) by lia.
  rewrite <- (N2Nat.id v).
  repeat (destruct E as [E|E]; [rewrite E; vm_compute; now split|]).
  rewrite E; vm_compute; now split.
Qed.

Lemma ParseUint_loop_app (base cutoff maxVal : N) (a b : list byte) (n : N) :
  ParseUint_loop base cutoff maxVal (a ++ b) n =
  match ParseUint_loop base cutoff maxVal a n with
  | (n', None) => ParseUint_loop base cutoff maxVal b n'
  | r => r
  end.
Proof.
  revert n. induction a as [|d a IH]; intro n; [reflexivity|].
  cbn [app ParseUint_loop]. destruct (digit_val d) as [v|]; [|reflexivity].
  destruct (base <=? v); [reflexivity|].
  destruct (cutoff <=? n); [reflexivity|].
  cbv zeta. destruct (_ || _); [reflexivity|]. apply IH.
Qed.

Lemma ParseUint_loop_digit (c : byte) (d n : N) :
  digit_val c = Some d -> d < 16 -> n * 16 + d < 2 ^ 32 ->
  ParseUint_loop 16 (maxUint64 / 16 + 1) (2 ^ 32 - 1) [c] n
  = (n * 16 + d, None).
Proof.
  intros Hc Hd Hn. cbn [ParseUint_loop]. rewrite Hc.
  change (maxUint64 / 16 + 1) with 1152921504606846976.
  change (2 ^ 32) with 4294967296 in *. unfold uint64.
  change (2 ^ 64) with 18446744073709551616.
  rewrite (proj2 (N.leb_gt 16 d)) by assumption.
  rewrite (proj2 (N.leb_gt _ n)) by lia.
  rewrite (N.mod_small (n * 16)) by lia.
  rewrite (N.mod_small (n * 16 + d)) by lia.
  rewrite (proj2 (N.ltb_ge _ _)) by lia.
  rewrite (proj2 (N.ltb_ge _ _)) by lia. reflexivity.
Qed.

Lemma length_hex_digits_upper (k : nat) (v : N) :
  length (hex_digits_upper k v) = k.
Proof.
  revert v. induction k as [|k IH]; intro v; [reflexivity|].
  cbn [hex_digits_upper]. rewrite length_app, IH. simpl. lia.
Qed.

Lemma upperhex_hex_digits_upper (k : nat) (v : N) :
  Forall (fun c => is_upperhex c = true) (hex_digits_upper k v).
Proof.
  revert v. induction k as [|k IH]; intro v; [constructor|].
  cbn [hex_digits_upper]. apply Forall_app. split; [apply IH|].
  constructor; [|constructor]. apply upperhex_digit.
  apply N.mod_lt. discriminate.
Qed.

Lemma pow16_succ (k : nat) :
  16 ^ N.of_nat (Datatypes.S k) = 16 * 16 ^ N.of_nat k.
Proof. rewrite Nat2N.inj_succ. apply N.pow_succ_r'. Qed.

Lemma ParseUint_loop_hex_digits (k : nat) (v : N) :
  v < 16 ^ N.of_nat k -> 16 ^ N.of_nat k <= 2 ^ 32 ->
  ParseUint_loop 16 (maxUint64 / 16 + 1) (2 ^ 32 - 1) (hex_digits_upper k v) 0
  = (v, None).
Proof.
  revert v. induction k as [|k IH]; intros v Hv Hk.
  - simpl in Hv. assert (v = 0) by lia. now subst.
  - rewrite pow16_succ in Hv, Hk.
    cbn [hex_digits_upper]. rewrite ParseUint_loop_app, IH by lia.
    rewrite (ParseUint_loop_digit _ (v mod 16)).
    + f_equal. lia.
    + apply upperhex_digit. apply N.mod_lt. discriminate.
    + apply N.mod_lt. discriminate.
    + lia.
Qed.

Lemma ParseUint_loop_upperhex (t : list byte) :
  Forall (fun c => is_upperhex c = true) t ->
  16 ^ N.of_nat (length t) <= 2 ^ 32 ->
  exists v, v < 16 ^ N.of_nat (length t) /\
    ParseUint_loop 16 (maxUint64 / 16 + 1) (2 ^ 32 - 1) t 0 = (v, None) /\
    hex_digits_upper (length t) v = t.
Proof.
  induction t as [|c t IH] using rev_ind; intros Ht Hk.
  - exists 0. now repeat split.
  - apply Forall_app in Ht as [Ht Hc]. apply Forall_cons_iff in Hc as [Hc _].
    rewrite length_app, Nat.add_1_r in *. rewrite pow16_succ in *.
    destruct IH as (v & Hv & Hl & Hd); [assumption | lia |].
    destruct (upperhex_char c Hc) as (d & Hd16 & Hdv & Hnth).
    exists (v * 16 + d). split; [lia|]. split.
    + rewrite ParseUint_loop_app, Hl. apply ParseUint_loop_digit; try assumption.
      lia.
    + cbn [hex_digits_upper].
      replace ((v * 16 + d) / 16) with v by lia.
      replace ((v * 16 + d) mod 16) with d by lia.
      now rewrite Hd, Hnth.
Qed.

Lemma ParseUint_fmt_08X (v : N) :
  v < 2 ^ 32 -> ParseUint (fmt_08X v) 16 32 = (v, None).
Proof.
  intro Hv. unfold ParseUint, fmt_08X.
  destruct (hex_digits_upper 8 v) eqn:E.
  - apply (f_equal (@length byte)) in E.
    rewrite length_hex_digits_upper in E. discriminate.
  - rewrite <- E. apply ParseUint_loop_hex_digits; [exact Hv | reflexivity].
Qed.

Lemma fmt_08X_ParseUint (t : list byte) :
  length t = 8%nat -> Forall (fun c => is_upperhex c = true) t ->
  exists v, v < 2 ^ 32 /\ ParseUint t 16 32 = (v, None) /\ fmt_08X v = t.
Proof.
  intros Hl Ht.
  destruct (ParseUint_loop_upperhex t Ht) as (v & Hv & Hp & Hd).
  { rewrite Hl. apply N.le_refl. }
  rewrite Hl in Hv, Hd. exists v. repeat split; try assumption.
  unfold ParseUint. destruct t; [discriminate|]. exact Hp.
Qed.

(** *** encoding/binary *)

Lemma Uint32_arith (b0 b1 b2 b3 : byte) :
  Uint32 [b0; b1; b2; b3]
  = to_N b0 * 16777216 + to_N b1 * 65536 + to_N b2 * 256 + to_N b3.
Proof.
  pose proof (to_N_lt b0). pose proof (to_N_lt b1).
  pose proof (to_N_lt b2). pose proof (to_N_lt b3).
  unfold Uint32. cbn [nth]. rewrite !N.shiftl_mul_pow2.
  change (2 ^ 8) with 256. change (2 ^ 16) with 65536.
  change (2 ^ 24) with 16777216.
  rewrite (N.lor_comm (to_N b3)), (lor_disjoint_add 8 (to_N b2 * 256))
    by (change (2 ^ 8) with 256; lia).
  rewrite (N.lor_comm _ (to_N b1 * 65536)), (lor_disjoint_add 16 (to_N b1 * 65536))
    by (change (2 ^ 16) with 65536; lia).
  rewrite (N.lor_comm _ (to_N b0 * 16777216)), (lor_disjoint_add 24 (to_N b0 * 16777216))
    by (change (2 ^ 24) with 16777216; lia).
  lia.
Qed.

Lemma Uint32_lt (b : list byte) : length b = 4%nat -> Uint32 b < 2 ^ 32.
Proof.
  intro H. destruct b as [|b0 [|b1 [|b2 [|b3 [|]]]]]; try discriminate.
  rewrite Uint32_arith.
  pose proof (to_N_lt b0). pose proof (to_N_lt b1).
  pose proof (to_N_lt b2). pose proof (to_N_lt b3).
  change (2 ^ 32) with 4294967296. lia.
Qed.

Lemma PutUint32_Uint32 (b : list byte) :
  length b = 4%nat -> PutUint32 (Uint32 b) = b.
Proof.
  intro H. destruct b as [|b0 [|b1 [|b2 [|b3 [|]]]]]; try discriminate.
  rewrite Uint32_arith.
  pose proof (to_N_lt b0). pose proof (to_N_lt b1).
  pose proof (to_N_lt b2). pose proof (to_N_lt b3).
  unfold PutUint32. rewrite !N.shiftr_div_pow2.
  change (2 ^ 8) with 256. change (2 ^ 16) with 65536.
  change (2 ^ 24) with 16777216.
  repeat f_equal; apply to_N_inj; rewrite to_N_byte_of_N; lia.
Qed.

Lemma length_PutUint32 (v : N) : length (PutUint32 v) = 4%nat.
Proof. reflexivity. Qed.

Lemma Uint32_PutUint32_mod (v : N) : Uint32 (PutUint32 v) = v mod 2 ^ 32.
Proof.
  unfold PutUint32. rewrite Uint32_arith, !to_N_byte_of_N.
  rewrite !N.shiftr_div_pow2.
  change (2 ^ 8) with 256. change (2 ^ 16) with 65536.
  change (2 ^ 24) with 16777216. change (2 ^ 32) with 4294967296. lia.
Qed.

Lemma Uint32_PutUint32 (v : N) : v < 2 ^ 32 -> Uint32 (PutUint32 v) = v.
Proof. intro H. rewrite Uint32_PutUint32_mod. now apply N.mod_small. Qed.

Lemma PutUint32_high (h l : N) :
  PutUint32 (h * 4294967296 + l) = PutUint32 l.
Proof.
  unfold PutUint32. rewrite !N.shiftr_div_pow2.
  change (2 ^ 8) with 256. change (2 ^ 16) with 65536.
  change (2 ^ 24) with 16777216.
  repeat (apply (f_equal2 cons);
          [apply to_N_inj; rewrite !to_N_byte_of_N; lia|]).
  reflexivity.
Qed.

Lemma Uint64_split (b : list byte) :
  length b = 8%nat ->
  Uint64 b = Uint32 (firstn 4 b) * 4294967296 + Uint32 (skipn 4 b).
Proof.
  intro H.
  destruct b as [|b0 [|b1 [|b2 [|b3 [|b4 [|b5 [|b6 [|b7 [|]]]]]]]]];
    try discriminate.
  cbn [firstn skipn]. rewrite !Uint32_arith.
  pose proof (to_N_lt b0). pose proof (to_N_lt b1).
  pose proof (to_N_lt b2). pose proof (to_N_lt b3).
  pose proof (to_N_lt b4). pose proof (to_N_lt b5).
  pose proof (to_N_lt b6). pose proof (to_N_lt b7).
  unfold Uint64. cbn [nth]. rewrite !N.shiftl_mul_pow2.
  change (2 ^ 8) with 256. change (2 ^ 16) with 65536.
  change (2 ^ 24) with 16777216. change (2 ^ 32) with 4294967296.
  change (2 ^ 40) with 1099511627776. change (2 ^ 48) with 281474976710656.
  change (2 ^ 56) with 72057594037927936.
  rewrite (N.lor_comm (to_N b7)), (lor_disjoint_add 8 (to_N b6 * 256))
    by (change (2 ^ 8) with 256; lia).
  rewrite (N.lor_comm _ (to_N b5 * 65536)), (lor_disjoint_add 16 (to_N b5 * 65536))
    by (change (2 ^ 16) with 65536; lia).
  rewrite (N.lor_comm _ (to_N b4 * 16777216)), (lor_disjoint_add 24 (to_N b4 * 16777216))
    by (change (2 ^ 24) with 16777216; lia).
  rewrite (N.lor_comm _ (to_N b3 * 4294967296)), (lor_disjoint_add 32 (to_N b3 * 4294967296))
    by (change (2 ^ 32) with 4294967296; lia).
  rewrite (N.lor_comm _ (to_N b2 * 1099511627776)), (lor_disjoint_add 40 (to_N b2 * 1099511627776))
    by (change (2 ^ 40) with 1099511627776; lia).
  rewrite (N.lor_comm _ (to_N b1 * 281474976710656)), (lor_disjoint_add 48 (to_N b1 * 281474976710656))
    by (change (2 ^ 48) with 281474976710656; lia).
  rewrite (N.lor_comm _ (to_N b0 * 72057594037927936)), (lor_disjoint_add 56 (to_N b0 * 72057594037927936))
    by (change (2 ^ 56) with 72057594037927936; lia).
  lia.
Qed.

Lemma PutUint64_split (v : N) :
  PutUint64 v = PutUint32 (v / 4294967296) ++ PutUint32 v.
Proof.
  unfold PutUint64, PutUint32. cbn [app]. rewrite !N.shiftr_div_pow2.
  rewrite !N.Div0.div_div.
  reflexivity.
Qed.

Lemma length_PutUint64 (v : N) : length (PutUint64 v) = 8%nat.
Proof. reflexivity. Qed.

Lemma Uint64_PutUint64 (v : N) : v < 2 ^ 64 -> Uint64 (PutUint64 v) = v.
Proof.
  intro H. rewrite Uint64_split by reflexivity. rewrite PutUint64_split.
  rewrite firstn_app, skipn_app, length_PutUint32.
  change (firstn (4 - 4) (PutUint32 v)) with (@nil byte).
  change (skipn (4 - 4) (PutUint32 v)) with (PutUint32 v).
  rewrite firstn_all2, skipn_all2 by (rewrite length_PutUint32; lia).
  rewrite app_nil_r. cbn [app]. rewrite !Uint32_PutUint32_mod.
  change (2 ^ 32) with 4294967296. change (2 ^ 64) with 18446744073709551616 in H.
  lia.
Qed.

Lemma PutUint64_Uint64 (b : list byte) :
  length b = 8%nat -> PutUint64 (Uint64 b) = b.
Proof.
  intro H. rewrite Uint64_split by assumption. rewrite PutUint64_split.
  assert (H1 : length (firstn 4 b) = 4%nat) by (rewrite length_firstn; lia).
  assert (H2 : length (skipn 4 b) = 4%nat) by (rewrite length_skipn; lia).
  pose proof (Uint32_lt _ H1) as L1. pose proof (Uint32_lt _ H2) as L2.
  change (2 ^ 32) with 4294967296 in *.
  rewrite PutUint32_high.
  replace ((Uint32 (firstn 4 b) * 4294967296 + Uint32 (skipn 4 b)) / 4294967296)
    with (Uint32 (firstn 4 b)) by lia.
  rewrite !PutUint32_Uint32 by assumption. apply firstn_skipn.
Qed.

Lemma Uint64_lt (b : list byte) : length b = 8%nat -> Uint64 b < 2 ^ 64.
Proof.
  intro H. rewrite Uint64_split by assumption.
  assert (H1 : length (firstn 4 b) = 4%nat) by (rewrite length_firstn; lia).
  assert (H2 : length (skipn 4 b) = 4%nat) by (rewrite length_skipn; lia).
  pose proof (Uint32_lt _ H1) as L1. pose proof (Uint32_lt _ H2) as L2.
  change (2 ^ 32) with 4294967296 in *.
  change (2 ^ 64) with 18446744073709551616. lia.
Qed.

(** *** encoding/base64 *)

Lemma decodeMap_spec_b (c : byte) :
  match decodeMap c with
  | Some v => (v <? 64) && Byte.eqb (encode v) c
  | None => true
  end = true.
Proof. destruct c; vm_compute; reflexivity. Qed.

Lemma decodeMap_spec (c : byte) (v : N) :
  decodeMap c = Some v -> v < 64 /\ encode v = c.
Proof.
  intro H. pose proof (decodeMap_spec_b c) as B. rewrite H in B.
  apply andb_true_iff in B as [B1 B2]. split.
  - now apply N.ltb_lt.
  - now apply Byte.byte_dec_bl.
Qed.

Lemma decodeMap_encode_all :
  forallb (fun n => match decodeMap (encode (N.of_nat n)) with
                    | Some w => w =? N.of_nat n
                    | None => false
                    end) (seq 0 64) = true.
Proof. vm_compute. reflexivity. Qed.

Lemma decodeMap_encode (v : N) : v < 64 -> decodeMap (encode v) = Some v.
Proof.
  intro H. pose proof decodeMap_encode_all as A.
  rewrite forallb_forall in A. specialize (A (N.to_nat v)).
  rewrite N2Nat.id in A.
  destruct (decodeMap (encode v)) as [w|].
  - f_equal. apply N.eqb_eq. apply A. apply in_seq. lia.
  - discriminate A. apply in_seq. lia.
Qed.

Lemma is_b64_encode (v : N) : v < 64 -> is_b64 (encode v) = true.
Proof. intro H. unfold is_b64. now rewrite decodeMap_encode. Qed.

Lemma is_b64_not_newline (c : byte) : is_b64 c = true -> is_newline c = false.
Proof. destruct c; vm_compute; congruence. Qed.

Lemma removeNewlines_b64 (s : list byte) :
  Forall (fun c => is_b64 c = true) s -> removeNewlines s = s.
Proof.
  induction 1 as [|c s Hc Hs IH]; [reflexivity|].
  unfold removeNewlines in *. cbn [filter].
  now rewrite (is_b64_not_newline c Hc), IH.
Qed.

Lemma quantum_arith (v0 v1 v2 v3 : N) :
  v0 < 64 -> v1 < 64 -> v2 < 64 -> v3 < 64 ->
  quantum v0 v1 v2 v3 = v0 * 262144 + v1 * 4096 + v2 * 64 + v3.
Proof.
  intros. unfold quantum. rewrite !N.shiftl_mul_pow2.
  change (2 ^ 18) with 262144. change (2 ^ 12) with 4096.
  change (2 ^ 6) with 64.
  rewrite (lor_disjoint_add 18 (v0 * 262144) (v1 * 4096))
    by (change (2 ^ 18) with 262144; lia).
  rewrite (lor_disjoint_add 12 _ (v2 * 64))
    by (change (2 ^ 12) with 4096; lia).
  rewrite (lor_disjoint_add 6 _ v3) by (change (2 ^ 6) with 64; lia).
  reflexivity.
Qed.

Lemma group_arith (b0 b1 b2 : N) :
  b0 < 256 -> b1 < 256 -> b2 < 256 ->
  N.lor (N.lor (N.shiftl b0 16) (N.shiftl b1 8)) b2
  = b0 * 65536 + b1 * 256 + b2.
Proof.
  intros. rewrite !N.shiftl_mul_pow2.
  change (2 ^ 16) with 65536. change (2 ^ 8) with 256.
  rewrite (lor_disjoint_add 16 (b0 * 65536) (b1 * 256))
    by (change (2 ^ 16) with 65536; lia).
  rewrite (lor_disjoint_add 8 _ b2) by (change (2 ^ 8) with 256; lia).
  reflexivity.
Qed.

Lemma land63 (x : N) : N.land x 63 = x mod 64.
Proof. change 63 with (N.ones 6). now rewrite N.land_ones. Qed.

(** One full quantum: three bytes to four digits and back. *)
Lemma Encode_group (b0 b1 b2 : byte) :
  exists v0 v1 v2 v3,
    v0 < 64 /\ v1 < 64 /\ v2 < 64 /\ v3 < 64 /\
    (forall rest, Encode (b0 :: b1 :: b2 :: rest)
       = encode v0 :: encode v1 :: encode v2 :: encode v3 :: Encode rest) /\
    byte_of_N (N.shiftr (quantum v0 v1 v2 v3) 16) = b0 /\
    byte_of_N (N.shiftr (quantum v0 v1 v2 v3) 8) = b1 /\
    byte_of_N (quantum v0 v1 v2 v3) = b2.
Proof.
  pose proof (to_N_lt b0). pose proof (to_N_lt b1). pose proof (to_N_lt b2).
  set (val := to_N b0 * 65536 + to_N b1 * 256 + to_N b2).
  exists ((val / 262144) mod 64), ((val / 4096) mod 64),
         ((val / 64) mod 64), (val mod 64).
  assert (Q : quantum ((val / 262144) mod 64) ((val / 4096) mod 64)
                      ((val / 64) mod 64) (val mod 64) = val).
  { rewrite quantum_arith by (apply N.mod_lt; discriminate). subst val. lia. }
  repeat split; try (apply N.mod_lt; discriminate).
  - intro rest. cbn [Encode]. rewrite group_arith by assumption.
    fold val. rewrite !land63, !N.shiftr_div_pow2. reflexivity.
  - rewrite Q. apply to_N_inj. rewrite to_N_byte_of_N, N.shiftr_div_pow2.
    change (2 ^ 16) with 65536. subst val. lia.
  - rewrite Q. apply to_N_inj. rewrite to_N_byte_of_N, N.shiftr_div_pow2.
    change (2 ^ 8) with 256. subst val. lia.
  - rewrite Q. apply to_N_inj. rewrite to_N_byte_of_N. subst val. lia.
Qed.

(** Four digits to three bytes and back. *)
Lemma decode_group (v0 v1 v2 v3 : N) (rest : list byte) :
  v0 < 64 -> v1 < 64 -> v2 < 64 -> v3 < 64 ->
  Encode (byte_of_N (N.shiftr (quantum v0 v1 v2 v3) 16)
          :: byte_of_N (N.shiftr (quantum v0 v1 v2 v3) 8)
          :: byte_of_N (quantum v0 v1 v2 v3) :: rest)
  = encode v0 :: encode v1 :: encode v2 :: encode v3 :: Encode rest.
Proof.
  intros. cbn [Encode]. rewrite !to_N_byte_of_N.
  rewrite group_arith by (apply N.mod_lt; discriminate).
  rewrite quantum_arith by assumption.
  rewrite !land63, !N.shiftr_div_pow2.
  change (2 ^ 16) with 65536. change (2 ^ 8) with 256.
  change (2 ^ 18) with 262144. change (2 ^ 12) with 4096.
  change (2 ^ 6) with 64.
  set (q := v0 * 262144 + v1 * 4096 + v2 * 64 + v3).
  set (val := (q / 65536) mod 256 * 65536 + (q / 256) mod 256 * 256 + q mod 256).
  assert (E : val = q) by (subst val q; lia).
  rewrite E. subst q.
  repeat f_equal; lia.
Qed.

Lemma decode_step (c0 c1 c2 c3 : byte) (rest : list byte) (v0 v1 v2 v3 : N) :
  decodeMap c0 = Some v0 -> decodeMap c1 = Some v1 ->
  decodeMap c2 = Some v2 -> decodeMap c3 = Some v3 ->
  decode (c0 :: c1 :: c2 :: c3 :: rest)
  = option_map (fun t => byte_of_N (N.shiftr (quantum v0 v1 v2 v3) 16)
                         :: byte_of_N (N.shiftr (quantum v0 v1 v2 v3) 8)
                         :: byte_of_N (quantum v0 v1 v2 v3) :: t)
               (decode rest).
Proof. intros H0 H1 H2 H3. cbn [decode]. now rewrite H0, H1, H2, H3. Qed.

(** Text made of full quanta decodes, and the bytes encode to it. *)
Lemma decode_full (n : nat) (s : list byte) :
  length s = (4 * n)%nat -> Forall (fun c => is_b64 c = true) s ->
  exists bs, decode s = Some bs /\ Encode bs = s /\ length bs = (3 * n)%nat.
Proof.
  revert s. induction n as [|n IH]; intros s Hl Hs.
  - destruct s; [|discriminate]. exists []. now repeat split.
  - destruct s as [|c0 [|c1 [|c2 [|c3 s]]]]; simpl in Hl; try lia.
    apply Forall_cons_iff in Hs as [H0 Hs]. apply Forall_cons_iff in Hs as [H1 Hs].
    apply Forall_cons_iff in Hs as [H2 Hs]. apply Forall_cons_iff in Hs as [H3 Hs].
    destruct (IH s) as (bs & Hd & He & Hb); [lia | assumption |].
    unfold is_b64 in H0, H1, H2, H3.
    destruct (decodeMap c0) as [v0|] eqn:E0; [|discriminate].
    destruct (decodeMap c1) as [v1|] eqn:E1; [|discriminate].
    destruct (decodeMap c2) as [v2|] eqn:E2; [|discriminate].
    destruct (decodeMap c3) as [v3|] eqn:E3; [|discriminate].
    destruct (decodeMap_spec _ _ E0) as [L0 <-].
    destruct (decodeMap_spec _ _ E1) as [L1 <-].
    destruct (decodeMap_spec _ _ E2) as [L2 <-].
    destruct (decodeMap_spec _ _ E3) as [L3 <-].
    rewrite (decode_step _ _ _ _ _ v0 v1 v2 v3) by (now apply decodeMap_encode).
    rewrite Hd. eexists. split; [reflexivity|]. split.
    + rewrite decode_group by assumption. now rewrite He.
    + simpl. lia.
Qed.

(** The encoding of whole groups of three bytes decodes to the bytes. *)
Lemma Encode_full (n : nat) (bs : list byte) :
  length bs = (3 * n)%nat ->
  decode (Encode bs) = Some bs /\
  Forall (fun c => is_b64 c = true) (Encode bs) /\
  length (Encode bs) = (4 * n)%nat.
Proof.
  revert bs. induction n as [|n IH]; intros bs Hl.
  - destruct bs; [|discriminate]. repeat split. constructor.
  - destruct bs as [|b0 [|b1 [|b2 bs]]]; simpl in Hl; try lia.
    destruct (IH bs) as (Hd & Hf & Hn); [lia|].
    destruct (Encode_group b0 b1 b2)
      as (v0 & v1 & v2 & v3 & L0 & L1 & L2 & L3 & HE & B0 & B1 & B2).
    rewrite HE. split; [|split].
    + rewrite (decode_step _ _ _ _ _ v0 v1 v2 v3) by (now apply decodeMap_encode).
      rewrite Hd. cbn [option_map]. now rewrite B0, B1, B2.
    + repeat (constructor; [now apply is_b64_encode|]). assumption.
    + simpl. lia.
Qed.

Lemma length_removeNewlines (s : list byte) :
  (length (removeNewlines s) <= length s)%nat.
Proof. apply filter_length_le. Qed.

Lemma filter_same_length {A} (f : A -> bool) (l : list A) :
  length (filter f l) = length l -> filter f l = l.
Proof.
  induction l as [|x l IH]; [reflexivity|].
  cbn [filter]. destruct (f x); cbn [length]; intro H.
  - f_equal. apply IH. lia.
  - pose proof (filter_length_le f l). lia.
Qed.

(** What [decode] accepts is either all digits, three bytes for four
    characters, or shorter by at least one byte. *)
Lemma decode_length (s bs : list byte) :
  decode s = Some bs ->
  (Forall (fun c => is_b64 c = true) s /\ 4 * length bs = 3 * length s)%nat
  \/ (4 * length bs + 4 <= 3 * length s)%nat.
Proof.
  assert (G : forall n s bs, (length s <= n)%nat -> decode s = Some bs ->
    (Forall (fun c => is_b64 c = true) s /\ 4 * length bs = 3 * length s)%nat
    \/ (4 * length bs + 4 <= 3 * length s)%nat).
  { clear s bs. induction n as [|n IH]; intros s bs Hn H.
    - destruct s; [|simpl in Hn; lia]. injection H as <-.
      left. split; [constructor | reflexivity].
    - destruct s as [|c0 [|c1 [|c2 [|c3 s]]]]; try discriminate.
      + injection H as <-. left. split; [constructor | reflexivity].
      + cbn [decode] in H. cbn [length] in *.
        destruct (decodeMap c0) as [v0|] eqn:E0; [|discriminate].
        destruct (decodeMap c1) as [v1|] eqn:E1; [|discriminate].
        destruct (decodeMap c2) as [v2|] eqn:E2.
        * destruct (decodeMap c3) as [v3|] eqn:E3.
          -- destruct (decode s) as [t|] eqn:Ed; [|discriminate].
             cbn [option_map] in H. injection H as <-.
             destruct (IH s t) as [[Hf Hl] | Hl]; [lia | assumption | |].
             ++ left. split.
                ** repeat (constructor;
                     [unfold is_b64; now rewrite ?E0, ?E1, ?E2, ?E3|]).
                   assumption.
                ** cbn [length]. lia.
             ++ right. cbn [length]. lia.
          -- destruct (Byte.eqb c3 padChar && is_nil s); [|discriminate].
             injection H as <-. right. cbn [length]. lia.
        * destruct (Byte.eqb c2 padChar && Byte.eqb c3 padChar && is_nil s);
            [|discriminate].
          injection H as <-. right. cbn [length]. lia. }
  intro H. now apply (G (length s)).
Qed.

(** A character outside the alphabet among [k] characters leaves fewer
    than [3k/4] decoded bytes. *)
Lemma b64_DecodeString_short (s bs : list byte) :
  b64_DecodeString s = (bs, None) ->
  ~ Forall (fun c => is_b64 c = true) s ->
  (4 * length bs + 3 <= 3 * length s)%nat.
Proof.
  unfold b64_DecodeString. intros H Hs.
  destruct (decode (removeNewlines s)) as [t|] eqn:Ed; [|discriminate].
  inversion H; subst t. clear H.
  pose proof (length_removeNewlines s) as Hle.
  destruct (decode_length _ _ Ed) as [[Hf Hl] | Hl]; [|lia].
  destruct (Nat.eq_dec (length (removeNewlines s)) (length s)) as [E|E]; [|lia].
  exfalso. apply Hs. unfold removeNewlines in *.
  now rewrite <- (filter_same_length _ _ E).
Qed.

Lemma b64_DecodeString_full (n : nat) (s : list byte) :
  length s = (4 * n)%nat -> Forall (fun c => is_b64 c = true) s ->
  exists bs, b64_DecodeString s = (bs, None) /\ Encode bs = s /\
             length bs = (3 * n)%nat.
Proof.
  intros Hl Hs. destruct (decode_full n s Hl Hs) as (bs & Hd & He & Hb).
  exists bs. unfold b64_DecodeString.
  now rewrite removeNewlines_b64, Hd.
Qed.

Lemma b64_DecodeString_Encode (n : nat) (bs : list byte) :
  length bs = (3 * n)%nat -> b64_DecodeString (Encode bs) = (bs, None).
Proof.
  intro Hl. destruct (Encode_full n bs Hl) as (Hd & Hf & _).
  unfold b64_DecodeString. now rewrite removeNewlines_b64, Hd.
Qed.

End GoLibFacts.

(** * The header codec and the order of headers *)

Module HeaderFacts.

Import GoLib Header Format Examples GoLibFacts.
Local Open Scope N_scope.

Lemma Forall_by_forallb {A} (f : A -> bool) (l : list A) :
  forallb f l = true -> Forall (fun c => f c = true) l.
Proof. intro H. apply Forall_forall. now apply forallb_forall. Qed.

(** ** The v1 text format *)

Lemma length_v1_text (t e i j k r s : list byte) :
  length (v1_text t e i j k r s)
  = (12 + length t + length e + length i + length j + length k
     + length r + length s)%nat.
Proof. unfold v1_text. rewrite !length_app. simpl. lia. Qed.

Lemma Split_field (a rest : list byte) (sep : byte) :
  ~ In sep a -> Split (a ++ [sep] ++ rest) sep = a :: Split rest sep.
Proof. exact (Split_app_sep a rest sep). Qed.

Lemma Split_v1_text (t e i j k r s : list byte) :
  ~ In colon t -> ~ In colon e -> ~ In colon i -> ~ In colon j ->
  ~ In colon k -> ~ In colon r -> ~ In colon s ->
  Split (v1_text t e i j k r s) colon = [str "M0100"; t; e; i; j; k; r; s].
Proof.
  intros Ht He Hi Hj Hk Hr Hs. unfold v1_text.
  rewrite Split_field by (vm_compute; intuition discriminate).
  repeat (rewrite Split_field by assumption).
  now rewrite Split_no_sep by assumption.
Qed.

Lemma v1_text_prefixed (t e i j k r s : list byte) :
  (length (v1_text t e i j k r s) <? 3)%nat = false /\
  slice 0 3 (v1_text t e i j k r s) = str "M01".
Proof. split; [apply Nat.ltb_ge; rewrite length_v1_text; lia | reflexivity]. Qed.

(** [deserializeV1] on a text whose fields parse. *)
Lemma deserializeV1_v1_text (z : RawMessageHeader)
      (t e i j k r s : list byte) (tv ev : N) (bi bj bk br bs : list byte) :
  ~ In colon t -> ~ In colon e -> ~ In colon i -> ~ In colon j ->
  ~ In colon k -> ~ In colon r -> ~ In colon s ->
  ParseUint t 16 32 = (tv, None) -> ParseUint e 16 32 = (ev, None) ->
  DecodeString i = (bi, None) -> DecodeString j = (bj, None) ->
  DecodeString k = (bk, None) -> DecodeString r = (br, None) ->
  DecodeString s = (bs, None) ->
  deserializeV1 z (v1_text t e i j k r s)
  = (mkRaw (str "0100") (uint32 tv) (uint32 ev) bi bj bk
           (blocklen z) (reserved z) br bs (nonce z), None).
Proof.
  intros Ht He Hi Hj Hk Hr Hs Pt Pe Di Dj Dk Dr Ds.
  unfold deserializeV1. rewrite Split_v1_text by assumption.
  cbn [nth length Nat.eqb negb orb].
  rewrite bytes_eqb_refl. cbn [negb].
  rewrite Pt, Pe, Di, Dj, Dk, Dr, Ds. reflexivity.
Qed.

Lemma serializeV1_v1_text (h : RawMessageHeader) :
  version h = str "0100" -> sized h ->
  serializeV1 h
  = Some (v1_text (fmt_08X (time h)) (fmt_08X (expire h))
                  (EncodeToString (keyI h)) (EncodeToString (keyJ h))
                  (EncodeToString (keyK h)) (EncodeToString (sig_r h))
                  (EncodeToString (sig_s h))).
Proof.
  intros Hv (HI & HJ & HK & Hr & Hs). unfold serializeV1. rewrite Hv.
  change (str "M" ++ str "0100" ++ [colon] ++ ?x)
    with (v1_text (fmt_08X (time h)) (fmt_08X (expire h))
                  (EncodeToString (keyI h)) (EncodeToString (keyJ h))
                  (EncodeToString (keyK h)) (EncodeToString (sig_r h))
                  (EncodeToString (sig_s h))).
  assert (L : length (v1_text (fmt_08X (time h)) (fmt_08X (expire h))
                  (EncodeToString (keyI h)) (EncodeToString (keyJ h))
                  (EncodeToString (keyK h)) (EncodeToString (sig_r h))
                  (EncodeToString (sig_s h))) = MessageHeaderLengthV1).
  { rewrite length_v1_text, !length_EncodeToString, HI, HJ, HK, Hr, Hs.
    unfold fmt_08X. rewrite !length_hex_digits_upper. reflexivity. }
  rewrite L, Nat.eqb_refl. cbn [negb].
  now rewrite copy_full by (rewrite length_make; symmetry; exact L).
Qed.

Lemma valid_v1_length (s : list byte) :
  valid_v1 s -> length s = 354%nat /\ length (Split s colon) = 8%nat.
Proof.
  intros (t & e & i & j & k & r & s' & -> & [Lt Ft] & [Le Fe] & [Li Fi]
          & [Lj Fj] & [Lk Fk] & [Lr Fr] & [Ls Fs]).
  split.
  - rewrite length_v1_text, Lt, Le, Li, Lj, Lk, Lr, Ls. reflexivity.
  - rewrite Split_v1_text;
      auto using upperhex_no_colon, lowerhex_no_colon.
Qed.

Lemma serializeV1_valid (h : RawMessageHeader) :
  version h = str "0100" -> sized h ->
  exists ss, serializeV1 h = Some ss /\ valid_v1 ss.
Proof.
  intros Hv Hs. eexists. split; [now apply serializeV1_v1_text|].
  destruct Hs as (HI & HJ & HK & Hr & Hs).
  do 7 eexists. split; [reflexivity|].
  unfold upperhex_text, lowerhex_text, fmt_08X.
  rewrite !length_hex_digits_upper, !length_EncodeToString, HI, HJ, HK, Hr, Hs.
  repeat split;
    auto using upperhex_hex_digits_upper, lowerhex_EncodeToString.
Qed.

(** A valid v1 text deserializes into any receiver, and the header
    serializes to the text. *)
Lemma v1_roundtrip (z : RawMessageHeader) (s : list byte) :
  valid_v1 s ->
  exists h, Deserialize z s = Some (h, None) /\
            version h = str "0100" /\ Serialize h = Some s.
Proof.
  intros (t & e & i & j & k & r & s' & -> & [Lt Ft] & [Le Fe] & [Li Fi]
          & [Lj Fj] & [Lk Fk] & [Lr Fr] & [Ls Fs]).
  destruct (fmt_08X_ParseUint t Lt Ft) as (tv & Htv & Pt & Et).
  destruct (fmt_08X_ParseUint e Le Fe) as (ev & Hev & Pe & Ee).
  destruct (DecodeString_lowerhex 33 i Li Fi) as (bi & Di & Ei & Bi).
  destruct (DecodeString_lowerhex 33 j Lj Fj) as (bj & Dj & Ej & Bj).
  destruct (DecodeString_lowerhex 33 k Lk Fk) as (bk & Dk & Ek & Bk).
  destruct (DecodeString_lowerhex 32 r Lr Fr) as (br & Dr & Er & Br).
  destruct (DecodeString_lowerhex 32 s' Ls Fs) as (bs & Ds & Es & Bs).
  eexists. unfold Deserialize.
  destruct (v1_text_prefixed t e i j k r s') as [-> ->].
  rewrite bytes_eqb_refl.
  rewrite (deserializeV1_v1_text z t e i j k r s' tv ev bi bj bk br bs);
    auto using upperhex_no_colon, lowerhex_no_colon.
  split; [reflexivity|]. split; [reflexivity|].
  unfold Serialize. cbn [version]. rewrite bytes_eqb_refl.
  rewrite serializeV1_v1_text by (cbn; repeat split; assumption).
  cbn [time expire keyI keyJ keyK sig_r sig_s]. unfold uint32.
  rewrite !N.mod_small by assumption.
  now rewrite Et, Ee, Ei, Ej, Ek, Er, Es.
Qed.

(** ** The v2 binary format *)

Lemma slice_skip (n : nat) (p l : list byte) (a b : nat) :
  length p = n -> (n <= a)%nat ->
  slice a b (p ++ l) = slice (a - n) (b - n) l.
Proof.
  intros Hp Ha. unfold slice. rewrite skipn_app, Hp.
  rewrite skipn_all2 by lia. cbn [app]. f_equal. lia.
Qed.

Lemma slice_take (n : nat) (p l : list byte) :
  length p = n -> slice 0 n (p ++ l) = p.
Proof.
  intro Hp. unfold slice. rewrite Nat.sub_0_r. cbn [skipn].
  rewrite firstn_app, Hp, Nat.sub_diag. cbn [firstn].
  rewrite app_nil_r. rewrite <- Hp. apply firstn_all.
Qed.

Lemma slice_last (n : nat) (p : list byte) :
  length p = n -> slice 0 n p = p.
Proof. intro Hp. rewrite <- Hp. apply slice_all. Qed.

Ltac peel n :=
  rewrite (slice_skip n) by (first [reflexivity | assumption | lia]);
  cbn [Nat.sub].

Section Layout.

Variables t e I J K bl rs r s n8 n32 : list byte.
Hypothesis Ht : length t = 4%nat.
Hypothesis He : length e = 4%nat.
Hypothesis HI : length I = 33%nat.
Hypothesis HJ : length J = 33%nat.
Hypothesis HK : length K = 33%nat.
Hypothesis Hbl : length bl = 4%nat.
Hypothesis Hrs : length rs = 8%nat.
Hypothesis Hr : length r = 32%nat.
Hypothesis Hs : length s = 32%nat.
Hypothesis Hn8 : length n8 = 1%nat.
Hypothesis Hn32 : length n32 = 4%nat.

Let smh := layout t e I J K bl rs r s n8 n32.

Lemma length_layout : length smh = 192%nat.
Proof.
  subst smh. unfold layout. rewrite !length_app.
  rewrite Ht, He, HI, HJ, HK, Hbl, Hrs, Hr, Hs, Hn8, Hn32. reflexivity.
Qed.

Lemma layout_magic : slice 0 4 smh = magicV2.
Proof. subst smh. unfold layout. now apply slice_take. Qed.

Lemma layout_time : slice 4 8 smh = t.
Proof. subst smh. unfold layout. peel 4%nat. now apply slice_take. Qed.

Lemma layout_expire : slice 8 12 smh = e.
Proof.
  subst smh. unfold layout. peel 4%nat. peel 4%nat. now apply slice_take.
Qed.

Lemma layout_I : slice 12 45 smh = I.
Proof.
  subst smh. unfold layout. do 3 peel 4%nat. now apply slice_take.
Qed.

Lemma layout_J : slice 45 78 smh = J.
Proof.
  subst smh. unfold layout. do 3 peel 4%nat. peel 33%nat.
  now apply slice_take.
Qed.

Lemma layout_K : slice 78 111 smh = K.
Proof.
  subst smh. unfold layout. do 3 peel 4%nat. do 2 peel 33%nat.
  now apply slice_take.
Qed.

Lemma layout_blocklen : slice 111 115 smh = bl.
Proof.
  subst smh. unfold layout. do 3 peel 4%nat. do 3 peel 33%nat.
  now apply slice_take.
Qed.

Lemma layout_reserved : slice 115 123 smh = rs.
Proof.
  subst smh. unfold layout. do 3 peel 4%nat. do 3 peel 33%nat. peel 4%nat.
  now apply slice_take.
Qed.

Lemma layout_r : slice 123 155 smh = r.
Proof.
  subst smh. unfold layout. do 3 peel 4%nat. do 3 peel 33%nat. peel 4%nat.
  peel 8%nat. now apply slice_take.
Qed.

Lemma layout_s : slice 155 187 smh = s.
Proof.
  subst smh. unfold layout. do 3 peel 4%nat. do 3 peel 33%nat. peel 4%nat.
  peel 8%nat. peel 32%nat. now apply slice_take.
Qed.

Lemma layout_nonce8 : slice 187 188 smh = n8.
Proof.
  subst smh. unfold layout. do 3 peel 4%nat. do 3 peel 33%nat. peel 4%nat.
  peel 8%nat. do 2 peel 32%nat. now apply slice_take.
Qed.

Lemma layout_nonce32 : slice 188 192 smh = n32.
Proof.
  subst smh. unfold layout. do 3 peel 4%nat. do 3 peel 33%nat. peel 4%nat.
  peel 8%nat. do 2 peel 32%nat. peel 1%nat. now apply slice_last.
Qed.

End Layout.

(** Every 192-byte buffer is the layout of its own slices. *)
Lemma layout_slices (smh : list byte) :
  length smh = 192%nat ->
  smh = layout (slice 4 8 smh) (slice 8 12 smh) (slice 12 45 smh)
               (slice 45 78 smh) (slice 78 111 smh) (slice 111 115 smh)
               (slice 115 123 smh) (slice 123 155 smh) (slice 155 187 smh)
               (slice 187 188 smh) (slice 188 192 smh)
  \/ slice 0 4 smh <> magicV2.
Proof.
  intro H. destruct (list_eq_dec Byte.byte_eq_dec (slice 0 4 smh) magicV2)
    as [E|E]; [left | now right].
  unfold layout. rewrite <- E.
  rewrite <- (slice_all smh) at 1. rewrite H.
  repeat (rewrite slice_app by lia). reflexivity.
Qed.

Lemma nth0_singleton (l : list byte) :
  length l = 1%nat -> [nth 0 l x00] = l.
Proof. destruct l as [|x [|]]; try discriminate. reflexivity. Qed.

(** The nonce read from its five bytes. *)
Lemma nonce_of_bytes (b8 : byte) (n32 : N) :
  n32 < 2 ^ 32 ->
  uint64 (uint64 (N.shiftl (to_N b8) 32) + n32) = to_N b8 * 4294967296 + n32.
Proof.
  intro H. pose proof (to_N_lt b8). unfold uint64.
  rewrite N.shiftl_mul_pow2. change (2 ^ 32) with 4294967296 in *.
  change (2 ^ 64) with 18446744073709551616. lia.
Qed.

(** The five bytes written for a nonce. *)
Lemma bytes_of_nonce (n : N) :
  to_N (byte_of_N (N.shiftr n 32)) * 4294967296
  + Uint32 (PutUint32 (uint32 (N.land n 4294967295)))
  = n mod 2 ^ 40.
Proof.
  rewrite to_N_byte_of_N, N.shiftr_div_pow2, Uint32_PutUint32_mod.
  unfold uint32. change 4294967295 with (N.ones 32). rewrite N.land_ones.
  change (2 ^ 32) with 4294967296. change (2 ^ 40) with 1099511627776. lia.
Qed.

(** [importBinaryHeaderV2] on 192 bytes that start with the magic. *)
Lemma import_long (z : RawMessageHeader) (smh : list byte) :
  length smh = 192%nat -> slice 0 4 smh = magicV2 ->
  importBinaryHeaderV2 z smh
  = (mkRaw (str "0200") (Uint32 (slice 4 8 smh)) (Uint32 (slice 8 12 smh))
           (slice 12 45 smh) (slice 45 78 smh) (slice 78 111 smh)
           (Uint32 (slice 111 115 smh)) (Uint64 (slice 115 123 smh))
           (slice 123 155 smh) (slice 155 187 smh)
           (uint64 (uint64 (N.shiftl (to_N (nth 0 (slice 187 188 smh) x00)) 32)
                    + Uint32 (slice 188 192 smh))),
     None).
Proof.
  intros Hl Hm. unfold importBinaryHeaderV2. rewrite Hl, Hm.
  change (192 <? ShortMessageHeaderLengthV2)%nat with false.
  change (MessageHeaderLengthV2 <=? 192)%nat with true.
  rewrite bytes_eqb_refl. cbn [negb].
  rewrite !copy_full by (rewrite length_make, length_slice; lia).
  reflexivity.
Qed.

(** [importBinaryHeaderV2] on 123 bytes that start with the magic: the
    signature and the nonce of the receiver are left as they are. *)
Lemma import_short (z : RawMessageHeader) (smh : list byte) :
  length smh = 123%nat -> slice 0 4 smh = magicV2 ->
  importBinaryHeaderV2 z smh
  = (mkRaw (str "0200") (Uint32 (slice 4 8 smh)) (Uint32 (slice 8 12 smh))
           (slice 12 45 smh) (slice 45 78 smh) (slice 78 111 smh)
           (Uint32 (slice 111 115 smh)) (Uint64 (slice 115 123 smh))
           (sig_r z) (sig_s z) (nonce z),
     None).
Proof.
  intros Hl Hm. unfold importBinaryHeaderV2. rewrite Hl, Hm.
  change (123 <? ShortMessageHeaderLengthV2)%nat with false.
  change (MessageHeaderLengthV2 <=? 123)%nat with false.
  rewrite bytes_eqb_refl. cbn [negb].
  rewrite !copy_full by (rewrite length_make, length_slice; lia).
  reflexivity.
Qed.

Lemma exportBinaryHeaderV2_sized (h : RawMessageHeader) :
  sized h ->
  exportBinaryHeaderV2 h
  = Some (layout (PutUint32 (time h)) (PutUint32 (expire h))
                 (keyI h) (keyJ h) (keyK h)
                 (PutUint32 (blocklen h)) (PutUint64 (reserved h))
                 (sig_r h) (sig_s h)
                 [byte_of_N (N.shiftr (nonce h) 32)]
                 (PutUint32 (uint32 (N.land (nonce h) 4294967295)))).
Proof.
  intros (HI & HJ & HK & Hr & Hs). unfold exportBinaryHeaderV2.
  fold (layout (PutUint32 (time h)) (PutUint32 (expire h))
                 (keyI h) (keyJ h) (keyK h)
                 (PutUint32 (blocklen h)) (PutUint64 (reserved h))
                 (sig_r h) (sig_s h)
                 [byte_of_N (N.shiftr (nonce h) 32)]
                 (PutUint32 (uint32 (N.land (nonce h) 4294967295)))).
  rewrite length_layout by (assumption || reflexivity).
  change (negb (192 =? MessageHeaderLengthV2)%nat) with false. cbv iota.
  rewrite copy_full; [reflexivity|].
  rewrite length_make, length_layout by (assumption || reflexivity).
  reflexivity.
Qed.

Lemma serializeV2_bytes (h : RawMessageHeader) (bmh : list byte) :
  exportBinaryHeaderV2 h = Some bmh -> length bmh = 192%nat ->
  serializeV2 h = Some (Encode bmh).
Proof.
  intros He Hl. unfold serializeV2. rewrite He.
  destruct (Encode_full 64 bmh Hl) as (_ & _ & Hn).
  assert (E : copy (make MessageHeaderLengthB64V2) (Encode bmh) = Encode bmh)
    by (apply copy_full; now rewrite length_make, Hn).
  now rewrite !E.
Qed.

Lemma Encode_magic (rest : list byte) :
  Encode ("M"%byte :: x02 :: x00 :: rest)
  = "T"%byte :: "Q"%byte :: "I"%byte :: "A"%byte :: Encode rest.
Proof. reflexivity. Qed.

(** The encoding of bytes that start with the magic is not taken for a
    v1 text. *)
Lemma Encode_not_v1 (smh : list byte) :
  (4 <= length smh)%nat -> slice 0 4 smh = magicV2 ->
  bytes_eqb (slice 0 3 (Encode smh)) (str "M01") = false.
Proof.
  intros Hl Hm. destruct smh as [|b0 [|b1 [|b2 [|b3 rest]]]];
    try (simpl in Hl; lia).
  injection Hm as -> -> -> _. rewrite Encode_magic. reflexivity.
Qed.

(** [deserializeV2] on a text of [4 n] digits, [n] being 41 or 64. *)
Lemma deserializeV2_digits (z : RawMessageHeader) (s : list byte) (n : nat) :
  (n = 41 \/ n = 64)%nat ->
  length s = (4 * n)%nat -> Forall (fun c => is_b64 c = true) s ->
  exists smh, b64_DecodeString s = (smh, None) /\ Encode smh = s /\
              length smh = (3 * n)%nat /\
              deserializeV2 z s = importBinaryHeaderV2 z smh.
Proof.
  intros Hn Hl Hs.
  destruct (b64_DecodeString_full n s Hl Hs) as (smh & Hd & He & Hb).
  exists smh. repeat split; try assumption.
  unfold deserializeV2. rewrite Hl.
  destruct Hn as [-> | ->].
  - change (4 * 41 <? ShortMessageHeaderLengthB64V2)%nat with false.
    change (MessageHeaderLengthB64V2 <=? 4 * 41)%nat with false.
    cbv iota.
    rewrite (slice_last ShortMessageHeaderLengthB64V2 s Hl), Hd. reflexivity.
  - change (4 * 64 <? ShortMessageHeaderLengthB64V2)%nat with false.
    change (MessageHeaderLengthB64V2 <=? 4 * 64)%nat with true.
    cbv iota.
    rewrite (slice_last MessageHeaderLengthB64V2 s Hl), Hd. reflexivity.
Qed.

(** A valid long v2 text deserializes into any receiver, and the header
    serializes to the text. *)
Lemma v2_long_roundtrip (z : RawMessageHeader) (s : list byte) :
  valid_v2_long s ->
  exists h, Deserialize z s = Some (h, None) /\
            version h = str "0200" /\ Serialize h = Some s.
Proof.
  intros (Hl & Hs & Hm).
  destruct (deserializeV2_digits z s 64) as (smh & Hd & He & Hb & HD);
    try assumption; [now right|].
  rewrite Hd in Hm. cbn [fst] in Hm.
  eexists. unfold Deserialize. rewrite Hl.
  change (MessageHeaderLengthB64V2 <? 3)%nat with false. cbv iota.
  rewrite <- He at 1. rewrite Encode_not_v1 by (assumption || lia).
  rewrite HD, (import_long z smh Hb Hm).
  split; [reflexivity|]. split; [reflexivity|].
  unfold Serialize. cbn [version].
  change (bytes_eqb (str "0200") (str "0100")) with false. cbv iota.
  destruct (layout_slices smh Hb) as [L | L]; [|contradiction].
  assert (E : exportBinaryHeaderV2
    (mkRaw (str "0200") (Uint32 (slice 4 8 smh)) (Uint32 (slice 8 12 smh))
           (slice 12 45 smh) (slice 45 78 smh) (slice 78 111 smh)
           (Uint32 (slice 111 115 smh)) (Uint64 (slice 115 123 smh))
           (slice 123 155 smh) (slice 155 187 smh)
           (uint64 (uint64 (N.shiftl (to_N (nth 0 (slice 187 188 smh) x00)) 32)
                    + Uint32 (slice 188 192 smh)))) = Some smh).
  { rewrite exportBinaryHeaderV2_sized
      by (unfold sized; cbn [keyI keyJ keyK sig_r sig_s]; repeat split;
          apply length_slice; lia).
    cbn [time expire keyI keyJ keyK blocklen reserved sig_r sig_s nonce].
    rewrite !PutUint32_Uint32, PutUint64_Uint64 by (apply length_slice; lia).
    assert (L32 : length (slice 188 192 smh) = 4%nat) by (apply length_slice; lia).
    rewrite nonce_of_bytes by (now apply Uint32_lt).
    pose proof (Uint32_lt _ L32) as B32.
    pose proof (to_N_lt (nth 0 (slice 187 188 smh) x00)) as B8.
    change (2 ^ 32) with 4294967296 in B32.
    replace (byte_of_N (N.shiftr _ 32)) with (nth 0 (slice 187 188 smh) x00).
    2:{ apply to_N_inj. rewrite to_N_byte_of_N, N.shiftr_div_pow2.
        change (2 ^ 32) with 4294967296. lia. }
    replace (uint32 (N.land _ 4294967295)) with (Uint32 (slice 188 192 smh)).
    2:{ unfold uint32. change 4294967295 with (N.ones 32). rewrite N.land_ones.
        change (2 ^ 32) with 4294967296. lia. }
    rewrite PutUint32_Uint32 by assumption.
    rewrite nth0_singleton by (apply length_slice; lia).
    now rewrite <- L. }
  rewrite (serializeV2_bytes _ smh E Hb). now rewrite He.
Qed.

(** A valid short v2 text deserializes into any receiver. *)
Lemma v2_short_deserialize (z : RawMessageHeader) (s : list byte) :
  valid_v2_short s ->
  exists h, Deserialize z s = Some (h, None) /\ version h = str "0200" /\
            sig_r h = sig_r z /\ sig_s h = sig_s z /\ nonce h = nonce z.
Proof.
  intros (Hl & Hs & Hm).
  destruct (deserializeV2_digits z s 41) as (smh & Hd & He & Hb & HD);
    try assumption; [now left|].
  rewrite Hd in Hm. cbn [fst] in Hm.
  eexists. unfold Deserialize. rewrite Hl.
  change (ShortMessageHeaderLengthB64V2 <? 3)%nat with false. cbv iota.
  rewrite <- He at 1. rewrite Encode_not_v1 by (assumption || lia).
  rewrite HD, (import_short z smh Hb Hm). now repeat split.
Qed.

(** ** Serialize, then deserialize *)

Lemma serialize_deserialize_v1 (h z : RawMessageHeader) :
  version h = str "0100" -> sized h -> time h < 2 ^ 32 -> expire h < 2 ^ 32 ->
  exists s, Serialize h = Some s /\
    Deserialize z s
    = Some (mkRaw (str "0100") (time h) (expire h) (keyI h) (keyJ h) (keyK h)
                  (blocklen z) (reserved z) (sig_r h) (sig_s h) (nonce z),
            None).
Proof.
  intros Hv Hs Ht He. eexists. split.
  - unfold Serialize. rewrite Hv, bytes_eqb_refl.
    now apply serializeV1_v1_text.
  - unfold Deserialize.
    match goal with
    | |- context [v1_text ?t ?e ?i ?j ?k ?r ?s] =>
        destruct (v1_text_prefixed t e i j k r s) as [-> ->]
    end.
    rewrite bytes_eqb_refl.
    rewrite (deserializeV1_v1_text z _ _ _ _ _ _ _ (time h) (expire h)
               (keyI h) (keyJ h) (keyK h) (sig_r h) (sig_s h));
      try (apply upperhex_no_colon, upperhex_hex_digits_upper);
      try (apply lowerhex_no_colon, lowerhex_EncodeToString);
      try (now apply ParseUint_fmt_08X);
      try apply DecodeString_EncodeToString.
    unfold uint32. now rewrite !N.mod_small by assumption.
Qed.

Lemma serialize_deserialize_v2 (h z : RawMessageHeader) :
  version h = str "0200" -> sized h -> typed h ->
  exists s, Serialize h = Some s /\
    Deserialize z s = Some (set_nonce h (nonce h mod 2 ^ 40), None).
Proof.
  intros Hv Hs (Ht & He & Hb & Hr & Hn).
  pose proof (exportBinaryHeaderV2_sized h Hs) as HE.
  destruct Hs as (HI & HJ & HK & Hsr & Hss).
  set (bmh := layout (PutUint32 (time h)) (PutUint32 (expire h))
                 (keyI h) (keyJ h) (keyK h)
                 (PutUint32 (blocklen h)) (PutUint64 (reserved h))
                 (sig_r h) (sig_s h)
                 [byte_of_N (N.shiftr (nonce h) 32)]
                 (PutUint32 (uint32 (N.land (nonce h) 4294967295)))) in *.
  assert (Hl : length bmh = 192%nat)
    by (apply length_layout; assumption || reflexivity).
  assert (Hm : slice 0 4 bmh = magicV2) by (now apply layout_magic).
  destruct (Encode_full 64 bmh Hl) as (_ & Hf & Hn64).
  exists (Encode bmh). split.
  - unfold Serialize. rewrite Hv.
    change (bytes_eqb (str "0200") (str "0100")) with false. cbv iota.
    now apply serializeV2_bytes.
  - unfold Deserialize. rewrite Hn64.
    change (4 * 64 <? 3)%nat with false. cbv iota.
    rewrite Encode_not_v1 by (assumption || lia).
    destruct (deserializeV2_digits z (Encode bmh) 64)
      as (smh & Hd & _ & _ & HD); try assumption; [now right|].
    rewrite (b64_DecodeString_Encode 64 bmh Hl) in Hd.
    injection Hd as <-. rewrite HD, (import_long z bmh Hl Hm).
    subst bmh.
    rewrite layout_time, layout_expire, layout_I, layout_J, layout_K,
      layout_blocklen, layout_reserved, layout_r, layout_s, layout_nonce8,
      layout_nonce32 by (assumption || reflexivity).
    rewrite !Uint32_PutUint32, Uint64_PutUint64 by assumption.
    cbn [nth].
    rewrite nonce_of_bytes
      by (rewrite Uint32_PutUint32_mod; apply N.mod_lt; discriminate).
    rewrite bytes_of_nonce. unfold set_nonce. now rewrite Hv.
Qed.

(** Bits of the nonce above the fortieth are not serialized. *)
Lemma Serialize_nonce_mod (h : RawMessageHeader) :
  Serialize (set_nonce h (nonce h mod 2 ^ 40)) = Serialize h.
Proof.
  unfold Serialize, serializeV1, serializeV2, exportBinaryHeaderV2.
  cbn [set_nonce version time expire keyI keyJ keyK blocklen reserved
       sig_r sig_s nonce].
  replace (byte_of_N (N.shiftr (nonce h mod 2 ^ 40) 32))
    with (byte_of_N (N.shiftr (nonce h) 32)).
  2:{ apply to_N_inj. rewrite !to_N_byte_of_N, !N.shiftr_div_pow2.
      change (2 ^ 32) with 4294967296. change (2 ^ 40) with 1099511627776.
      lia. }
  replace (N.land (nonce h mod 2 ^ 40) 4294967295)
    with (N.land (nonce h) 4294967295).
  2:{ change 4294967295 with (N.ones 32). rewrite !N.land_ones.
      change (2 ^ 32) with 4294967296. change (2 ^ 40) with 1099511627776.
      lia. }
  reflexivity.
Qed.

(** The v1 text does not depend on the block length, the reserved word
    or the nonce. *)
Lemma Serialize_v1_fields (h : RawMessageHeader) (bl rs n : N) :
  version h = str "0100" ->
  Serialize (mkRaw (str "0100") (time h) (expire h) (keyI h) (keyJ h)
                   (keyK h) bl rs (sig_r h) (sig_s h) n)
  = Serialize h.
Proof.
  intro Hv. unfold Serialize. cbn [version]. rewrite Hv.
  unfold serializeV1. cbn [version time expire keyI keyJ keyK sig_r sig_s].
  now rewrite Hv.
Qed.

(** ** What [Deserialize] rejects *)

Lemma hex_Decode_Some (s b : list byte) :
  hex_Decode s = Some b -> hex_text s.
Proof.
  assert (G : forall n s b, (length s <= n)%nat -> hex_Decode s = Some b ->
                            hex_text s).
  { clear s b. induction n as [|n IH]; intros s b Hn H.
    - destruct s; [|simpl in Hn; lia]. split; [reflexivity | constructor].
    - destruct s as [|c1 [|c2 s]]; try discriminate.
      + split; [reflexivity | constructor].
      + cbn [hex_Decode] in H. cbn [length] in Hn.
        destruct (fromHexChar c1) as [x|] eqn:E1; [|discriminate].
        destruct (fromHexChar c2) as [y|] eqn:E2; [|discriminate].
        destruct (hex_Decode s) as [t|] eqn:Ed; [|discriminate].
        destruct (IH s t) as [Hev Hf]; [lia | exact Ed |].
        split.
        * cbn [length]. now rewrite !Nat.even_succ_succ.
        * repeat (constructor; [congruence|]). assumption. }
  intro H. now apply (G (length s) s b).
Qed.

Lemma DecodeString_ok (s b : list byte) :
  DecodeString s = (b, None) -> hex_text s.
Proof.
  unfold DecodeString. destruct (Nat.odd (length s)); [discriminate|].
  destruct (hex_Decode s) as [t|] eqn:E; [|discriminate].
  intros _. now apply (hex_Decode_Some s t).
Qed.

Lemma deserializeV1_ok (z z' : RawMessageHeader) (s : list byte) :
  deserializeV1 z s = (z', None) ->
  length (Split s colon) = 8%nat /\
  nth 0 (Split s colon) [] = str "M0100" /\
  forall i, (3 <= i <= 7)%nat -> hex_text (nth i (Split s colon) []).
Proof.
  unfold deserializeV1.
  destruct (length (Split s colon) =? 8)%nat eqn:El; [|discriminate].
  destruct (bytes_eqb (nth 0 (Split s colon) []) (str "M0100")) eqn:Em;
    [|discriminate].
  cbn [negb orb].
  destruct (ParseUint (nth 1 (Split s colon) []) 16 32) as [t1 e1].
  destruct (ParseUint (nth 2 (Split s colon) []) 16 32) as [t2 e2].
  destruct (DecodeString (nth 3 (Split s colon) [])) as [b3 [e3|]] eqn:D3;
    [discriminate|].
  destruct (DecodeString (nth 4 (Split s colon) [])) as [b4 [e4|]] eqn:D4;
    [discriminate|].
  destruct (DecodeString (nth 5 (Split s colon) [])) as [b5 [e5|]] eqn:D5;
    [discriminate|].
  destruct (DecodeString (nth 6 (Split s colon) [])) as [b6 [e6|]] eqn:D6;
    [discriminate|].
  destruct (DecodeString (nth 7 (Split s colon) [])) as [b7 [e7|]] eqn:D7;
    [discriminate|].
  intros _. split; [now apply Nat.eqb_eq|]. split; [now apply bytes_eqb_eq|].
  intros i Hi.
  assert (E : (i = 3 \/ i = 4 \/ i = 5 \/ i = 6 \/ i = 7)%nat) by lia.
  destruct E as [-> | [-> | [-> | [-> | ->]]]];
    eauto using DecodeString_ok.
Qed.

Lemma importBinaryHeaderV2_ok (z z' : RawMessageHeader) (smh : list byte) :
  importBinaryHeaderV2 z smh = (z', None) ->
  (123 <= length smh)%nat /\ slice 0 4 smh = magicV2.
Proof.
  unfold importBinaryHeaderV2.
  destruct (length smh <? ShortMessageHeaderLengthV2)%nat eqn:El;
    [discriminate|].
  destruct (bytes_eqb (slice 0 4 smh) magicV2) eqn:Em; [|discriminate].
  intros _. split.
  - apply Nat.ltb_ge in El. exact El.
  - now apply bytes_eqb_eq.
Qed.

Lemma deserializeV2_ok (z z' : RawMessageHeader) (s : list byte) :
  deserializeV2 z s = (z', None) ->
  (164 <= length s)%nat /\
  exists smh, b64_DecodeString (v2_prefix s) = (smh, None) /\
              (123 <= length smh)%nat /\ slice 0 4 smh = magicV2.
Proof.
  unfold deserializeV2, v2_prefix.
  destruct (length s <? ShortMessageHeaderLengthB64V2)%nat eqn:El;
    [discriminate|].
  apply Nat.ltb_ge in El.
  destruct (MessageHeaderLengthB64V2 <=? length s)%nat.
  - destruct (b64_DecodeString (slice 0 MessageHeaderLengthB64V2 s))
      as [smh [e|]]; [discriminate|].
    intro H. split; [exact El|]. exists smh. split; [reflexivity|].
    now apply (importBinaryHeaderV2_ok z z').
  - destruct (b64_DecodeString (slice 0 ShortMessageHeaderLengthB64V2 s))
      as [smh [e|]]; [discriminate|].
    intro H. split; [exact El|]. exists smh. split; [reflexivity|].
    now apply (importBinaryHeaderV2_ok z z').
Qed.

(** A character that is neither a digit nor the padding makes [decode]
    fail. *)
Lemma decode_bad_char (c : byte) (s : list byte) :
  In c s -> is_b64 c = false -> c <> padChar -> decode s = None.
Proof.
  intros Hin Hc Hp.
  assert (G : forall n s, (length s <= n)%nat -> In c s -> decode s = None).
  { clear s Hin. induction n as [|n IH]; intros s Hn Hin.
    - destruct s; [contradiction | simpl in Hn; lia].
    - destruct s as [|c0 [|c1 [|c2 [|c3 s]]]]; try reflexivity;
        [contradiction|].
      cbn [decode]. cbn [length] in Hn. unfold is_b64 in Hc.
      destruct (decodeMap c0) as [v0|] eqn:E0; [|reflexivity].
      destruct (decodeMap c1) as [v1|] eqn:E1; [|reflexivity].
      assert (N0 : c <> c0) by (intros ->; rewrite E0 in Hc; discriminate).
      assert (N1 : c <> c1) by (intros ->; rewrite E1 in Hc; discriminate).
      destruct (decodeMap c2) as [v2|] eqn:E2.
      + assert (N2 : c <> c2) by (intros ->; rewrite E2 in Hc; discriminate).
        destruct (decodeMap c3) as [v3|] eqn:E3.
        * assert (N3 : c <> c3) by (intros ->; rewrite E3 in Hc; discriminate).
          rewrite (IH s); [reflexivity | lia |].
          destruct Hin as [H|[H|[H|[H|H]]]]; congruence || assumption.
        * destruct (Byte.eqb c3 padChar) eqn:P3; [|reflexivity].
          apply Byte.byte_dec_bl in P3.
          destruct s; [|reflexivity].
          destruct Hin as [H|[H|[H|[H|H]]]]; try congruence. contradiction.
      + destruct (Byte.eqb c2 padChar) eqn:P2; [|reflexivity].
        destruct (Byte.eqb c3 padChar) eqn:P3; [|reflexivity].
        apply Byte.byte_dec_bl in P2, P3.
        destruct s; [|reflexivity].
        destruct Hin as [H|[H|[H|[H|H]]]]; try congruence. contradiction. }
  now apply (G (length s)).
Qed.

Lemma b64_DecodeString_bad_char (c : byte) (s : list byte) :
  In c s -> is_b64 c = false -> c <> padChar -> is_newline c = false ->
  snd (b64_DecodeString s) <> None.
Proof.
  intros Hin Hc Hp Hn. unfold b64_DecodeString.
  rewrite (decode_bad_char c); try assumption; [discriminate|].
  unfold removeNewlines. apply filter_In. split; [assumption|].
  now rewrite Hn.
Qed.

(** ** The codec claims *)

(** C1, amended.  A valid v1 text and a valid long v2 text deserialize
    (into any receiver) and the resulting header serializes to the very
    same text, under the same version; a valid short v2 text
    deserializes as version 0200, and nothing is said about serializing
    the result. *)
Theorem deserialize_then_serialize (z : RawMessageHeader) (s : list byte) :
  valid_v1 s \/ valid_v2_long s \/ valid_v2_short s ->
  exists h,
    Deserialize z s = Some (h, None) /\
    (valid_v1 s -> version h = str "0100" /\ Serialize h = Some s) /\
    (valid_v2_long s -> version h = str "0200" /\ Serialize h = Some s) /\
    (valid_v2_short s -> version h = str "0200").
Proof.
  intro H.
  assert (D : exists h, Deserialize z s = Some (h, None)).
  { destruct H as [H | [H | H]].
    - destruct (v1_roundtrip z s H) as (h & Hd & _). now exists h.
    - destruct (v2_long_roundtrip z s H) as (h & Hd & _). now exists h.
    - destruct (v2_short_deserialize z s H) as (h & Hd & _). now exists h. }
  destruct D as (h & Hd). exists h. split; [exact Hd|].
  split; [|split]; intro V.
  - destruct (v1_roundtrip z s V) as (h1 & Hd1 & Hv & Hs).
    rewrite Hd in Hd1. injection Hd1 as <-. now split.
  - destruct (v2_long_roundtrip z s V) as (h1 & Hd1 & Hv & Hs).
    rewrite Hd in Hd1. injection Hd1 as <-. now split.
  - destruct (v2_short_deserialize z s V) as (h1 & Hd1 & Hv & _).
    rewrite Hd in Hd1. now injection Hd1 as <-.
Qed.

Lemma deserialize_then_serialize_witness :
  exists h,
    Deserialize new_RawMessageHeader v1_string = Some (h, None) /\
    (valid_v1 v1_string ->
     version h = str "0100" /\ Serialize h = Some v1_string) /\
    (valid_v2_long v1_string ->
     version h = str "0200" /\ Serialize h = Some v1_string) /\
    (valid_v2_short v1_string -> version h = str "0200").
Proof.
  apply (deserialize_then_serialize new_RawMessageHeader v1_string).
  left. unfold v1_string. do 7 eexists. split; [reflexivity|].
  unfold upperhex_text, lowerhex_text.
  repeat split; try reflexivity; apply Forall_by_forallb; vm_compute;
    reflexivity.
Defined.

(** C1 as stated fails on the short form: the 164-character text is
    valid and deserializes, but [Serialize] of the result panics. *)
Lemma short_form_does_not_reserialize :
  valid_v2_short v2_short_string /\
  exists h,
    Deserialize new_RawMessageHeader v2_short_string = Some (h, None) /\
    Serialize h = None.
Proof.
  split.
  - split; [reflexivity|]. split; [|vm_compute; reflexivity].
    apply Forall_by_forallb. vm_compute. reflexivity.
  - eexists. split; vm_compute; reflexivity.
Qed.

(** C2, amended.  For a header of version 0100 or 0200 with blobs of
    33, 33, 33, 32, 32 bytes, [Serialize] returns a text that
    deserializes into a fresh header; the result has the same hash and the
    same version, times and blobs, and it is the header itself when the
    header is representable (v1: no block length, reserved word or nonce;
    v2: a nonce of 40 bits). *)
Theorem serialize_then_deserialize
        (Sum256 : list byte -> list byte) (h : RawMessageHeader) :
  version h = str "0100" \/ version h = str "0200" -> sized h -> typed h ->
  exists s h',
    Serialize h = Some s /\
    Deserialize new_RawMessageHeader s = Some (h', None) /\
    Hash Sum256 h' = Hash Sum256 h /\
    (version h' = version h /\ time h' = time h /\ expire h' = expire h /\
     keyI h' = keyI h /\ keyJ h' = keyJ h /\ keyK h' = keyK h /\
     sig_r h' = sig_r h /\ sig_s h' = sig_s h) /\
    (representable h -> h' = h).
Proof.
  intros [Hv | Hv] Hs Ht.
  - destruct Ht as (Ht & He & _).
    destruct (serialize_deserialize_v1 h new_RawMessageHeader Hv Hs Ht He)
      as (s & HS & HD).
    exists s. eexists. split; [exact HS|]. split; [exact HD|].
    cbn [blocklen reserved nonce new_RawMessageHeader]. split; [|split].
    + unfold Hash. now rewrite Serialize_v1_fields.
    + cbn. now rewrite Hv.
    + intros [(_ & Hb & Hr & Hn) | (Hv2 & _)].
      * destruct h; cbn in *. now subst.
      * rewrite Hv in Hv2. discriminate.
  - destruct (serialize_deserialize_v2 h new_RawMessageHeader Hv Hs Ht)
      as (s & HS & HD).
    exists s. eexists. split; [exact HS|]. split; [exact HD|].
    split; [|split].
    + unfold Hash. now rewrite Serialize_nonce_mod.
    + cbn. now repeat split.
    + intros [(Hv1 & _) | (_ & Hn)].
      * rewrite Hv in Hv1. discriminate.
      * rewrite N.mod_small by assumption. now destruct h.
Qed.

Lemma serialize_then_deserialize_witness :
  exists s h',
    Serialize v2_header = Some s /\
    Deserialize new_RawMessageHeader s = Some (h', None) /\
    Hash (fun b => b) h' = Hash (fun b => b) v2_header /\
    (version h' = version v2_header /\ time h' = time v2_header /\
     expire h' = expire v2_header /\
     keyI h' = keyI v2_header /\ keyJ h' = keyJ v2_header /\
     keyK h' = keyK v2_header /\
     sig_r h' = sig_r v2_header /\ sig_s h' = sig_s v2_header) /\
    (representable v2_header -> h' = v2_header).
Proof.
  apply (serialize_then_deserialize (fun b => b) v2_header).
  - right. reflexivity.
  - repeat split; reflexivity.
  - repeat split; reflexivity.
Defined.

(** [Swap] on a v1 header and a v2 header leaves a v1 header that carries
    the block length and the nonce of the v2 header. *)
Lemma Swap_mixed_versions :
  Swap [v1_header; v2_header] 0 1 = Some [v2_header; v1_header_with_blocklen].
Proof. vm_compute. reflexivity. Qed.

(** C2 as stated fails: a v1 header that carries a block length, and a
    v2 header whose nonce needs more than 40 bits, both satisfy the
    conditions of the claim and do not come back field for field. *)
Lemma roundtrip_loses_fields :
  (version v1_header_with_blocklen = str "0100" /\
   sized v1_header_with_blocklen /\
   exists s h',
     Serialize v1_header_with_blocklen = Some s /\
     Deserialize new_RawMessageHeader s = Some (h', None) /\
     blocklen h' <> blocklen v1_header_with_blocklen) /\
  (version v2_header_wide_nonce = str "0200" /\
   sized v2_header_wide_nonce /\
   exists s h',
     Serialize v2_header_wide_nonce = Some s /\
     Deserialize new_RawMessageHeader s = Some (h', None) /\
     nonce h' <> nonce v2_header_wide_nonce).
Proof.
  split; (split; [reflexivity|]); (split; [repeat split; reflexivity|]);
    do 2 eexists; (split; [vm_compute; reflexivity|]);
    (split; [vm_compute; reflexivity|]); vm_compute; discriminate.
Qed.

(** C3, amended.  A valid v1 text has exactly 8 colon-separated fields
    and exactly 354 characters, which is [MessageHeaderLengthV1];
    [Serialize] of a v1 header with 32-bit times and blobs of 33, 33, 33,
    32, 32 bytes returns such a text. *)
Theorem v1_text_length :
  MessageHeaderLengthV1 = 354%nat /\
  (forall s, valid_v1 s ->
             length s = 354%nat /\ length (Split s colon) = 8%nat) /\
  (forall h, version h = str "0100" -> time h < 2 ^ 32 -> expire h < 2 ^ 32 ->
             sized h ->
             exists ss, Serialize h = Some ss /\ valid_v1 ss /\
                        length ss = 354%nat /\
                        length (Split ss colon) = 8%nat).
Proof.
  split; [reflexivity|]. split; [exact valid_v1_length|].
  intros h Hv _ _ Hs.
  destruct (serializeV1_valid h Hv Hs) as (ss & HS & Hval).
  exists ss. unfold Serialize. rewrite Hv, bytes_eqb_refl.
  split; [exact HS|]. split; [exact Hval|]. now apply valid_v1_length.
Qed.

Lemma v1_text_length_witness :
  exists ss, Serialize v1_header = Some ss /\ valid_v1 ss /\
             length ss = 354%nat /\ length (Split ss colon) = 8%nat.
Proof.
  apply (proj2 (proj2 v1_text_length) v1_header).
  - reflexivity.
  - reflexivity.
  - reflexivity.
  - repeat split; reflexivity.
Defined.

(** C3 as stated fails: the serialization of a v1 header has 354
    characters, not 338. *)
Lemma v1_text_is_not_338 :
  Serialize v1_header = Some v1_string /\
  length (Split v1_string colon) = 8%nat /\
  length v1_string = 354%nat /\ length v1_string <> 338%nat.
Proof. repeat split; try (vm_compute; reflexivity). vm_compute. discriminate. Qed.

(** C4, amended.  [Deserialize] returns an error for every string of at
    least three characters that is [malformed]: a text with the v1 prefix
    that has not exactly eight fields, or whose first field is not M0100,
    or one of whose five blobs is not hexadecimal text; a text without
    that prefix that is shorter than 164 characters, or shorter than 256
    with a character outside the alphabet among the first 164, or with a
    character that is neither of the alphabet nor padding nor a line
    break in the decoded part, or whose decoded bytes do not start with
    the magic. *)
Theorem malformed_is_rejected (z : RawMessageHeader) (s : list byte) :
  (3 <= length s)%nat -> malformed s ->
  exists z' e, Deserialize z s = Some (z', Some e).
Proof.
  intros Hl Hm. unfold Deserialize.
  rewrite (proj2 (Nat.ltb_ge _ _)) by exact Hl.
  destruct (bytes_eqb (slice 0 3 s) (str "M01")) eqn:Ep.
  - destruct (deserializeV1 z s) as [z' [e|]] eqn:Ed; [now exists z', e|].
    exfalso. destruct (deserializeV1_ok _ _ _ Ed) as (H8 & H0 & Hh).
    apply bytes_eqb_eq in Ep.
    destruct Hm as [_ H | _ H | i _ Hi H | H _ | H _ _ | c H _ _ _ _ | H _];
      try (now apply H); try contradiction. now apply H, Hh.
  - destruct (deserializeV2 z s) as [z' [e|]] eqn:Ed; [now exists z', e|].
    exfalso.
    destruct (deserializeV2_ok _ _ _ Ed) as (H164 & smh & Hd & H123 & Hmag).
    assert (Np : ~ v1_prefixed s).
    { intro Hp. apply bytes_eqb_eq in Hp. congruence. }
    destruct Hm as [H _ | H _ | i H _ _ | _ H | _ H Hf | c _ Hin Hc Hp Hn | _ H];
      try contradiction.
    + unfold ShortMessageHeaderLengthB64V2 in H. lia.
    + unfold v2_prefix in Hd.
      rewrite (proj2 (Nat.leb_gt _ _)) in Hd by exact H.
      pose proof (b64_DecodeString_short _ _ Hd Hf) as Hs.
      rewrite length_slice in Hs
        by (unfold ShortMessageHeaderLengthB64V2; lia).
      unfold ShortMessageHeaderLengthB64V2 in Hs. lia.
    + apply (b64_DecodeString_bad_char c (v2_prefix s)); try assumption.
      now rewrite Hd.
    + apply H. now rewrite Hd.
Qed.

Lemma malformed_is_rejected_witness :
  exists z' e, Deserialize new_RawMessageHeader (str "M02") = Some (z', Some e).
Proof.
  apply (malformed_is_rejected new_RawMessageHeader (str "M02")).
  - vm_compute. repeat constructor.
  - apply v2_too_short.
    + vm_compute. discriminate.
    + vm_compute. repeat constructor.
Defined.

(** C4 as stated fails: a v1-prefixed text of eight fields with times
    that are not hexadecimal and with empty blobs deserializes without an
    error, and on a text of two characters [Deserialize] panics. *)
Lemma junk_is_accepted :
  length (Split v1_junk colon) = 8%nat /\
  Deserialize new_RawMessageHeader v1_junk
  = Some (mkRaw (str "0100") 0 0 [] [] [] 0 0 [] [] 0, None) /\
  Deserialize new_RawMessageHeader (str "M0") = None.
Proof. repeat split; vm_compute; reflexivity. Qed.

(** ** The order of header slices *)

Lemma nth_error_skipn (l : list byte) (x : nat) (p : byte) :
  nth_error l x = Some p -> skipn x l = p :: skipn (Datatypes.S x) l.
Proof.
  revert x. induction l as [|y l IH]; intros [|x] H; try discriminate.
  - now injection H as ->.
  - cbn [nth_error] in H. cbn [skipn]. now apply IH.
Qed.

(** The loop of [Less] compares [n] bytes from index [x] on. *)
Lemma Less_loop_lex (n x : nat) (Ii Ij : list byte) :
  (x + n <= length Ii)%nat -> (x + n <= length Ij)%nat ->
  Less_loop n x Ii Ij
  = Some (lex_ltb (firstn n (skipn x Ii)) (firstn n (skipn x Ij))).
Proof.
  revert x. induction n as [|n IH]; intros x Hi Hj; [reflexivity|].
  cbn [Less_loop].
  destruct (nth_error Ii x) as [p|] eqn:Ep.
  2:{ apply nth_error_None in Ep. lia. }
  destruct (nth_error Ij x) as [q|] eqn:Eq.
  2:{ apply nth_error_None in Eq. lia. }
  rewrite (nth_error_skipn _ _ _ Ep), (nth_error_skipn _ _ _ Eq).
  cbn [firstn lex_ltb].
  destruct (to_N p <? to_N q); [reflexivity|].
  destruct (to_N q <? to_N p); [reflexivity|].
  apply IH; lia.
Qed.

Lemma lex_ltb_irrefl (a : list byte) : lex_ltb a a = false.
Proof.
  induction a as [|x a IH]; [reflexivity|].
  cbn [lex_ltb]. now rewrite N.ltb_irrefl.
Qed.

Lemma lex_ltb_trans (a b c : list byte) :
  lex_ltb a b = true -> lex_ltb b c = true -> lex_ltb a c = true.
Proof.
  revert b c. induction a as [|x a IH]; intros [|y b] [|z c];
    cbn [lex_ltb]; try discriminate; try reflexivity.
  destruct (to_N x <? to_N y) eqn:Exy, (to_N y <? to_N x) eqn:Eyx,
           (to_N y <? to_N z) eqn:Eyz, (to_N z <? to_N y) eqn:Ezy,
           (to_N x <? to_N z) eqn:Exz, (to_N z <? to_N x) eqn:Ezx;
    try discriminate; try reflexivity;
    rewrite ?N.ltb_lt, ?N.ltb_ge in *; try lia.
  apply IH.
Qed.

Lemma lex_ltb_asym (a b : list byte) :
  lex_ltb a b = true -> lex_ltb b a = false.
Proof.
  revert b. induction a as [|x a IH]; intros [|y b];
    cbn [lex_ltb]; try discriminate; try reflexivity.
  destruct (to_N x <? to_N y) eqn:Exy, (to_N y <? to_N x) eqn:Eyx;
    try discriminate; try reflexivity;
    rewrite ?N.ltb_lt, ?N.ltb_ge in *; try lia.
  apply IH.
Qed.

Lemma lex_ltb_total (a b : list byte) :
  length a = length b -> a <> b ->
  lex_ltb a b = true \/ lex_ltb b a = true.
Proof.
  revert b. induction a as [|x a IH]; intros [|y b] Hl Hne;
    try discriminate; [contradiction|].
  cbn [lex_ltb].
  destruct (to_N x <? to_N y) eqn:Exy; [now left|].
  destruct (to_N y <? to_N x) eqn:Eyx; [now right|].
  apply N.ltb_ge in Exy, Eyx.
  assert (x = y) by (apply to_N_inj; lia). subst y.
  apply IH; [now injection Hl | congruence].
Qed.

Lemma Less_key (z : list RawMessageHeader) (i j : nat)
      (a b : RawMessageHeader) :
  nth_error z i = Some a -> nth_error z j = Some b ->
  (33 <= length (keyI a))%nat -> (33 <= length (keyI b))%nat ->
  Less z i j = Some (key_ltb (sort_key a) (sort_key b)).
Proof.
  intros Ha Hb La Lb. unfold Less, key_ltb, sort_key. rewrite Ha, Hb.
  cbn [fst snd].
  destruct (time a <? time b) eqn:E1; [reflexivity|].
  destruct (time b <? time a) eqn:E2.
  - apply N.ltb_lt in E2. apply N.ltb_ge in E1.
    rewrite (proj2 (N.eqb_neq _ _)) by lia. reflexivity.
  - apply N.ltb_ge in E1, E2.
    rewrite (proj2 (N.eqb_eq _ _)) by lia.
    now rewrite Less_loop_lex by (cbn; lia).
Qed.

Lemma key_ltb_irrefl (p : N * list byte) : key_ltb p p = false.
Proof.
  unfold key_ltb. now rewrite N.ltb_irrefl, N.eqb_refl, lex_ltb_irrefl.
Qed.

Lemma key_ltb_trans (p q r : N * list byte) :
  key_ltb p q = true -> key_ltb q r = true -> key_ltb p r = true.
Proof.
  unfold key_ltb. destruct p as [t1 k1], q as [t2 k2], r as [t3 k3].
  cbn [fst snd]. intros H1 H2.
  apply orb_true_iff in H1, H2. apply orb_true_iff.
  rewrite !andb_true_iff, !N.ltb_lt, !N.eqb_eq in *.
  destruct H1 as [H1 | [E1 L1]], H2 as [H2 | [E2 L2]].
  - left. lia.
  - left. lia.
  - left. lia.
  - right. split; [lia|]. now apply (lex_ltb_trans k1 k2 k3).
Qed.

Lemma key_ltb_asym (p q : N * list byte) :
  key_ltb p q = true -> key_ltb q p = false.
Proof.
  unfold key_ltb. destruct p as [t1 k1], q as [t2 k2].
  cbn [fst snd]. intro H. apply orb_true_iff in H.
  rewrite andb_true_iff, N.ltb_lt, N.eqb_eq in H.
  apply orb_false_iff. destruct H as [H | [E L]].
  - split; [apply N.ltb_ge; lia|].
    rewrite (proj2 (N.eqb_neq _ _)) by lia. reflexivity.
  - split; [apply N.ltb_ge; lia|].
    rewrite (lex_ltb_asym _ _ L). apply andb_false_r.
Qed.

Lemma key_ltb_total (p q : N * list byte) :
  length (snd p) = length (snd q) -> p <> q ->
  key_ltb p q = true \/ key_ltb q p = true.
Proof.
  unfold key_ltb. destruct p as [t1 k1], q as [t2 k2].
  cbn [fst snd]. intros Hl Hne.
  destruct (N.lt_trichotomy t1 t2) as [H | [H | H]].
  - left. now rewrite (proj2 (N.ltb_lt _ _) H).
  - subst t2. rewrite N.ltb_irrefl, N.eqb_refl. cbn [orb andb].
    apply lex_ltb_total; congruence.
  - right. now rewrite (proj2 (N.ltb_lt _ _) H).
Qed.

(** C6, amended.  On headers whose [I] has at least 33 bytes, [Less]
    returns, without a panic, the strict order by ascending time with
    ties broken by the byte-lexicographic order of the first 33 bytes of
    [I]: it is irreflexive and transitive, and whenever the time or the
    first 33 bytes of [I] differ exactly one of [Less(a, b)] and
    [Less(b, a)] holds. *)
Theorem Less_strict_total_order
        (z : list RawMessageHeader) (i j k : nat) (a b c : RawMessageHeader) :
  nth_error z i = Some a -> nth_error z j = Some b -> nth_error z k = Some c ->
  (33 <= length (keyI a))%nat -> (33 <= length (keyI b))%nat ->
  (33 <= length (keyI c))%nat ->
  Less z i j
  = Some ((time a <? time b)
          || ((time a =? time b)
              && lex_ltb (firstn 33 (keyI a)) (firstn 33 (keyI b)))) /\
  Less z i i = Some false /\
  (Less z i j = Some true -> Less z j k = Some true ->
   Less z i k = Some true) /\
  (sort_key a <> sort_key b ->
   (Less z i j = Some true /\ Less z j i = Some false)
   \/ (Less z i j = Some false /\ Less z j i = Some true)).
Proof.
  intros Ha Hb Hc La Lb Lc.
  rewrite (Less_key z i j a b), (Less_key z i i a a), (Less_key z j k b c),
    (Less_key z i k a c), (Less_key z j i b a) by assumption.
  split; [reflexivity|]. split; [now rewrite key_ltb_irrefl|]. split.
  - intros H1 H2. injection H1 as H1. injection H2 as H2.
    now rewrite (key_ltb_trans _ _ _ H1 H2).
  - intro Hne.
    destruct (key_ltb_total (sort_key a) (sort_key b)) as [H | H];
      [unfold sort_key; cbn [snd]; rewrite !length_firstn; lia
      | assumption | |].
    + left. now rewrite H, (key_ltb_asym _ _ H).
    + right. now rewrite H, (key_ltb_asym _ _ H).
Qed.

Lemma Less_strict_total_order_witness :
  Less [v1_header; v2_header] 0 1
  = Some ((time v1_header <? time v2_header)
          || ((time v1_header =? time v2_header)
              && lex_ltb (firstn 33 (keyI v1_header))
                         (firstn 33 (keyI v2_header)))) /\
  Less [v1_header; v2_header] 0 0 = Some false /\
  (Less [v1_header; v2_header] 0 1 = Some true ->
   Less [v1_header; v2_header] 1 0 = Some true ->
   Less [v1_header; v2_header] 0 0 = Some true) /\
  (sort_key v1_header <> sort_key v2_header ->
   (Less [v1_header; v2_header] 0 1 = Some true /\
    Less [v1_header; v2_header] 1 0 = Some false)
   \/ (Less [v1_header; v2_header] 0 1 = Some false /\
       Less [v1_header; v2_header] 1 0 = Some true)).
Proof.
  apply (Less_strict_total_order [v1_header; v2_header] 0 1 0
           v1_header v2_header v1_header);
    try reflexivity; vm_compute; discriminate.
Defined.

(** C6 as stated fails on [I] fields longer than 33 bytes: two headers of
    the same time whose 34-byte [I] differ in the last byte have different
    keys [(time, I)], and neither is [Less] than the other. *)
Lemma Less_ignores_bytes_after_33 :
  (33 <= length (keyI long_I_a))%nat /\ (33 <= length (keyI long_I_b))%nat /\
  (time long_I_a, keyI long_I_a) <> (time long_I_b, keyI long_I_b) /\
  Less [long_I_a; long_I_b] 0 1 = Some false /\
  Less [long_I_a; long_I_b] 1 0 = Some false.
Proof.
  repeat split; try (vm_compute; reflexivity);
    try (vm_compute; discriminate).
  - vm_compute. repeat constructor.
  - vm_compute. repeat constructor.
Qed.

(** ** The JSON view *)

(** C9 at the largest block length.  [Size] is [(blocklen + 1) * 256] for
    every block length below [2^32 - 1]; at [2^32 - 1] the sum is taken in
    32 bits and [Size] is 0. *)
Theorem JSON_Size (FormatUnixUTC : N -> list byte) (h : RawMessageHeader) :
  blocklen h < 2 ^ 32 ->
  Size (JSON FormatUnixUTC h)
  = if blocklen h =? 2 ^ 32 - 1 then 0 else (blocklen h + 1) * 256.
Proof.
  intro H. unfold JSON. cbn [Size]. unfold uint64, uint32.
  change (N.of_nat MessageHeaderLengthB64V2) with 256.
  change (2 ^ 32) with 4294967296 in *.
  change (2 ^ 64) with 18446744073709551616.
  destruct (N.eqb_spec (blocklen h) (4294967296 - 1)) as [E|E].
  - rewrite E. reflexivity.
  - rewrite (N.mod_small (blocklen h + 1)) by lia.
    rewrite (N.mod_small (blocklen h + 1)) by lia.
    apply N.mod_small. lia.
Qed.

Lemma JSON_Size_witness :
  Size (JSON (fun _ => []) v2_header_max_blocklen)
  = if blocklen v2_header_max_blocklen =? 2 ^ 32 - 1 then 0
    else (blocklen v2_header_max_blocklen + 1) * 256.
Proof.
  apply (JSON_Size (fun _ => []) v2_header_max_blocklen).
  vm_compute. reflexivity.
Defined.

End HeaderFacts.

(** * The protocol handler *)

Module WSFacts.

Import GoLib Header Format Examples WS.
Local Open Scope N_scope.

Section HandlerFacts.

Context {LocalHeaderCache HeaderCache StatusResponse : Type}.
Variable hc_Insert :
  HeaderCache -> RawMessageHeader -> HeaderCache * (bool * option error).
Variable lhc_Insert :
  LocalHeaderCache -> RawMessageHeader
  -> LocalHeaderCache * (bool * option error).

Let state := St LocalHeaderCache HeaderCache StatusResponse.

Lemma stop_drain_live (t : Timer) :
  live t -> exists t', stop_drain t = Some t' /\ armed t' = None.
Proof.
  unfold live, stop_drain, Stop. destruct t as [[d|] c]; cbn.
  - intros _. eauto.
  - intros [H | H]; [contradiction|]. subst c. eauto.
Qed.

Lemma resetWatchdog_live (wsh : wsHandler StatusResponse)
      (w : World LocalHeaderCache HeaderCache) :
  live (watchdog wsh) ->
  exists t, armed t = Some DefaultWatchdogTimeout /\
            resetWatchdog (wsh, w) = Done (set_watchdog wsh t, w).
Proof.
  intro H. destruct (stop_drain_live _ H) as (t' & Hs & _).
  exists (Reset t' DefaultWatchdogTimeout). split; [reflexivity|].
  unfold resetWatchdog. now rewrite Hs.
Qed.

Lemma resetWatchdog_exact (wsh : wsHandler StatusResponse)
      (w : World LocalHeaderCache HeaderCache) :
  live (watchdog wsh) ->
  resetWatchdog (wsh, w)
  = Done (set_watchdog wsh
            (mkTimer (Some DefaultWatchdogTimeout)
                     (match armed (watchdog wsh) with
                      | Some _ => C (watchdog wsh)
                      | None => false
                      end)), w).
Proof.
  unfold live, resetWatchdog, stop_drain, Stop, Reset.
  destruct (watchdog wsh) as [[d|] c]; cbn; [reflexivity|].
  intros [H | ->]; [contradiction | reflexivity].
Qed.


(** C10, amended.  A handler without a peer cache whose watchdog is live
    receives [response-header] with a payload that parses: the call
    returns, the watchdog runs again for 150 s, no other field of the
    handler changes, and the world is as before: the local cache, every
    peer cache, the registry and the connection. *)
Theorem rxHeader_pending_peer
        (wsh : wsHandler StatusResponse)
        (w : World LocalHeaderCache HeaderCache)
        (s : list byte) (rmh : RawMessageHeader) :
  remote wsh = None -> live (watchdog wsh) ->
  Deserialize new_RawMessageHeader s = Some (rmh, None) ->
  exists wsh',
    rxHeader hc_Insert lhc_Insert s (wsh, w) = Done (wsh', w) /\
    watchdog wsh'
    = mkTimer (Some DefaultWatchdogTimeout)
              (match armed (watchdog wsh) with
               | Some _ => C (watchdog wsh)
               | None => false
               end) /\
    self wsh' = self wsh /\ remote wsh' = None /\
    tmpStatus wsh' = tmpStatus wsh /\ disconnect wsh' = disconnect wsh /\
    timeTickle wsh' = timeTickle wsh /\ statusTickle wsh' = statusTickle wsh /\
    peersTickle wsh' = peersTickle wsh /\
    at_select wsh' = at_select wsh /\ inbound wsh' = inbound wsh.
Proof.
  intros Hr Hl Hd. unfold rxHeader.
  rewrite Hd, (resetWatchdog_exact wsh w Hl).
  cbn [bind remote set_watchdog]. rewrite Hr.
  eexists. split; [reflexivity|]. cbn. now repeat split.
Qed.

(** After a call of [Disconnect] has returned, a further call does not
    return: the loop is gone, so at the latest the send on [abort]
    blocks. *)
Lemma Disconnect_without_loop (wsh : wsHandler StatusResponse)
      (w : World LocalHeaderCache HeaderCache) :
  at_select wsh = false ->
  exists wsh' w',
    Disconnect (wsh, w) = Blocked (wsh', w') /\
    wsHandlerList w' = wsHandlerList w /\
    trace w' = trace w ++ match disconnect wsh with
                          | Some f => [Called f]
                          | None => []
                          end.
Proof.
  intro Ha. unfold Disconnect, drain_with, send_abort.
  destruct wsh as [sf rm ts dc [[d1|] c1] [[d2|] c2] [[d3|] c3] pt a ib];
    cbn in Ha; subst a; destruct c1, c2, c3, dc as [f|]; cbn;
    do 2 eexists; (split; [reflexivity|]); split; try reflexivity;
    now rewrite ?app_nil_r.
Qed.

Lemma Disconnect_Done (wsh wsh1 : wsHandler StatusResponse)
      (w w1 : World LocalHeaderCache HeaderCache) :
  Disconnect (wsh, w) = Done (wsh1, w1) ->
  at_select wsh = true /\ at_select wsh1 = false /\
  armed (timeTickle wsh1) = None /\ armed (statusTickle wsh1) = None /\
  armed (watchdog wsh1) = None /\
  peersTickle wsh1 = peersTickle wsh /\
  disconnect wsh1 = disconnect wsh /\ self wsh1 = self wsh /\
  trace w1 = trace w ++ match disconnect wsh with
                        | Some f => [Called f]
                        | None => []
                        end /\
  lhc w1 = lhc w /\ hcs w1 = hcs w /\
  exists i, find_from (self wsh) (wsHandlerList w) 0 = Some i /\
            wsHandlerList w1 = swap_remove i (wsHandlerList w).
Proof.
  unfold Disconnect, drain_with, send_abort.
  destruct wsh as [sf rm ts dc [[d1|] c1] [[d2|] c2] [[d3|] c3] pt a ib];
    destruct c1, c2, c3, a, dc as [f|]; cbn; try discriminate;
    destruct (find_from sf (wsHandlerList w) 0) as [i|]; try discriminate;
    intro H; injection H as <- <-; cbn; rewrite ?app_nil_r;
    repeat split; eauto.
Qed.

(** C7, amended.  [Disconnect] is a teardown for one call.  When a call
    returns, the registered callback was run once, [timeTickle],
    [statusTickle] and the watchdog are stopped ([peersTickle] is not
    touched), the event loop has returned and the first entry of the
    handler was removed from the registry.  A second call then does not
    return: it runs the callback once more and blocks, and the registry
    stays as the first call left it. *)
Theorem Disconnect_is_one_shot
        (wsh wsh1 : wsHandler StatusResponse)
        (w w1 : World LocalHeaderCache HeaderCache) :
  Disconnect (wsh, w) = Done (wsh1, w1) ->
  let ran := match disconnect wsh with
             | Some f => [Called f]
             | None => []
             end in
  (trace w1 = trace w ++ ran /\
   armed (timeTickle wsh1) = None /\ armed (statusTickle wsh1) = None /\
   armed (watchdog wsh1) = None /\ peersTickle wsh1 = peersTickle wsh /\
   at_select wsh1 = false /\
   exists i, find_from (self wsh) (wsHandlerList w) 0 = Some i /\
             wsHandlerList w1 = swap_remove i (wsHandlerList w)) /\
  exists wsh2 w2,
    Disconnect (wsh1, w1) = Blocked (wsh2, w2) /\
    wsHandlerList w2 = wsHandlerList w1 /\
    trace w2 = trace w ++ ran ++ ran.
Proof.
  intros H ran.
  destruct (Disconnect_Done _ _ _ _ H)
    as (_ & Ha & Ht & Hs & Hw & Hp & Hd & _ & Htr & _ & _ & Hi).
  split; [now repeat split|].
  destruct (Disconnect_without_loop wsh1 w1 Ha) as (wsh2 & w2 & HB & HL & HT).
  exists wsh2, w2. repeat split; try assumption.
  rewrite HT, Hd, Htr. subst ran. now rewrite app_assoc.
Qed.

End HandlerFacts.


Lemma rxHeader_pending_peer_witness :
  exists wsh',
    rxHeader CacheModel.Insert CacheModel.Insert v1_string
             (fst inbound0, snd inbound0)
    = Done (wsh', snd inbound0) /\
    watchdog wsh'
    = mkTimer (Some DefaultWatchdogTimeout)
              (match armed (watchdog (fst inbound0)) with
               | Some _ => C (watchdog (fst inbound0))
               | None => false
               end) /\
    self wsh' = self (fst inbound0) /\ remote wsh' = None /\
    tmpStatus wsh' = tmpStatus (fst inbound0) /\
    disconnect wsh' = disconnect (fst inbound0) /\
    timeTickle wsh' = timeTickle (fst inbound0) /\
    statusTickle wsh' = statusTickle (fst inbound0) /\
    peersTickle wsh' = peersTickle (fst inbound0) /\
    at_select wsh' = at_select (fst inbound0) /\
    inbound wsh' = inbound (fst inbound0).
Proof.
  apply (rxHeader_pending_peer CacheModel.Insert CacheModel.Insert
           (fst inbound0) (snd inbound0) v1_string v1_header).
  - reflexivity.
  - left. discriminate.
  - vm_compute. reflexivity.
Defined.


(** C10 as stated fails in the same way for a handler without a peer
    cache whose watchdog has expired: the call blocks and the watchdog is
    not reset. *)
Lemma pending_rxHeader_blocks_after_expiry :
  eventLoop WatchdogC inbound_due = Some (Blocked inbound_expired) /\
  remote (fst inbound_expired) = None /\
  Deserialize new_RawMessageHeader v1_string = Some (v1_header, None) /\
  rxHeader CacheModel.Insert CacheModel.Insert v1_string inbound_expired
  = Blocked inbound_expired.
Proof. repeat split; vm_compute; reflexivity. Qed.

Lemma Disconnect_is_one_shot_witness :
  let ran := match disconnect (fst with_callback) with
             | Some f => [Called f]
             | None => []
             end in
  (trace (snd after_disconnect) = trace (snd with_callback) ++ ran /\
   armed (timeTickle (fst after_disconnect)) = None /\
   armed (statusTickle (fst after_disconnect)) = None /\
   armed (watchdog (fst after_disconnect)) = None /\
   peersTickle (fst after_disconnect) = peersTickle (fst with_callback) /\
   at_select (fst after_disconnect) = false /\
   exists i,
     find_from (self (fst with_callback))
               (wsHandlerList (snd with_callback)) 0 = Some i /\
     wsHandlerList (snd after_disconnect)
     = swap_remove i (wsHandlerList (snd with_callback))) /\
  exists wsh2 w2,
    Disconnect (fst after_disconnect, snd after_disconnect)
    = Blocked (wsh2, w2) /\
    wsHandlerList w2 = wsHandlerList (snd after_disconnect) /\
    trace w2 = trace (snd with_callback) ++ ran ++ ran.
Proof.
  apply (Disconnect_is_one_shot (fst with_callback) (fst after_disconnect)
           (snd with_callback) (snd after_disconnect)).
  vm_compute. reflexivity.
Defined.

(** C7 as stated fails: after a first call has returned, the second call
    blocks, and by then the callback has run twice. *)
Lemma second_Disconnect_blocks :
  Disconnect with_callback = Done after_disconnect /\
  exists st2,
    Disconnect after_disconnect = Blocked st2 /\
    trace (snd st2) = [Called 7; Called 7].
Proof.
  split; [vm_compute; reflexivity|]. eexists. split; vm_compute; reflexivity.
Qed.

(** C8 on the code.  When the tick of [peersTickle] is taken by the event
    loop, [request-peers] is emitted and it is [statusTickle] that is set
    to 300 s again; [peersTickle] stays stopped with an empty channel, so
    the loop cannot take its case any more. *)
Theorem peersTickle_fires_once
        {LocalHeaderCache HeaderCache StatusResponse : Type}
        (wsh : wsHandler StatusResponse)
        (w : World LocalHeaderCache HeaderCache) :
  at_select wsh = true -> peersTickle wsh = mkTimer None true ->
  exists wsh' w',
    eventLoop PeersTickleC (wsh, w) = Some (Done (wsh', w')) /\
    trace w' = trace w ++ [Emit "request-peers" (PInt 0)] /\
    peersTickle wsh' = mkTimer None false /\
    statusTickle wsh' = mkTimer (Some DefaultStatusTickle)
                                (C (statusTickle wsh)) /\
    timeTickle wsh' = timeTickle wsh /\ watchdog wsh' = watchdog wsh /\
    at_select wsh' = true /\
    eventLoop PeersTickleC (wsh', w') = None.
Proof.
  intros Ha Hp. unfold eventLoop. rewrite Ha, Hp. cbn.
  do 2 eexists. split; [reflexivity|]. cbn. rewrite Ha. now repeat split.
Qed.

Lemma peersTickle_fires_once_witness :
  exists wsh' w',
    eventLoop PeersTickleC (fst peers_due, snd peers_due)
    = Some (Done (wsh', w')) /\
    trace w' = trace (snd peers_due) ++ [Emit "request-peers" (PInt 0)] /\
    peersTickle wsh' = mkTimer None false /\
    statusTickle wsh' = mkTimer (Some DefaultStatusTickle)
                                (C (statusTickle (fst peers_due))) /\
    timeTickle wsh' = timeTickle (fst peers_due) /\
    watchdog wsh' = watchdog (fst peers_due) /\
    at_select wsh' = true /\
    eventLoop PeersTickleC (wsh', w') = None.
Proof.
  apply (peersTickle_fires_once (fst peers_due) (snd peers_due));
    reflexivity.
Defined.

End WSFacts.

(** * The remaining methods of the header *)

Module HeaderExtFacts.

Import GoLib Header Format HeaderExt Examples Examples2 GoLibFacts HeaderFacts.
Local Open Scope N_scope.

(** ** The byte form of a header *)

Lemma length_copy (dst src : list byte) :
  (length src <= length dst)%nat -> length (copy dst src) = length dst.
Proof.
  intro H. unfold copy. rewrite length_app, length_firstn, length_skipn. lia.
Qed.

Lemma sum_blobs_sized (h : RawMessageHeader) :
  sized h ->
  (length (keyI h) + length (keyJ h) + length (keyK h)
   + length (sig_r h) + length (sig_s h) = 163)%nat.
Proof. intros (-> & -> & -> & -> & ->). reflexivity. Qed.

(** The only test [Serialize] makes is on the length of what it has
    assembled, which depends on the total size of the five blobs. *)
Lemma Serialize_total (h : RawMessageHeader) :
  ((exists s, Serialize h = Some s) <->
   (length (keyI h) + length (keyJ h) + length (keyK h)
    + length (sig_r h) + length (sig_s h) = 163)%nat) /\
  (forall s, Serialize h = Some s ->
             length s = if bytes_eqb (version h) (str "0100")
                        then 354%nat else 256%nat).
Proof.
  unfold Serialize.
  destruct (bytes_eqb (version h) (str "0100")) eqn:Ev.
  - apply bytes_eqb_eq in Ev. unfold serializeV1. rewrite Ev. cbv zeta.
    match goal with
    | |- context [negb (length ?ss =? _)%nat] =>
        assert (L : length ss
                    = (28 + 2 * (length (keyI h) + length (keyJ h)
                                 + length (keyK h) + length (sig_r h)
                                 + length (sig_s h)))%nat)
    end.
    { rewrite !length_app, !length_EncodeToString. unfold fmt_08X.
      rewrite !length_hex_digits_upper. cbn [length str]. simpl. lia. }
    rewrite L. unfold MessageHeaderLengthV1.
    destruct (Nat.eqb_spec
                (28 + 2 * (length (keyI h) + length (keyJ h) + length (keyK h)
                           + length (sig_r h) + length (sig_s h)))
                (5 + 1 + 8 + 1 + 8 + 1 + 66 + 1 + 66 + 1 + 66 + 1 + 64 + 1 + 64))
      as [E|E]; cbn [negb]; cbv iota.
    + split.
      * split; [intros _; simpl in E; lia | intros _; eauto].
      * match goal with
        | |- forall s, Some ?x = Some s -> _ =>
            assert (Hlen : length x = 354%nat)
        end.
        { rewrite length_copy; [apply length_make|].
          rewrite length_make, L, E. reflexivity. }
        intros s H. congruence.
    + split.
      * split; [intros [s H]; discriminate | intro H; simpl in E; lia].
      * intros s H. discriminate.
  - unfold serializeV2, exportBinaryHeaderV2. cbv zeta.
    match goal with
    | |- context [negb (length ?buf =? _)%nat] =>
        assert (L : length buf
                    = (29 + (length (keyI h) + length (keyJ h)
                             + length (keyK h) + length (sig_r h)
                             + length (sig_s h)))%nat)
    end.
    { rewrite !length_app, !length_PutUint32, length_PutUint64.
      cbn [length magicV2]. lia. }
    rewrite L. unfold MessageHeaderLengthV2.
    destruct (Nat.eqb_spec
                (29 + (length (keyI h) + length (keyJ h) + length (keyK h)
                       + length (sig_r h) + length (sig_s h))) 192)
      as [E|E]; cbn [negb]; cbv iota.
    + split.
      * split; [intros _; lia | intros _; eauto].
      * match goal with
        | |- forall s, Some ?x = Some s -> _ =>
            assert (Hlen : length x = 256%nat)
        end.
        { rewrite length_copy; [apply length_make|].
          rewrite length_copy; [rewrite length_make; reflexivity|].
          match goal with
          | |- (length (Encode ?b) <= _)%nat =>
              destruct (Encode_full 64 b) as (_ & _ & ->);
                [|rewrite length_make; reflexivity]
          end.
          rewrite length_copy; [apply length_make|].
          rewrite length_make, L, E. reflexivity. }
        intros s H. congruence.
    + split.
      * split; [intros [s H]; discriminate | intro H; lia].
      * intros s H. discriminate.
Qed.

(** X1.  [Serialize] returns exactly when the five blobs have 163 bytes in
    all, whatever their individual sizes; the string then has 354
    characters for version 0100 and 256 otherwise.  With any other total
    it panics. *)
Theorem Serialize_returns_iff (h : RawMessageHeader) :
  let total := (length (keyI h) + length (keyJ h) + length (keyK h)
                + length (sig_r h) + length (sig_s h))%nat in
  match Serialize h with
  | Some s =>
      total = 163%nat /\
      length s = if bytes_eqb (version h) (str "0100")
                 then 354%nat else 256%nat
  | None => total <> 163%nat
  end.
Proof.
  intro total. destruct (Serialize_total h) as [[H1 H2] H3].
  destruct (Serialize h) as [s|].
  - split; [apply H1; eauto | now apply H3].
  - intro E. destruct (H2 E). discriminate.
Qed.

Lemma Serialize_returns_iff_witness :
  let total := (length (keyI v2_header_shifted)
                + length (keyJ v2_header_shifted)
                + length (keyK v2_header_shifted)
                + length (sig_r v2_header_shifted)
                + length (sig_s v2_header_shifted))%nat in
  match Serialize v2_header_shifted with
  | Some s =>
      total = 163%nat /\
      length s = if bytes_eqb (version v2_header_shifted) (str "0100")
                 then 354%nat else 256%nat
  | None => total <> 163%nat
  end.
Proof. exact (Serialize_returns_iff v2_header_shifted). Defined.

(** [importBinaryHeaderV2] on the 192 bytes [exportBinaryHeaderV2]
    writes. *)
Lemma import_export_layout (h z : RawMessageHeader) :
  sized h -> typed h ->
  importBinaryHeaderV2 z
    (layout (PutUint32 (time h)) (PutUint32 (expire h))
            (keyI h) (keyJ h) (keyK h)
            (PutUint32 (blocklen h)) (PutUint64 (reserved h))
            (sig_r h) (sig_s h)
            [byte_of_N (N.shiftr (nonce h) 32)]
            (PutUint32 (uint32 (N.land (nonce h) 4294967295))))
  = (mkRaw (str "0200") (time h) (expire h) (keyI h) (keyJ h) (keyK h)
           (blocklen h) (reserved h) (sig_r h) (sig_s h)
           (nonce h mod 2 ^ 40), None).
Proof.
  intros (HI & HJ & HK & Hsr & Hss) (Ht & He & Hb & Hr & Hn).
  rewrite import_long;
    [| apply length_layout; assumption || reflexivity
     | now apply layout_magic].
  rewrite layout_time, layout_expire, layout_I, layout_J, layout_K,
    layout_blocklen, layout_reserved, layout_r, layout_s, layout_nonce8,
    layout_nonce32 by (assumption || reflexivity).
  rewrite !Uint32_PutUint32, Uint64_PutUint64 by assumption.
  cbn [nth].
  rewrite nonce_of_bytes
    by (rewrite Uint32_PutUint32_mod; apply N.mod_lt; discriminate).
  now rewrite bytes_of_nonce.
Qed.

(** X2.  The byte form round trip.  For a representable header of version
    0100 or 0200 with blobs of the sizes of the data model,
    [ExportBytes] returns bytes that [ImportBytes] reads back, into a
    fresh header, as the header itself. *)
Theorem ImportBytes_ExportBytes (h : RawMessageHeader) :
  sized h -> typed h -> representable h ->
  exists b, ExportBytes h = Some b /\
            ImportBytes new_RawMessageHeader b = Some (h, None).
Proof.
  intros Hs Ht [(Hv & Hb & Hr & Hn) | (Hv & Hn)].
  - destruct (serialize_deserialize_v1 h new_RawMessageHeader Hv Hs)
      as (s & HS & HD); try apply Ht.
    exists s. unfold ExportBytes, SerializeV1. rewrite Hv, bytes_eqb_refl.
    unfold Serialize in HS. rewrite Hv, bytes_eqb_refl in HS.
    split; [exact HS|].
    rewrite (serializeV1_v1_text h Hv Hs) in HS. injection HS as <-.
    unfold ImportBytes. unfold Deserialize in HD.
    match goal with
    | |- context [v1_text ?t ?e ?i ?j ?k ?r ?s] =>
        destruct (v1_text_prefixed t e i j k r s) as [E1 E2]
    end.
    rewrite E1, E2 in *. rewrite bytes_eqb_refl in *.
    rewrite HD. cbn [blocklen reserved nonce new_RawMessageHeader].
    destruct h; cbn in *. now subst.
  - exists (layout (PutUint32 (time h)) (PutUint32 (expire h))
                   (keyI h) (keyJ h) (keyK h)
                   (PutUint32 (blocklen h)) (PutUint64 (reserved h))
                   (sig_r h) (sig_s h)
                   [byte_of_N (N.shiftr (nonce h) 32)]
                   (PutUint32 (uint32 (N.land (nonce h) 4294967295)))).
    unfold ExportBytes. rewrite Hv.
    change (bytes_eqb (str "0200") (str "0100")) with false. cbv iota.
    split; [now apply exportBinaryHeaderV2_sized|].
    unfold ImportBytes.
    pose proof Hs as (HI & HJ & HK & Hsr & Hss).
    rewrite length_layout by (assumption || reflexivity).
    change (192 <? 3)%nat with false. cbv iota.
    replace (bytes_eqb (slice 0 3 _) (str "M01")) with false by reflexivity.
    rewrite import_export_layout by assumption.
    rewrite N.mod_small by assumption. destruct h; cbn in *. now subst.
Qed.

Lemma ImportBytes_ExportBytes_witness :
  exists b, ExportBytes v2_header = Some b /\
            ImportBytes new_RawMessageHeader b = Some (v2_header, None).
Proof.
  apply (ImportBytes_ExportBytes v2_header).
  - repeat split; reflexivity.
  - repeat split; reflexivity.
  - right. split; reflexivity.
Defined.

Lemma slice_app_l (a b : nat) (l t : list byte) :
  (b <= length l)%nat -> slice a b (l ++ t) = slice a b l.
Proof.
  intro H. unfold slice. rewrite skipn_app, firstn_app, length_skipn.
  replace (b - a - (length l - a))%nat with 0%nat by lia.
  cbn [firstn]. apply app_nil_r.
Qed.

(** X3.  What follows the 192 bytes of a long header is not looked at:
    [ImportBytes] on a header followed by a message body gives what it
    gives on the header. *)
Theorem ImportBytes_ignores_body (z : RawMessageHeader) (bmh body : list byte) :
  length bmh = 192%nat ->
  bytes_eqb (slice 0 3 bmh) (str "M01") = false ->
  ImportBytes z (bmh ++ body) = ImportBytes z bmh.
Proof.
  intros Hl Hp. unfold ImportBytes.
  rewrite length_app, Hl, slice_app_l, Hp by lia.
  change (192 <? 3)%nat with false.
  replace (192 + length body <? 3)%nat with false
    by (symmetry; apply Nat.ltb_ge; lia).
  cbv iota. f_equal. unfold importBinaryHeaderV2.
  rewrite length_app, Hl, !slice_app_l by lia.
  change (192 <? ShortMessageHeaderLengthV2)%nat with false.
  change (MessageHeaderLengthV2 <=? 192)%nat with true.
  replace (192 + length body <? ShortMessageHeaderLengthV2)%nat with false
    by (symmetry; apply Nat.ltb_ge; unfold ShortMessageHeaderLengthV2; lia).
  replace (MessageHeaderLengthV2 <=? 192 + length body)%nat with true
    by (symmetry; apply Nat.leb_le; unfold MessageHeaderLengthV2; lia).
  reflexivity.
Qed.

Lemma ImportBytes_ignores_body_witness :
  ImportBytes new_RawMessageHeader (v2_bytes ++ [x01; x02; x03])
  = ImportBytes new_RawMessageHeader v2_bytes.
Proof.
  apply (ImportBytes_ignores_body new_RawMessageHeader v2_bytes [x01; x02; x03]);
    reflexivity.
Defined.

(** X4.  Of a string that does not start with M01 and has at least 256
    characters, [Deserialize] reads the first 256 only. *)
Theorem Deserialize_reads_256 (z : RawMessageHeader) (s t : list byte) :
  length s = 256%nat ->
  bytes_eqb (slice 0 3 s) (str "M01") = false ->
  Deserialize z (s ++ t) = Deserialize z s.
Proof.
  intros Hl Hp. unfold Deserialize.
  rewrite length_app, Hl, slice_app_l, Hp by lia.
  change (256 <? 3)%nat with false.
  replace (256 + length t <? 3)%nat with false
    by (symmetry; apply Nat.ltb_ge; lia).
  cbv iota. f_equal. unfold deserializeV2.
  rewrite length_app, Hl.
  change (256 <? ShortMessageHeaderLengthB64V2)%nat with false.
  change (MessageHeaderLengthB64V2 <=? 256)%nat with true.
  replace (256 + length t <? ShortMessageHeaderLengthB64V2)%nat with false
    by (symmetry; apply Nat.ltb_ge; unfold ShortMessageHeaderLengthB64V2; lia).
  replace (MessageHeaderLengthB64V2 <=? 256 + length t)%nat with true
    by (symmetry; apply Nat.leb_le; unfold MessageHeaderLengthB64V2; lia).
  cbv iota. rewrite slice_app_l by (unfold MessageHeaderLengthB64V2; lia).
  reflexivity.
Qed.

Lemma Deserialize_reads_256_witness :
  Deserialize new_RawMessageHeader (v2_long_string ++ str "tail")
  = Deserialize new_RawMessageHeader v2_long_string.
Proof.
  apply (Deserialize_reads_256 new_RawMessageHeader v2_long_string (str "tail"));
    reflexivity.
Defined.

(** X5.  A header read from a valid short v2 text into a fresh header can
    not be serialized: [Serialize] panics on it, and so does whatever
    sends it on. *)
Theorem short_form_never_serializes (s : list byte) (h : RawMessageHeader) :
  valid_v2_short s ->
  Deserialize new_RawMessageHeader s = Some (h, None) ->
  Serialize h = None.
Proof.
  intros (Hl & Hs & Hm) Hd.
  destruct (deserializeV2_digits new_RawMessageHeader s 41)
    as (smh & Hdec & He & Hb & HD); try assumption; [now left|].
  rewrite Hdec in Hm. cbn [fst] in Hm.
  unfold Deserialize in Hd. rewrite Hl in Hd.
  change (ShortMessageHeaderLengthB64V2 <? 3)%nat with false in Hd.
  cbv iota in Hd. rewrite <- He in Hd at 1.
  rewrite Encode_not_v1 in Hd by (assumption || lia).
  rewrite HD, (import_short _ smh Hb Hm) in Hd. injection Hd as <-.
  destruct (Serialize _) as [x|] eqn:E; [|reflexivity]. exfalso.
  assert (Ex : exists x, Serialize
    (mkRaw (str "0200") (Uint32 (slice 4 8 smh)) (Uint32 (slice 8 12 smh))
           (slice 12 45 smh) (slice 45 78 smh) (slice 78 111 smh)
           (Uint32 (slice 111 115 smh)) (Uint64 (slice 115 123 smh))
           (sig_r new_RawMessageHeader) (sig_s new_RawMessageHeader)
           (nonce new_RawMessageHeader)) = Some x) by eauto.
  apply (proj1 (proj1 (Serialize_total _))) in Ex.
  cbn [keyI keyJ keyK sig_r sig_s new_RawMessageHeader length] in Ex.
  rewrite !length_slice in Ex by lia. discriminate.
Qed.

Lemma short_form_never_serializes_witness :
  Serialize (mkRaw (str "0200") 0x585C9E80 0x5860F980
                   (x02 :: repeat xab 32) (repeat x03 33) (repeat xff 33)
                   7 0 [] [] 0) = None.
Proof.
  apply (short_form_never_serializes v2_short_string).
  - split; [reflexivity|]. split; [|vm_compute; reflexivity].
    apply Forall_by_forallb. vm_compute. reflexivity.
  - vm_compute. reflexivity.
Defined.

(** ** The database keys *)

Lemma fromHexChar_upper_all :
  forallb (fun n => match fromHexChar (nth n upperhex x00) with
                    | Some w => w =? N.of_nat n
                    | None => false
                    end) (seq 0 16) = true.
Proof. vm_compute. reflexivity. Qed.

Lemma fromHexChar_upper (v : N) :
  v < 16 -> fromHexChar (nth (N.to_nat v) upperhex x00) = Some v.
Proof.
  intro H. pose proof fromHexChar_upper_all as A.
  rewrite forallb_forall in A. specialize (A (N.to_nat v)).
  rewrite N2Nat.id in A.
  destruct (fromHexChar (nth (N.to_nat v) upperhex x00)) as [w|].
  - f_equal. apply N.eqb_eq. apply A. apply in_seq. lia.
  - discriminate A. apply in_seq. lia.
Qed.

Lemma hex_Decode_app (a b x : list byte) :
  hex_Decode a = Some x ->
  hex_Decode (a ++ b) = option_map (app x) (hex_Decode b).
Proof.
  assert (G : forall n a x, (length a <= n)%nat -> hex_Decode a = Some x ->
              hex_Decode (a ++ b) = option_map (app x) (hex_Decode b)).
  { clear a x. induction n as [|n IH]; intros a x Hn H.
    - destruct a; [|simpl in Hn; lia]. injection H as <-.
      cbn [app]. now destruct (hex_Decode b).
    - destruct a as [|c1 [|c2 a]]; try discriminate.
      + injection H as <-. cbn [app]. now destruct (hex_Decode b).
      + cbn [hex_Decode app] in *. cbn [length] in Hn.
        destruct (fromHexChar c1) as [p|]; [|discriminate].
        destruct (fromHexChar c2) as [q|]; [|discriminate].
        destruct (hex_Decode a) as [t|] eqn:Ea; [|discriminate].
        injection H as <-. rewrite (IH a t) by (lia || exact Ea).
        now destruct (hex_Decode b). }
  intro H. now apply (G (length a)).
Qed.

(** Two upper-case digits more decode to one byte more. *)
Lemma hex_Decode_digits (k : nat) (v : N) (x : list byte) :
  hex_Decode (hex_digits_upper k (v / 256)) = Some x ->
  hex_Decode (hex_digits_upper (Datatypes.S (Datatypes.S k)) v)
  = Some (x ++ [byte_of_N v]).
Proof.
  intro H. cbn [hex_digits_upper].
  replace (v / 16 / 16) with (v / 256) by lia.
  rewrite <- app_assoc. rewrite (hex_Decode_app _ _ x H).
  cbn [app hex_Decode].
  rewrite !fromHexChar_upper by (apply N.mod_lt; discriminate).
  cbn [option_map]. do 3 f_equal. apply to_N_inj.
  rewrite !to_N_byte_of_N, N.shiftl_mul_pow2.
  rewrite (lor_disjoint_add 4)
    by (change (2 ^ 4) with 16; try lia; apply N.mod_lt; discriminate).
  change (2 ^ 4) with 16. lia.
Qed.

Lemma hex_Decode_fmt_08X (t : N) :
  hex_Decode (fmt_08X t) = Some (PutUint32 t).
Proof.
  unfold fmt_08X.
  rewrite (hex_Decode_digits 6 t
             [byte_of_N (t / 256 / 256 / 256); byte_of_N (t / 256 / 256);
              byte_of_N (t / 256)]).
  - unfold PutUint32. rewrite !N.shiftr_div_pow2. cbn [app]. f_equal.
    repeat (apply (f_equal2 cons);
            [apply to_N_inj; rewrite !to_N_byte_of_N;
             change (2 ^ 24) with 16777216; change (2 ^ 16) with 65536;
             change (2 ^ 8) with 256; lia|]).
    reflexivity.
  - rewrite (hex_Decode_digits 4 (t / 256)
               [byte_of_N (t / 256 / 256 / 256); byte_of_N (t / 256 / 256)]);
      [reflexivity|].
    rewrite (hex_Decode_digits 2 (t / 256 / 256)
               [byte_of_N (t / 256 / 256 / 256)]); [reflexivity|].
    rewrite (hex_Decode_digits 0 (t / 256 / 256 / 256) []); reflexivity.
Qed.

Lemma DecodeString_key (c1 c2 : byte) (p q : N) (t : N) :
  fromHexChar c1 = Some p -> fromHexChar c2 = Some q ->
  DecodeString ([c1; c2] ++ fmt_08X t)
  = (byte_of_N (N.lor (N.shiftl p 4) q) :: PutUint32 t, None).
Proof.
  intros H1 H2. unfold DecodeString.
  rewrite length_app. unfold fmt_08X at 1.
  rewrite length_hex_digits_upper. cbn [length Nat.add Nat.odd negb Nat.even].
  cbn [app hex_Decode]. rewrite H1, H2, hex_Decode_fmt_08X. reflexivity.
Qed.

Lemma Sprintf_key_D0 (t : N) :
  DecodeString (Sprintf_key "D0" t) = (xd0 :: PutUint32 t, None).
Proof.
  unfold Sprintf_key. change (str "D0") with ["D"%byte; "0"%byte].
  now rewrite (DecodeString_key "D" "0" 13 0).
Qed.

Lemma Sprintf_key_C0 (t : N) :
  DecodeString (Sprintf_key "C0" t) = (xc0 :: PutUint32 t, None).
Proof.
  unfold Sprintf_key. change (str "C0") with ["C"%byte; "0"%byte].
  now rewrite (DecodeString_key "C" "0" 12 0).
Qed.

Lemma Sprintf_key_E0 (t : N) :
  DecodeString (Sprintf_key "E0" t) = (xe0 :: PutUint32 t, None).
Proof.
  unfold Sprintf_key. change (str "E0") with ["E"%byte; "0"%byte].
  now rewrite (DecodeString_key "E" "0" 14 0).
Qed.

(** X6.  [dbKeys] never fails, and its three keys are the prefix byte D0,
    C0 or E0, the big-endian 32 bits of the time, and [I]. *)
Theorem dbKeys_layout (h : RawMessageHeader) (st : N) :
  dbKeys h st
  = (Some (mkDbkeys (xd0 :: PutUint32 (time h) ++ keyI h)
                    (xc0 :: PutUint32 st ++ keyI h)
                    (xe0 :: PutUint32 (expire h) ++ keyI h)
                    (keyI h)), None).
Proof.
  unfold dbKeys. now rewrite Sprintf_key_D0, Sprintf_key_C0, Sprintf_key_E0.
Qed.

Lemma be32_digits (a : N) :
  a < 4294967296 ->
  exists a3 a2 a1 a0,
    a3 < 256 /\ a2 < 256 /\ a1 < 256 /\ a0 < 256 /\
    a = a3 * 16777216 + a2 * 65536 + a1 * 256 + a0 /\
    (a / 16777216) mod 256 = a3 /\ (a / 65536) mod 256 = a2 /\
    (a / 256) mod 256 = a1 /\ a mod 256 = a0.
Proof.
  intro H.
  exists ((a / 16777216) mod 256), ((a / 65536) mod 256),
         ((a / 256) mod 256), (a mod 256).
  repeat split; try (apply N.mod_lt; discriminate). lia.
Qed.

(** Big-endian numbers compare as their bytes do. *)
Lemma lex_ltb_PutUint32 (a b : N) (x y : list byte) :
  a < 2 ^ 32 -> b < 2 ^ 32 ->
  lex_ltb (PutUint32 a ++ x) (PutUint32 b ++ y)
  = (a <? b) || ((a =? b) && lex_ltb x y).
Proof.
  intros Ha Hb. unfold PutUint32. cbn [app lex_ltb].
  rewrite !to_N_byte_of_N, !N.shiftr_div_pow2.
  change (2 ^ 24) with 16777216. change (2 ^ 16) with 65536.
  change (2 ^ 8) with 256. change (2 ^ 32) with 4294967296 in *.
  destruct (be32_digits a Ha)
    as (a3 & a2 & a1 & a0 & A3 & A2 & A1 & A0 & Ea & -> & -> & -> & ->).
  destruct (be32_digits b Hb)
    as (b3 & b2 & b1 & b0 & B3 & B2 & B1 & B0 & Eb & -> & -> & -> & ->).
  clear Ha Hb. subst a b.
  destruct (N.ltb_spec a3 b3).
  { rewrite (proj2 (N.ltb_lt _ _)) by lia. reflexivity. }
  destruct (N.ltb_spec b3 a3).
  { rewrite (proj2 (N.ltb_ge _ _)), (proj2 (N.eqb_neq _ _)) by lia.
    reflexivity. }
  destruct (N.ltb_spec a2 b2).
  { rewrite (proj2 (N.ltb_lt _ _)) by lia. reflexivity. }
  destruct (N.ltb_spec b2 a2).
  { rewrite (proj2 (N.ltb_ge _ _)), (proj2 (N.eqb_neq _ _)) by lia.
    reflexivity. }
  destruct (N.ltb_spec a1 b1).
  { rewrite (proj2 (N.ltb_lt _ _)) by lia. reflexivity. }
  destruct (N.ltb_spec b1 a1).
  { rewrite (proj2 (N.ltb_ge _ _)), (proj2 (N.eqb_neq _ _)) by lia.
    reflexivity. }
  destruct (N.ltb_spec a0 b0).
  { rewrite (proj2 (N.ltb_lt _ _)) by lia. reflexivity. }
  destruct (N.ltb_spec b0 a0).
  { rewrite (proj2 (N.ltb_ge _ _)), (proj2 (N.eqb_neq _ _)) by lia.
    reflexivity. }
  assert (a3 = b3) by lia. assert (a2 = b2) by lia.
  assert (a1 = b1) by lia. assert (a0 = b0) by lia. subst.
  now rewrite N.ltb_irrefl, N.eqb_refl.
Qed.

(** X7.  The byte order of the [date] keys is the order of [Less]: for two
    headers with 32-bit times and 33-byte [I], the key of the first is
    below the key of the second exactly when [Less] says so. *)
Theorem date_key_order (a b : RawMessageHeader) (st : N) :
  time a < 2 ^ 32 -> time b < 2 ^ 32 ->
  length (keyI a) = 33%nat -> length (keyI b) = 33%nat ->
  match fst (dbKeys a st), fst (dbKeys b st) with
  | Some ka, Some kb => Less [a; b] 0 1 = Some (lex_ltb (date ka) (date kb))
  | _, _ => False
  end.
Proof.
  intros Ta Tb La Lb. unfold dbKeys.
  rewrite !Sprintf_key_D0, !Sprintf_key_C0, !Sprintf_key_E0.
  cbv beta iota zeta. cbn [fst date app].
  cbn [lex_ltb]. rewrite N.ltb_irrefl.
  rewrite lex_ltb_PutUint32 by assumption.
  rewrite (Less_key [a; b] 0 1 a b) by (reflexivity || lia).
  unfold key_ltb, sort_key. cbn [fst snd].
  now rewrite !firstn_all2 by lia.
Qed.

Lemma date_key_order_witness :
  match fst (dbKeys v1_header 5), fst (dbKeys v2_header_max_blocklen 5) with
  | Some ka, Some kb =>
      Less [v1_header; v2_header_max_blocklen] 0 1
      = Some (lex_ltb (date ka) (date kb))
  | _, _ => False
  end.
Proof.
  apply (date_key_order v1_header v2_header_max_blocklen 5);
    vm_compute; reflexivity.
Defined.

(** ** Sorting: [Swap] and the panics of [Less] *)

Lemma nth_error_set_at {A} (l : list A) (i j : nat) (v x : A) :
  nth_error l i = Some x ->
  nth_error (set_at j v l) i = if Nat.eqb i j then Some v else Some x.
Proof.
  revert i j. induction l as [|y l IH]; intros [|i] [|j] H;
    try discriminate; cbn in *; try assumption; try reflexivity.
  now apply IH.
Qed.

(** A serialized representable header deserializes to itself in a
    receiver that holds a header of the same version. *)
Lemma Deserialize_Serialize_into (h r : RawMessageHeader) :
  sized h -> typed h -> representable h -> representable r ->
  version r = version h ->
  exists s, Serialize h = Some s /\ Deserialize r s = Some (h, None).
Proof.
  intros Hs Ht [(Hv & Hb & Hr & Hn) | (Hv & Hn)] Rr Ev.
  - destruct (serialize_deserialize_v1 h r Hv Hs) as (s & HS & HD);
      try apply Ht.
    exists s. split; [exact HS|]. rewrite HD.
    destruct Rr as [(_ & Rb & Rrs & Rn) | (Rv & _)].
    + rewrite Rb, Rrs, Rn. destruct h; cbn in *. now subst.
    + rewrite Ev, Hv in Rv. discriminate.
  - destruct (serialize_deserialize_v2 h r Hv Hs Ht) as (s & HS & HD).
    exists s. split; [exact HS|]. rewrite HD, N.mod_small by assumption.
    now destruct h.
Qed.

(** X8.  On two representable headers of the same version with blobs of
    the sizes of the data model, [Swap] exchanges the two entries and
    leaves the others. *)
Theorem Swap_exchanges (z : list RawMessageHeader) (i j : nat)
        (a b : RawMessageHeader) :
  nth_error z i = Some a -> nth_error z j = Some b ->
  sized a -> typed a -> representable a ->
  sized b -> typed b -> representable b ->
  version a = version b ->
  Swap z i j = Some (set_at i b (set_at j a z)).
Proof.
  intros Hi Hj Sa Ta Ra Sb Tb Rb Ev. unfold Swap. rewrite Hi, Hj.
  destruct (Deserialize_Serialize_into a b Sa Ta Ra Rb (eq_sym Ev))
    as (t1 & S1 & D1).
  destruct (Deserialize_Serialize_into b a Sb Tb Rb Ra Ev)
    as (t2 & S2 & D2).
  rewrite S1, S2, D1.
  rewrite (nth_error_set_at z i j a a Hi).
  destruct (Nat.eqb i j); now rewrite D2.
Qed.

Lemma Swap_exchanges_witness :
  Swap [v2_header; v2_header_max_blocklen; v1_header] 0 1
  = Some (set_at 0 v2_header_max_blocklen
            (set_at 1 v2_header
               [v2_header; v2_header_max_blocklen; v1_header])).
Proof.
  apply (Swap_exchanges [v2_header; v2_header_max_blocklen; v1_header] 0 1
           v2_header v2_header_max_blocklen);
    try reflexivity; try (repeat split; reflexivity);
    right; split; reflexivity.
Defined.

Lemma Less_loop_short (n x : nat) (Ia Ib : list byte) :
  let k := Nat.min (length Ia) (length Ib) in
  (x <= k)%nat -> (k < x + n)%nat ->
  firstn k Ia = firstn k Ib ->
  Less_loop n x Ia Ib = None.
Proof.
  intros k. revert x. induction n as [|n IH]; intros x Hx H E; [lia|].
  cbn [Less_loop].
  destruct (nth_error Ia x) as [p|] eqn:Ep; [|reflexivity].
  destruct (nth_error Ib x) as [q|] eqn:Eq; [|reflexivity].
  assert (x < length Ia)%nat by (apply nth_error_Some; congruence).
  assert (x < length Ib)%nat by (apply nth_error_Some; congruence).
  assert (Hk : (x < k)%nat) by (unfold k; lia).
  assert (Epq : p = q).
  { pose proof (nth_error_firstn k Ia x) as Fa.
    pose proof (nth_error_firstn k Ib x) as Fb.
    rewrite (proj2 (Nat.ltb_lt _ _) Hk) in Fa, Fb.
    rewrite E in Fa. congruence. }
  subst q. rewrite N.ltb_irrefl. apply IH; [lia | lia | exact E].
Qed.

(** X9.  [Less] panics on two headers of equal time when one [I] has fewer
    than 33 bytes and agrees with the other as far as it goes: the loop
    indexes both up to 32 without looking at their lengths.
    ([deserializeV1] accepts an [I] of any length.) *)
Theorem Less_short_I (z : list RawMessageHeader) (i j : nat)
        (a b : RawMessageHeader) :
  let k := Nat.min (length (keyI a)) (length (keyI b)) in
  nth_error z i = Some a -> nth_error z j = Some b ->
  time a = time b -> (k < 33)%nat ->
  firstn k (keyI a) = firstn k (keyI b) ->
  Less z i j = None.
Proof.
  intros k Hi Hj Et Hk E. unfold Less. rewrite Hi, Hj, Et, N.ltb_irrefl.
  apply Less_loop_short; fold k; [lia | lia | exact E].
Qed.

Lemma Less_short_I_witness :
  Less [set_I v1_header_empty [x07]; set_I v1_header_empty [x07; x01]] 0 1
  = None.
Proof.
  apply (Less_short_I
           [set_I v1_header_empty [x07]; set_I v1_header_empty [x07; x01]]
           0 1 (set_I v1_header_empty [x07])
           (set_I v1_header_empty [x07; x01])); try reflexivity.
  cbn. lia.
Defined.

(** ** Big integers and [FullMessageHeader] *)

Lemma value_snoc (b : list byte) (c : byte) :
  value_of (b ++ [c]) = value_of b * 256 + to_N c.
Proof. unfold value_of. now rewrite fold_left_app. Qed.

Lemma pow256_succ (n : nat) :
  256 ^ N.of_nat (Datatypes.S n) = 256 * 256 ^ N.of_nat n.
Proof. rewrite Nat2N.inj_succ. apply N.pow_succ_r'. Qed.

Lemma pow2_succ (n : nat) :
  2 ^ N.of_nat (Datatypes.S n) = 2 * 2 ^ N.of_nat n.
Proof. rewrite Nat2N.inj_succ. apply N.pow_succ_r'. Qed.

Lemma pow_pos (a : N) (n : nat) : 0 < a -> 0 < a ^ N.of_nat n.
Proof.
  intro H. assert (a ^ N.of_nat n <> 0) by (apply N.pow_nonzero; lia). lia.
Qed.

Lemma value_lt (b : list byte) : value_of b < 256 ^ N.of_nat (length b).
Proof.
  induction b as [|c b IH] using rev_ind; [reflexivity|].
  rewrite value_snoc, length_app, Nat.add_1_r, pow256_succ.
  pose proof (to_N_lt c). lia.
Qed.

Lemma value_inj (a b : list byte) :
  length a = length b -> value_of a = value_of b -> a = b.
Proof.
  revert b. induction a as [|x a IH] using rev_ind; intros b Hl Hv.
  - destruct b; [reflexivity | discriminate].
  - destruct b as [|y b] using rev_ind.
    + rewrite length_app in Hl. simpl in Hl. lia.
    + clear IHb. rewrite !length_app in Hl. simpl in Hl.
      rewrite !value_snoc in Hv.
      pose proof (to_N_lt x). pose proof (to_N_lt y).
      assert (to_N x = to_N y) by lia.
      assert (value_of a = value_of b) by lia.
      f_equal; [apply IH; [lia | assumption]|].
      f_equal. now apply to_N_inj.
Qed.

Lemma value_zeros (k : nat) (b : list byte) :
  value_of (repeat x00 k ++ b) = value_of b.
Proof.
  unfold value_of. rewrite fold_left_app. f_equal.
  induction k as [|k IH]; [reflexivity|]. cbn [repeat fold_left]. exact IH.
Qed.

Lemma value_be_bytes (fuel : nat) (x : N) :
  x < 2 ^ N.of_nat fuel -> value_of (be_bytes fuel x) = x.
Proof.
  revert x. induction fuel as [|f IH]; intros x H.
  - simpl in H. assert (x = 0) by lia. now subst.
  - cbn [be_bytes]. destruct (N.eqb_spec x 0) as [->|Hx]; [reflexivity|].
    rewrite pow2_succ in H. pose proof (pow_pos 2 f eq_refl).
    rewrite value_snoc, to_N_byte_of_N, IH by lia. lia.
Qed.

Lemma length_be_bytes_le (fuel n : nat) (x : N) :
  x < 256 ^ N.of_nat n -> (length (be_bytes fuel x) <= n)%nat.
Proof.
  revert n x. induction fuel as [|f IH]; intros n x H; [simpl; lia|].
  cbn [be_bytes]. destruct (N.eqb_spec x 0) as [->|Hx]; [simpl; lia|].
  destruct n as [|n]; [simpl in H; lia|].
  rewrite pow256_succ in H. rewrite length_app. cbn [length].
  specialize (IH n (x / 256)). pose proof (pow_pos 256 n eq_refl).
  assert (x / 256 < 256 ^ N.of_nat n) by lia. apply IH in H1. lia.
Qed.

Lemma length_be_bytes_gt (fuel n : nat) (x : N) :
  x < 2 ^ N.of_nat fuel -> 256 ^ N.of_nat n <= x ->
  (n < length (be_bytes fuel x))%nat.
Proof.
  revert fuel x. induction n as [|n IH]; intros fuel x Hf Hx.
  - simpl in Hx. destruct fuel as [|f]; [simpl in Hf; lia|].
    cbn [be_bytes]. rewrite (proj2 (N.eqb_neq x 0)) by lia.
    rewrite length_app. simpl. lia.
  - rewrite pow256_succ in Hx. pose proof (pow_pos 256 n eq_refl).
    destruct fuel as [|f]; [simpl in Hf; lia|].
    rewrite pow2_succ in Hf. pose proof (pow_pos 2 f eq_refl).
    cbn [be_bytes]. rewrite (proj2 (N.eqb_neq x 0)) by lia.
    rewrite length_app. cbn [length].
    specialize (IH f (x / 256)).
    assert (n < length (be_bytes f (x / 256)))%nat by (apply IH; lia). lia.
Qed.

Lemma firstn_zeros (k n : nat) :
  (k <= n)%nat -> firstn k (repeat x00 n) = repeat x00 k.
Proof.
  revert n. induction k as [|k IH]; intros [|n] H; try reflexivity; [lia|].
  cbn [repeat firstn]. f_equal. apply IH. lia.
Qed.

Lemma skipn_zeros (k n : nat) : skipn k (repeat x00 n) = repeat x00 (n - k).
Proof.
  revert n. induction k as [|k IH]; intros [|n]; try reflexivity.
  cbn [repeat skipn]. apply IH.
Qed.

Lemma fuel_enough (x : N) : x < 2 ^ N.of_nat (N.to_nat (N.size x)).
Proof. rewrite N2Nat.id. apply N.size_gt. Qed.

Lemma pow256_Z (n : nat) :
  (256 ^ Z.of_nat n)%Z = Z.of_N (256 ^ N.of_nat n).
Proof. rewrite N2Z.inj_pow. now rewrite nat_N_Z. Qed.

(** [padbytes] on a number that fits and on one that does not. *)
Lemma padbytes_both (x : Z) (nbyte : nat) :
  ((0 <= x < 256 ^ Z.of_nat nbyte)%Z ->
   length (padbytes x nbyte) = nbyte /\ big_SetBytes (padbytes x nbyte) = x) /\
  ((x < 0 \/ 256 ^ Z.of_nat nbyte <= x)%Z -> (0 < nbyte)%nat ->
   padbytes x nbyte = []).
Proof.
  pose proof (pow256_Z nbyte) as P.
  unfold padbytes, big_Bytes, big_SetBytes. split.
  - intros [H0 Hx]. rewrite (proj2 (Z.ltb_ge x 0)) by exact H0.
    assert (Hn : Z.abs_N x < 256 ^ N.of_nat nbyte) by lia.
    pose proof (length_be_bytes_le (N.to_nat (N.size (Z.abs_N x))) nbyte _ Hn)
      as Hl.
    pose proof (value_be_bytes _ _ (fuel_enough (Z.abs_N x))) as Hv.
    set (ls := be_bytes (N.to_nat (N.size (Z.abs_N x))) (Z.abs_N x)) in *.
    rewrite (proj2 (Nat.ltb_ge _ _)) by exact Hl.
    destruct (Nat.eqb_spec (length ls) nbyte) as [E|E].
    + split; [exact E|]. rewrite Hv. lia.
    + unfold make. rewrite firstn_zeros, skipn_zeros by lia.
      replace (nbyte - (nbyte - length ls))%nat with (length ls) by lia.
      rewrite copy_full by (now rewrite repeat_length).
      split.
      * rewrite length_app, repeat_length. lia.
      * rewrite value_zeros, Hv. lia.
  - intros [H | H] Hpos.
    + now rewrite (proj2 (Z.ltb_lt x 0)) by exact H.
    + destruct (x <? 0)%Z; [reflexivity|].
      assert (Hn : 256 ^ N.of_nat nbyte <= Z.abs_N x) by lia.
      pose proof (length_be_bytes_gt _ nbyte _ (fuel_enough (Z.abs_N x)) Hn)
        as Hl.
      now rewrite (proj2 (Nat.ltb_lt _ _)) by exact Hl.
Qed.

(** X11.  [padbytes] undoes [SetBytes]: the bytes come back with their
    leading zeros. *)
Theorem padbytes_SetBytes (b : list byte) :
  padbytes (big_SetBytes b) (length b) = b.
Proof.
  pose proof (value_lt b) as Hv.
  destruct (proj1 (padbytes_both (big_SetBytes b) (length b))) as [Hl Hs].
  { unfold big_SetBytes. rewrite pow256_Z. lia. }
  apply value_inj; [exact Hl|].
  unfold big_SetBytes in Hs. now apply N2Z.inj.
Qed.

Lemma sync_rmh_sized (z : FullMessageHeader) :
  in_range z -> sized (rmh (sync_rmh z)).
Proof.
  intros (HI & HJ & HK & Hr & Hs). unfold sized, sync_rmh.
  cbn [rmh set_I set_J set_K set_r set_s keyI keyJ keyK sig_r sig_s].
  repeat split; now apply padbytes_both.
Qed.

(** X12.  The big integers of a full header survive [Serialize] followed by
    [Deserialize] into any other full header, with the two times. *)
Theorem Full_Serialize_Deserialize (z z0 : FullMessageHeader) :
  in_range z -> typed (rmh z) ->
  version (rmh z) = str "0100" \/ version (rmh z) = str "0200" ->
  exists s z',
    Full_Serialize z = (sync_rmh z, Some s) /\
    Full_Deserialize z0 s = Some (z', None) /\
    bigI z' = bigI z /\ bigJ z' = bigJ z /\ bigK z' = bigK z /\
    big_r z' = big_r z /\ big_s z' = big_s z /\
    time (rmh z') = time (rmh z) /\ expire (rmh z') = expire (rmh z).
Proof.
  intros Hin Ht Hv.
  pose proof (sync_rmh_sized z Hin) as Hs.
  destruct Hin as (HI & HJ & HK & Hr & Hss).
  assert (Ht' : typed (rmh (sync_rmh z))) by exact Ht.
  assert (E : exists s h,
             Serialize (rmh (sync_rmh z)) = Some s /\
             Deserialize (rmh z0) s = Some (h, None) /\
             keyI h = padbytes (bigI z) 33 /\ keyJ h = padbytes (bigJ z) 33 /\
             keyK h = padbytes (bigK z) 33 /\
             sig_r h = padbytes (big_r z) 32 /\
             sig_s h = padbytes (big_s z) 32 /\
             time h = time (rmh z) /\ expire h = expire (rmh z)).
  { destruct Hv as [Hv | Hv].
    - destruct (serialize_deserialize_v1 (rmh (sync_rmh z)) (rmh z0) Hv Hs)
        as (s & HS & HD); try apply Ht'.
      exists s. eexists. split; [exact HS|]. split; [exact HD|].
      repeat split.
    - destruct (serialize_deserialize_v2 (rmh (sync_rmh z)) (rmh z0) Hv Hs Ht')
        as (s & HS & HD).
      exists s. eexists. split; [exact HS|]. split; [exact HD|].
      repeat split. }
  destruct E as (s & h & HS & HD & EI & EJ & EK & Er & Es & Et & Ee).
  exists s, (load_big z0 h). unfold Full_Serialize, Full_Deserialize.
  rewrite HS, HD. split; [reflexivity|]. split; [reflexivity|].
  unfold load_big. cbn [bigI bigJ bigK big_r big_s rmh].
  rewrite EI, EJ, EK, Er, Es.
  repeat split; try assumption; now apply padbytes_both.
Qed.

Lemma Full_Serialize_Deserialize_witness :
  exists s z',
    Full_Serialize full_header = (sync_rmh full_header, Some s) /\
    Full_Deserialize new_FullMessageHeader s = Some (z', None) /\
    bigI z' = 2%Z /\ bigJ z' = 3%Z /\ bigK z' = 5%Z /\
    big_r z' = 7%Z /\ big_s z' = 11%Z /\
    time (rmh z') = 0x585C9E80 /\ expire (rmh z') = 0x5860F980.
Proof.
  apply (Full_Serialize_Deserialize full_header new_FullMessageHeader).
  - unfold in_range, fits. cbn [full_header bigI bigJ bigK big_r big_s]. lia.
  - repeat split; reflexivity.
  - right. reflexivity.
Defined.

Lemma padbytes_cases (x : Z) (nbyte : nat) :
  (0 < nbyte)%nat ->
  (fits x nbyte /\ length (padbytes x nbyte) = nbyte) \/
  (~ fits x nbyte /\ padbytes x nbyte = []).
Proof.
  intro Hn. unfold fits.
  destruct (Z_lt_dec x 0) as [H0|H0];
    [right; split; [lia | apply padbytes_both; [now left | exact Hn]]|].
  destruct (Z_lt_dec x (256 ^ Z.of_nat nbyte)) as [H1|H1].
  - left. split; [lia|]. apply padbytes_both. lia.
  - right. split; [lia|]. apply padbytes_both; [right; lia | exact Hn].
Qed.

(** X10.  [padbytes] gives the [nbyte]-byte big-endian form of a number
    that fits in [nbyte] bytes, from which [SetBytes] gets the number
    back, and nil for a negative number and for one that does not fit. *)
Theorem padbytes_spec (x : Z) (nbyte : nat) :
  (0 < nbyte)%nat ->
  (fits x nbyte /\ length (padbytes x nbyte) = nbyte /\
   big_SetBytes (padbytes x nbyte) = x) \/
  (~ fits x nbyte /\ padbytes x nbyte = []).
Proof.
  intro Hn. destruct (padbytes_cases x nbyte Hn) as [[F L] | [F L]].
  - left. split; [exact F|]. now apply padbytes_both.
  - right. now split.
Qed.

Lemma padbytes_spec_witness :
  (fits 258 3 /\ length (padbytes 258 3) = 3%nat /\
   big_SetBytes (padbytes 258 3) = 258%Z) \/
  (~ fits 258 3 /\ padbytes 258 3 = []).
Proof. apply (padbytes_spec 258 3). lia. Defined.

(** X13.  A full header one of whose big integers is negative or too wide
    for its field cannot be serialized: [padbytes] returns nil for it and
    [Serialize] panics. *)
Theorem Full_Serialize_out_of_range (z : FullMessageHeader) :
  ~ in_range z -> snd (Full_Serialize z) = None.
Proof.
  intro Hout. unfold Full_Serialize. cbn [snd].
  destruct (Serialize (rmh (sync_rmh z))) as [s|] eqn:E; [|reflexivity].
  exfalso.
  assert (T : exists s, Serialize (rmh (sync_rmh z)) = Some s) by eauto.
  apply (proj1 (Serialize_total _)) in T. revert T.
  unfold sync_rmh.
  cbn [rmh set_I set_J set_K set_r set_s keyI keyJ keyK sig_r sig_s].
  destruct (padbytes_cases (bigI z) 33) as [[FI LI] | [FI LI]]; [lia| |];
  destruct (padbytes_cases (bigJ z) 33) as [[FJ LJ] | [FJ LJ]]; try lia;
  destruct (padbytes_cases (bigK z) 33) as [[FK LK] | [FK LK]]; try lia;
  destruct (padbytes_cases (big_r z) 32) as [[Fr Lr] | [Fr Lr]]; try lia;
  destruct (padbytes_cases (big_s z) 32) as [[Fs Ls] | [Fs Ls]]; try lia;
  rewrite ?LI, ?LJ, ?LK, ?Lr, ?Ls; cbn [length]; try lia.
  intros _. apply Hout. repeat split; apply FI || apply FJ || apply FK
                                      || apply Fr || apply Fs.
Qed.

Lemma Full_Serialize_out_of_range_witness :
  snd (Full_Serialize full_header_negative) = None.
Proof.
  apply (Full_Serialize_out_of_range full_header_negative).
  unfold in_range, fits. cbn [full_header_negative bigI bigJ bigK big_r big_s].
  lia.
Defined.

End HeaderExtFacts.

(** * The list of clients of the server *)

Module ServerFacts.

Import GoLib WS.

Lemma set_at_middle {A : Type} (l1 l2 : list A) (x v : A) :
  set_at (length l1) v (l1 ++ x :: l2) = l1 ++ v :: l2.
Proof. induction l1 as [|y l1 IH]; cbn; [reflexivity | now rewrite IH]. Qed.

Lemma length_set_at {A : Type} (i : nat) (v : A) (l : list A) :
  length (set_at i v l) = length l.
Proof.
  revert i. induction l as [|y l IH]; intros [|i]; cbn; try reflexivity.
  now rewrite IH.
Qed.

Lemma find_from_split (x : nat) (l : list nat) (i k : nat) :
  find_from x l i = Some k ->
  exists l1 l2, l = l1 ++ x :: l2 /\ k = (i + length l1)%nat /\ ~ In x l1.
Proof.
  revert i. induction l as [|y l IH]; intros i H; [discriminate|].
  cbn in H. destruct (Nat.eqb_spec y x) as [->|Hne].
  - exists [], l. cbn. repeat split; [injection H as <-; lia | tauto].
  - destruct (IH _ H) as (l1 & l2 & -> & -> & Hn).
    exists (y :: l1), l2. cbn. repeat split; [lia|].
    intros [E | E]; [congruence | tauto].
Qed.

Lemma find_from_None (x : nat) (l : list nat) (i : nat) :
  find_from x l i = None <-> ~ In x l.
Proof.
  revert i. induction l as [|y l IH]; intro i; cbn; [tauto|].
  destruct (Nat.eqb_spec y x) as [->|Hne].
  - split; [discriminate | tauto].
  - rewrite IH. tauto.
Qed.

Lemma find_from_fresh (x : nat) (l : list nat) (i : nat) :
  ~ In x l -> find_from x (l ++ [x]) i = Some (i + length l)%nat.
Proof.
  revert i. induction l as [|y l IH]; intros i H; cbn.
  - rewrite Nat.eqb_refl. f_equal. lia.
  - destruct (Nat.eqb_spec y x) as [->|Hne]; [cbn in H; tauto|].
    rewrite IH by (cbn in H; tauto). f_equal. lia.
Qed.

(** Removing at a position: the entry is dropped and the last one takes
    its place. *)
Lemma swap_remove_middle (l1 l2 : list nat) (x : nat) :
  swap_remove (length l1) (l1 ++ x :: l2)
  = match rev l2 with
    | [] => l1
    | y :: r => l1 ++ y :: rev r
    end.
Proof.
  unfold swap_remove. rewrite set_at_middle.
  destruct (rev l2) as [|y r] eqn:E.
  - apply (f_equal (@rev nat)) in E. rewrite rev_involutive in E. subst l2.
    now rewrite removelast_last.
  - apply (f_equal (@rev nat)) in E. rewrite rev_involutive in E. subst l2.
    cbn [rev].
    replace (l1 ++ x :: rev r ++ [y]) with ((l1 ++ x :: rev r) ++ [y])
      by now rewrite <- app_assoc.
    rewrite last_last.
    replace (l1 ++ y :: rev r ++ [y]) with ((l1 ++ y :: rev r) ++ [y])
      by now rewrite <- app_assoc.
    now rewrite removelast_last.
Qed.

Lemma swap_remove_Permutation (l1 l2 : list nat) (x : nat) :
  Permutation (l1 ++ x :: l2) (x :: swap_remove (length l1) (l1 ++ x :: l2)).
Proof.
  rewrite swap_remove_middle.
  rewrite <- Permutation_middle. apply perm_skip.
  destruct (rev l2) as [|y r] eqn:E;
    apply (f_equal (@rev nat)) in E; rewrite rev_involutive in E; subst l2.
  - now rewrite app_nil_r.
  - apply Permutation_app_head. cbn [rev].
    symmetry. apply Permutation_cons_append.
Qed.

Lemma nth_last (l : list nat) (d : nat) :
  nth (length l - 1) l d = last l d.
Proof.
  induction l as [|x l IH]; [reflexivity|].
  destruct l as [|y l]; [reflexivity|].
  change (last (x :: y :: l) d) with (last (y :: l) d). rewrite <- IH.
  cbn [length]. rewrite !Nat.sub_1_r. reflexivity.
Qed.

Lemma position_find_from (x : nat) (l : list nat) (p : nat) :
  Server.position x l p = find_from x l p.
Proof.
  revert p. induction l as [|y l IH]; intro p; cbn; [reflexivity|].
  now rewrite IH.
Qed.

(** The removal of [WSServer.Disconnect] is the one of the handler
    registry. *)
Lemma Server_Disconnect_swap_remove (wsc : nat) (cl : list nat) :
  Server.Disconnect wsc cl
  = match find_from wsc cl 0 with
    | Some p => Some (swap_remove p cl)
    | None => None
    end.
Proof.
  unfold Server.Disconnect. rewrite position_find_from.
  destruct cl as [|c cl]; [reflexivity|].
  change (length (c :: cl) =? 0)%nat with false. cbv iota.
  destruct (find_from wsc (c :: cl) 0) as [p|]; [|reflexivity].
  unfold swap_remove.
  rewrite removelast_firstn_len, length_set_at, nth_last.
  do 2 f_equal. lia.
Qed.

(** X14.  A client that connects and then disconnects leaves the list of
    clients as it was. *)
Theorem Server_Connect_Disconnect (c : nat) (cl : Server.clients) :
  ~ In c cl -> Server.Disconnect c (Server.Connect c cl) = Some cl.
Proof.
  intro H. rewrite Server_Disconnect_swap_remove. unfold Server.Connect.
  rewrite find_from_fresh by exact H. cbn [Nat.add].
  now rewrite swap_remove_middle.
Qed.

Lemma Server_Connect_Disconnect_witness :
  Server.Disconnect 9 (Server.Connect 9 [4; 5]%nat) = Some [4; 5]%nat.
Proof.
  apply (Server_Connect_Disconnect 9 [4; 5]%nat). cbn. lia.
Defined.

(** X15.  [WSServer.Disconnect] returns exactly for a client of the list,
    and then one entry of that client is gone and every other entry is
    kept (the order may change); for any other client, and on the empty
    list, it panics. *)
Theorem Server_Disconnect_removes_one (wsc : nat) (cl : Server.clients) :
  match Server.Disconnect wsc cl with
  | Some cl' => In wsc cl /\ Permutation cl (wsc :: cl')
  | None => ~ In wsc cl
  end.
Proof.
  rewrite Server_Disconnect_swap_remove.
  destruct (find_from wsc cl 0) as [p|] eqn:E.
  - destruct (find_from_split _ _ _ _ E) as (l1 & l2 & -> & -> & _).
    split; [apply in_elt | apply swap_remove_Permutation].
  - now apply find_from_None in E.
Qed.

Lemma Server_Disconnect_removes_one_witness :
  match Server.Disconnect 4 [4; 5; 6]%nat with
  | Some cl' => In 4%nat [4; 5; 6]%nat /\
                Permutation [4; 5; 6]%nat (4%nat :: cl')
  | None => ~ In 4%nat [4; 5; 6]%nat
  end.
Proof. exact (Server_Disconnect_removes_one 4 [4; 5; 6]%nat). Defined.

End ServerFacts.

(** * The handler as a system *)

Module WSExtFacts.

Import GoLib Header Format HeaderExt Examples Examples2 WS WSExt System.
Import GoLibFacts HeaderFacts WSFacts ServerFacts.
Local Open Scope N_scope.

Section SystemFacts.

Context {LocalHeaderCache HeaderCache StatusResponse PeerItemResponse : Type}.

Variable set_serverTime : HeaderCache -> N -> HeaderCache.
Variable get_status : HeaderCache -> StatusResponse.
Variable set_status : HeaderCache -> StatusResponse -> HeaderCache.
Variable lhc_Status : LocalHeaderCache -> StatusResponse.
Variable ListPeers : LocalHeaderCache -> list PeerItemResponse.
Variable AddPeer : LocalHeaderCache -> PeerItemResponse -> LocalHeaderCache.
Variable Marshal_status : StatusResponse -> option (list byte).
Variable Unmarshal_status : list byte -> option StatusResponse.
Variable Marshal_peer : PeerItemResponse -> option (list byte).
Variable Unmarshal_peer : list byte -> option PeerItemResponse.
Variable hc_Insert :
  HeaderCache -> RawMessageHeader -> HeaderCache * (bool * option error).
Variable lhc_Insert :
  LocalHeaderCache -> RawMessageHeader
  -> LocalHeaderCache * (bool * option error).

Let state := St LocalHeaderCache HeaderCache StatusResponse.

Local Notation "'handle'" :=
  (on_event set_serverTime set_status lhc_Status ListPeers AddPeer
            Marshal_status Unmarshal_status Marshal_peer Unmarshal_peer
            hc_Insert lhc_Insert).
Local Notation "'step'" :=
  (run set_serverTime set_status lhc_Status ListPeers AddPeer
       Marshal_status Unmarshal_status Marshal_peer Unmarshal_peer
       hc_Insert lhc_Insert).
Local Notation "'emits_ok'" :=
  (emits_handled set_serverTime set_status lhc_Status ListPeers AddPeer
                 Marshal_status Unmarshal_status Marshal_peer Unmarshal_peer
                 hc_Insert lhc_Insert).

(** *** The watchdog *)

(** X16.  When the event loop takes the tick of the watchdog, the call of
    [Disconnect] it makes does not return: the callback is run, and then
    the loop waits for ever, at the latest on the send on [abort], which
    only the loop itself receives.  The handler stays in the registry. *)
Theorem watchdog_expiry_blocks (wsh : wsHandler StatusResponse)
        (w : World LocalHeaderCache HeaderCache) :
  at_select wsh = true -> C (watchdog wsh) = true ->
  exists wsh' w',
    eventLoop WatchdogC (wsh, w) = Some (Blocked (wsh', w')) /\
    wsHandlerList w' = wsHandlerList w /\
    trace w' = trace w ++ match disconnect wsh with
                          | Some f => [Called f]
                          | None => []
                          end.
Proof.
  intros Ha Hc. unfold eventLoop. rewrite Ha, Hc. cbn [negb].
  destruct (Disconnect_without_loop
              (set_at_select (set_watchdog wsh (recv (watchdog wsh))) false) w
              eq_refl) as (wsh' & w' & HB & HL & HT).
  exists wsh', w'. rewrite HB. now repeat split.
Qed.

(** *** Setting up and tearing down *)

(** The payloads of the peers that marshal. *)
Lemma emit_peers_trace (peers : list PeerItemResponse)
      (wsh : wsHandler StatusResponse)
      (w : World LocalHeaderCache HeaderCache) :
  emit_peers Marshal_peer peers (wsh, w)
  = Done (wsh,
          mkWorld (lhc w) (hcs w) (wsHandlerList w)
                  (trace w
                   ++ flat_map (fun peer =>
                                  match Marshal_peer peer with
                                  | Some j => [Emit "response-peer" (PText j)]
                                  | None => []
                                  end) peers)).
Proof.
  revert w. induction peers as [|peer rest IH]; intro w.
  - cbn. rewrite app_nil_r. now destruct w.
  - cbn [emit_peers flat_map]. destruct (Marshal_peer peer) as [j|].
    + cbn [con_Emit bind fst snd]. rewrite IH. cbn. now rewrite <- app_assoc.
    + rewrite IH. reflexivity.
Qed.


(** X18.  When [Disconnect] returns, one entry of the handler is gone from
    the registry and every other entry is kept (the order may change). *)
Theorem Disconnect_removes_self (wsh wsh1 : wsHandler StatusResponse)
        (w w1 : World LocalHeaderCache HeaderCache) :
  Disconnect (wsh, w) = Done (wsh1, w1) ->
  Permutation (wsHandlerList w) (self wsh :: wsHandlerList w1).
Proof.
  intro H. destruct (Disconnect_Done _ _ _ _ H)
    as (_ & _ & _ & _ & _ & _ & _ & _ & _ & _ & _ & i & Hi & ->).
  destruct (find_from_split _ _ _ _ Hi) as (l1 & l2 & -> & -> & _).
  apply swap_remove_Permutation.
Qed.

(** *** The calls one by one *)

Lemma call_cases (c : call) :
  c = CallDisconnect \/ c = Tick WatchdogC \/ c = Tick PeersTickleC \/
  (c <> CallDisconnect /\ c <> Tick WatchdogC /\ c <> Tick PeersTickleC).
Proof.
  destruct c as [now ev p|c|c|ser| |rhc|f|]; try destruct c; auto;
    do 3 right; repeat split; discriminate.
Qed.

Local Notation "'behaved'" :=
  (well_behaved set_serverTime set_status lhc_Status ListPeers AddPeer
                Marshal_status Unmarshal_status Marshal_peer Unmarshal_peer
                hc_Insert lhc_Insert).

Lemma behaved_refl (st : state) : behaved st st.
Proof.
  split; [exact (fun H => H)|]. split; [reflexivity|].
  exists []. rewrite app_nil_r. split; [reflexivity | intros ? ? []].
Qed.

Lemma behaved_trans (a b c : state) :
  behaved a b -> behaved b c -> behaved a c.
Proof.
  intros (T1 & R1 & n1 & E1 & H1) (T2 & R2 & n2 & E2 & H2).
  split; [exact (fun H => T2 (T1 H))|].
  split; [unfold keeps_registry in *; congruence|].
  exists (n1 ++ n2). split; [rewrite E2, E1; symmetry; apply app_assoc|].
  intros ev p Hin. apply in_app_or in Hin. destruct Hin; eauto.
Qed.

Lemma behaved_bind (m : outcome state) (k : state -> outcome state)
      (st : state) :
  behaved st (state_of m) -> (forall s, behaved s (state_of (k s))) ->
  behaved st (state_of (m >>= k)).
Proof.
  intros Hm Hk. destruct m as [a|a|a]; cbn in *; try exact Hm.
  exact (behaved_trans _ _ _ Hm (Hk a)).
Qed.

Lemma stop_drain_tidy (t t' : Timer) :
  stop_drain t = Some t' -> tidy t -> t' = mkTimer None false.
Proof.
  destruct t as [[d|] []]; cbn; intros [= <-] [H|H];
    try discriminate; reflexivity.
Qed.

Lemma behaved_set_timer (c : timer_case) (t : Timer)
      (wsh : wsHandler StatusResponse)
      (w : World LocalHeaderCache HeaderCache) :
  (tidy_all wsh -> tidy t) -> behaved (wsh, w) (set_timer c wsh t, w).
Proof.
  intro Ht. split; [|split; [reflexivity|]].
  - intros H. pose proof (Ht H) as Ht'. destruct H as (Hw & Hti & Hs & Hp).
    destruct c; cbn; repeat split; assumption.
  - exists []. rewrite app_nil_r. split; [|intros ? ? []].
    destruct c; reflexivity.
Qed.

Lemma behaved_world (wsh : wsHandler StatusResponse)
      (w w' : World LocalHeaderCache HeaderCache) :
  wsHandlerList w' = wsHandlerList w -> trace w' = trace w ->
  behaved (wsh, w) (wsh, w').
Proof.
  intros Hl Ht. split; [exact (fun H => H)|]. split; [exact Hl|].
  exists []. rewrite app_nil_r. split; [exact Ht | intros ? ? []].
Qed.

Lemma behaved_fields (wsh wsh' : wsHandler StatusResponse)
      (w : World LocalHeaderCache HeaderCache) :
  watchdog wsh' = watchdog wsh -> timeTickle wsh' = timeTickle wsh ->
  statusTickle wsh' = statusTickle wsh -> peersTickle wsh' = peersTickle wsh ->
  behaved (wsh, w) (wsh', w).
Proof.
  intros E1 E2 E3 E4. split; [|split; [reflexivity|]].
  - unfold keeps_tidy, tidy_all. cbn [fst]. now rewrite E1, E2, E3, E4.
  - exists []. rewrite app_nil_r. split; [reflexivity | intros ? ? []].
Qed.

Lemma behaved_Emit (event : string) (p : payload) (st : state) :
  (forall now s, handle now event p s <> None) ->
  behaved st (state_of (con_Emit event p st)).
Proof.
  intro H. split; [exact (fun T => T)|]. split; [reflexivity|].
  exists [Emit event p]. split; [reflexivity|].
  intros ev q [[= <- <-] | []]. exact H.
Qed.

Ltac some_eq E :=
  match type of E with
  | Some ?d = Some ?o => assert (Eo : d = o) by congruence; clear E; subst o
  end.

Ltac some_done H :=
  match type of H with
  | Done (?a, ?b) = Done (?c, ?d) =>
      assert (Ea : a = c) by congruence; subst c
  end.

Ltac registered_here :=
  intros ? ?; unfold on_event;
  match goal with
  | |- context [registered ?e] =>
      let r := eval vm_compute in (registered e) in
      change (registered e) with r
  end; discriminate.

Lemma behaved_reset (c : timer_case) (d : N) (t : Timer)
      (wsh : wsHandler StatusResponse)
      (w : World LocalHeaderCache HeaderCache) :
  stop_drain (timer_of c wsh) = Some t ->
  behaved (wsh, w) (set_timer c wsh (Reset t d), w).
Proof.
  intro E. apply behaved_set_timer. intro H.
  assert (Hc : tidy (timer_of c wsh))
    by (destruct H as (? & ? & ? & ?); destruct c; assumption).
  rewrite (stop_drain_tidy _ _ E Hc). now right.
Qed.

Lemma behaved_resetWatchdog (st : state) :
  behaved st (state_of (resetWatchdog st)).
Proof.
  destruct st as [wsh w]. unfold resetWatchdog.
  destruct (stop_drain (watchdog wsh)) as [t|] eqn:E;
    [|apply behaved_refl].
  exact (behaved_reset WatchdogC DefaultWatchdogTimeout t wsh w E).
Qed.

Lemma behaved_resetTimeTickle (st : state) :
  behaved st (state_of (resetTimeTickle st)).
Proof.
  destruct st as [wsh w]. unfold resetTimeTickle.
  destruct (stop_drain (timeTickle wsh)) as [t|] eqn:E;
    [|apply behaved_refl].
  eapply behaved_trans;
    [exact (behaved_reset TimeTickleC DefaultTimeTickle t wsh w E)
    | apply behaved_resetWatchdog].
Qed.

Lemma behaved_resetStatusTickle (st : state) :
  behaved st (state_of (resetStatusTickle st)).
Proof.
  destruct st as [wsh w]. unfold resetStatusTickle.
  destruct (stop_drain (statusTickle wsh)) as [t|] eqn:E;
    [|apply behaved_refl].
  eapply behaved_trans;
    [exact (behaved_reset StatusTickleC DefaultStatusTickle t wsh w E)
    | apply behaved_resetWatchdog].
Qed.

Lemma behaved_txTime (now : Z) (st : state) :
  behaved st (state_of (txTime now st)).
Proof.
  apply behaved_bind; [apply behaved_resetTimeTickle|].
  intro s. apply behaved_Emit. registered_here.
Qed.

Lemma behaved_rxTime (t : Z) (st : state) :
  behaved st (state_of (rxTime set_serverTime t st)).
Proof.
  apply behaved_bind; [apply behaved_resetWatchdog|].
  intros [wsh w]. destruct (remote wsh);
    [now apply behaved_world | apply behaved_refl].
Qed.

Lemma behaved_txStatus (st : state) :
  behaved st (state_of (txStatus lhc_Status Marshal_status st)).
Proof.
  apply behaved_bind; [apply behaved_resetWatchdog|].
  intro s. destruct (Marshal_status _); [|apply behaved_refl].
  apply behaved_Emit. registered_here.
Qed.

Lemma behaved_rxStatus (m : list byte) (st : state) :
  behaved st (state_of (rxStatus set_status Unmarshal_status m st)).
Proof.
  unfold rxStatus. destruct (Unmarshal_status m); [|apply behaved_refl].
  apply behaved_bind; [apply behaved_resetStatusTickle|].
  intros [wsh w]. destruct (remote wsh);
    [now apply behaved_world | now apply behaved_fields].
Qed.

Lemma behaved_emit_peers (peers : list PeerItemResponse) (st : state) :
  behaved st (state_of (emit_peers Marshal_peer peers st)).
Proof.
  revert st. induction peers as [|peer rest IH]; intro st;
    [apply behaved_refl|].
  cbn [emit_peers]. destruct (Marshal_peer peer); [|apply IH].
  apply behaved_bind; [|exact IH].
  apply behaved_Emit. registered_here.
Qed.

Lemma behaved_txPeers (st : state) :
  behaved st (state_of (txPeers ListPeers Marshal_peer st)).
Proof.
  apply behaved_bind; [apply behaved_resetWatchdog|].
  intro s. apply behaved_emit_peers.
Qed.

Lemma behaved_rxPeer (m : list byte) (st : state) :
  behaved st (state_of (rxPeer AddPeer Unmarshal_peer m st)).
Proof.
  apply behaved_bind; [apply behaved_resetWatchdog|].
  intros [wsh w]. destruct (Unmarshal_peer m);
    [now apply behaved_world | apply behaved_refl].
Qed.

Lemma behaved_rxHeader (s : list byte) (st : state) :
  behaved st (state_of (rxHeader hc_Insert lhc_Insert s st)).
Proof.
  unfold rxHeader.
  destruct (Deserialize new_RawMessageHeader s) as [[rmh [e|]]|];
    try apply behaved_refl.
  apply behaved_bind; [apply behaved_resetWatchdog|].
  intros [wsh w]. destruct (remote wsh) as [p|]; [|apply behaved_refl].
  destruct (hc_Insert (hcs w p) rmh) as [hc' [ins [e|]]];
    [now apply behaved_world|].
  destruct ins; now apply behaved_world.
Qed.

Lemma behaved_on_event (now : Z) (event : string) (p : payload)
      (st : state) (o : outcome state) :
  handle now event p st = Some o -> behaved st (state_of o).
Proof.
  unfold on_event.
  destruct (registered event) as [[]|], p; intros [= <-];
    auto using behaved_txTime, behaved_rxTime, behaved_txStatus,
      behaved_rxStatus, behaved_rxHeader, behaved_txPeers, behaved_rxPeer.
Qed.

Lemma behaved_tick_own (c : timer_case) (event : string) (d : N)
      (wsh : wsHandler StatusResponse)
      (w : World LocalHeaderCache HeaderCache) :
  (forall now s, handle now event (PInt 0) s <> None) ->
  behaved (wsh, w)
          (set_timer c wsh (Reset (recv (timer_of c wsh)) d),
           add_effect w (Emit event (PInt 0))).
Proof.
  intro H.
  eapply behaved_trans;
    [apply (behaved_set_timer c (Reset (recv (timer_of c wsh)) d));
     intros _; now right|].
  exact (behaved_Emit event (PInt 0) (_, w) H).
Qed.

Lemma behaved_tick_peers (wsh : wsHandler StatusResponse)
      (w : World LocalHeaderCache HeaderCache) :
  C (statusTickle wsh) = false ->
  behaved (wsh, w)
          (set_statusTickle
             (set_peersTickle wsh (recv (peersTickle wsh)))
             (Reset (statusTickle wsh) DefaultStatusTickle),
           add_effect w (Emit "request-peers" (PInt 0))).
Proof.
  intro H.
  eapply behaved_trans;
    [apply (behaved_set_timer PeersTickleC (recv (peersTickle wsh)));
     intros _; now right|].
  eapply behaved_trans;
    [apply (behaved_set_timer StatusTickleC
              (Reset (statusTickle wsh) DefaultStatusTickle))|].
  - intros _. right. exact H.
  - apply (behaved_Emit "request-peers" (PInt 0) (_, w)). registered_here.
Qed.

(** The calls that do not go through [Disconnect]. *)
Lemma behaved_step (c : call) (st : state) (o : outcome state) :
  c <> CallDisconnect -> c <> Tick WatchdogC ->
  (c = Tick PeersTickleC -> C (statusTickle (fst st)) = false) ->
  step c st = Some o -> behaved st (state_of o).
Proof.
  intros Hd Hw Hp. destruct c as [now ev p|c|c|ser| |rhc|f|]; cbn [run].
  - apply behaved_on_event.
  - unfold fire_timer. destruct st as [wsh w]. cbn [fst snd].
    destruct (armed (timer_of c wsh)); intros [= <-].
    apply behaved_set_timer. intros _. now left.
  - destruct st as [wsh w]. unfold eventLoop.
    destruct (at_select wsh); cbn [negb]; [|discriminate].
    destruct c; [contradiction| | |].
    + destruct (C (timeTickle wsh)); intros [= <-].
      assert (H : forall now s, handle now "request-time" (PInt 0) s <> None)
        by registered_here.
      exact (behaved_tick_own TimeTickleC "request-time" DefaultTimeTickle
               wsh w H).
    + destruct (C (statusTickle wsh)); intros [= <-].
      assert (H : forall now s,
                 handle now "request-status" (PInt 0) s <> None)
        by registered_here.
      exact (behaved_tick_own StatusTickleC "request-status"
               DefaultStatusTickle wsh w H).
    + destruct (C (peersTickle wsh)); intros [= <-].
      exact (behaved_tick_peers wsh w (Hp eq_refl)).
  - intros [= <-]. destruct ser as [s|]; [|apply behaved_refl].
    apply behaved_Emit. registered_here.
  - intros [= <-]. apply behaved_bind; [apply behaved_resetStatusTickle|].
    intro s. apply behaved_Emit. registered_here.
  - intros [= <-]. destruct st as [wsh w]. now apply behaved_fields.
  - intros [= <-]. destruct st as [wsh w]. now apply behaved_fields.
  - contradiction.
Qed.

(** What [Disconnect] does to the timers and to the connection, whether
    it returns or not. *)
Lemma Disconnect_effect (wsh : wsHandler StatusResponse)
      (w : World LocalHeaderCache HeaderCache) :
  (tidy_all wsh -> tidy_all (fst (state_of (Disconnect (wsh, w))))) /\
  trace (snd (state_of (Disconnect (wsh, w))))
  = trace w ++ match disconnect wsh with
               | Some f => [Called f]
               | None => []
               end.
Proof.
  unfold Disconnect, drain_with, send_abort, tidy_all, tidy.
  destruct wsh as [sf rm ts dc [[d1|] c1] [[d2|] c2] [[d3|] c3] pt a ib];
    destruct c1, c2, c3, a, dc as [f|]; cbn;
    try destruct (find_from sf (wsHandlerList w) 0); cbn;
    rewrite ?app_nil_r; (split; [|reflexivity]);
    intros (H1 & H2 & H3 & H4); repeat split; auto;
    repeat match goal with
           | H : _ \/ _ |- _ => destruct H; try discriminate
           end.
Qed.

(** X19.  A call leaves the four timers tidy (none is both running and
    holding a tick that was not received), which is the state the reset
    helpers count on; the one exception is the tick of [peersTickle]
    taken while the tick of [statusTickle] waits, since that case resets
    [statusTickle] without draining it. *)
Theorem timers_stay_tidy (c : call) (st : state) :
  (c = Tick PeersTickleC -> C (statusTickle (fst st)) = false) ->
  tidy_all (fst st) ->
  match step c st with
  | Some o => tidy_all (fst (state_of o))
  | None => True
  end.
Proof.
  intros Hp Ht. destruct (step c st) as [o|] eqn:E; [|exact I].
  destruct c as [now ev p|c|c|ser| |rhc|f|];
    try (refine (proj1 (behaved_step _ st o _ _ _ E) Ht);
         [discriminate | discriminate | auto]).
  - destruct c;
      try (refine (proj1 (behaved_step _ st o _ _ _ E) Ht);
           [discriminate | discriminate | auto]).
    destruct st as [wsh w]. cbn [run] in E. unfold eventLoop in E.
    destruct (at_select wsh); [|discriminate].
    destruct (C (watchdog wsh)); [|discriminate].
    cbn [negb] in E. some_eq E.
    apply (proj1 (Disconnect_effect
                    (set_at_select (set_watchdog wsh (recv (watchdog wsh)))
                                   false) w)).
    destruct Ht as (Hw & Hti & Hs & Hpe).
    repeat split; try assumption. now right.
  - destruct st as [wsh w]. cbn [run] in E. some_eq E.
    exact (proj1 (Disconnect_effect wsh w) Ht).
Qed.

(** X20.  Nothing but [Disconnect] called by the program changes the
    registry of handlers: no event, no timer and no other method adds or
    removes an entry, and the [Disconnect] that the watchdog triggers
    does not get as far as the removal. *)
Theorem registry_changes_only_in_Disconnect (c : call) (st : state) :
  c <> CallDisconnect ->
  match step c st with
  | Some o => wsHandlerList (snd (state_of o)) = wsHandlerList (snd st)
  | None => True
  end.
Proof.
  intros Hd. destruct (step c st) as [o|] eqn:E; [|exact I].
  destruct (call_cases c) as [-> | [-> | [-> | Hc]]].
  - contradiction.
  - destruct st as [wsh w]. cbn [run] in E. unfold eventLoop in E.
    destruct (at_select wsh) eqn:Ha; [|discriminate].
    destruct (C (watchdog wsh)); [|discriminate].
    cbn [negb] in E. some_eq E.
    destruct (Disconnect_without_loop
                (set_at_select (set_watchdog wsh (recv (watchdog wsh))) false)
                w eq_refl) as (wsh' & w' & -> & HL & _).
    exact HL.
  - destruct st as [wsh w]. cbn [run] in E. unfold eventLoop in E.
    destruct (at_select wsh); [|discriminate].
    destruct (C (peersTickle wsh)); [|discriminate].
    cbn [negb] in E. some_eq E. reflexivity.
  - destruct Hc as (H1 & H2 & H3).
    refine (proj1 (proj2 (behaved_step c st o H1 H2 _ E))).
    intro. contradiction.
Qed.

(** X21.  Every event a handler emits, whatever happens to it, is one for
    which the table of handlers that [setup] registers has an entry
    taking that payload: the peer, which runs the same code, does not
    drop it. *)
Theorem emitted_events_are_handled (c : call) (st : state) :
  match step c st with
  | Some o =>
      exists new,
        trace (snd (state_of o)) = trace (snd st) ++ new /\
        forall event p, In (Emit event p) new ->
                        forall now s, handle now event p s <> None
  | None => True
  end.
Proof.
  destruct (step c st) as [o|] eqn:E; [|exact I].
  destruct (call_cases c) as [-> | [-> | [-> | Hc]]].
  - destruct st as [wsh w]. cbn [run] in E. some_eq E.
    eexists. split; [exact (proj2 (Disconnect_effect _ w))|].
    intros ev p Hin. destruct (disconnect wsh); cbn in Hin;
      intuition discriminate.
  - destruct st as [wsh w]. cbn [run] in E. unfold eventLoop in E.
    destruct (at_select wsh) eqn:Ha; [|discriminate].
    destruct (C (watchdog wsh)); [|discriminate].
    cbn [negb] in E. some_eq E.
    eexists. split; [exact (proj2 (Disconnect_effect _ w))|].
    intros ev p Hin. cbn [disconnect set_at_select set_watchdog] in Hin.
    destruct (disconnect wsh); cbn in Hin; intuition discriminate.
  - destruct st as [wsh w]. cbn [run] in E. unfold eventLoop in E.
    destruct (at_select wsh); [|discriminate].
    destruct (C (peersTickle wsh)); [|discriminate].
    cbn [negb] in E. some_eq E.
    exists [Emit "request-peers" (PInt 0)]. split; [reflexivity|].
    intros ev p [[= <- <-] | []]. registered_here.
  - destruct Hc as (H1 & H2 & H3).
    refine (proj2 (proj2 (behaved_step c st o H1 H2 _ E))).
    intro. contradiction.
Qed.

(** *** The periodic requests *)

(** X22.  [timeTickle] and [statusTickle] are periodic: as long as the loop
    waits in its [select], each firing of the timer is answered by one
    request and the timer is started again with an empty channel, so after
    [n] periods [n] requests were emitted.  (For [peersTickle] this
    fails after the first period.) *)
Theorem ticks_are_periodic (c : timer_case) (event : string) (n : nat)
        (wsh : wsHandler StatusResponse)
        (w : World LocalHeaderCache HeaderCache) :
  (c, event) = (TimeTickleC, "request-time"%string) \/
  (c, event) = (StatusTickleC, "request-status"%string) ->
  at_select wsh = true -> armed (timer_of c wsh) <> None ->
  exists wsh' w',
    rounds n c (wsh, w) = Some (wsh', w') /\
    trace w' = trace w ++ repeat (Emit event (PInt 0)) n /\
    wsHandlerList w' = wsHandlerList w /\
    at_select wsh' = true /\ armed (timer_of c wsh') <> None.
Proof.
  intros Hc. revert wsh w. induction n as [|n IH]; intros wsh w Ha Hr.
  - exists wsh, w. cbn. rewrite app_nil_r. now repeat split.
  - cbn [rounds]. unfold fire_timer. cbn [fst snd].
    destruct (armed (timer_of c wsh)) as [d|] eqn:Ed; [|contradiction].
    destruct Hc as [[= -> ->] | [= -> ->]]; cbn [timer_of set_timer];
      unfold eventLoop; cbn; rewrite Ha; cbn.
    + destruct (IH (set_timeTickle
                      (set_timeTickle
                         (set_timeTickle wsh (fire (timeTickle wsh)))
                         (recv (fire (timeTickle wsh))))
                      (Reset (recv (fire (timeTickle wsh)))
                             DefaultTimeTickle))
                   (add_effect w (Emit "request-time" (PInt 0))))
        as (wsh' & w' & HR & HT & HL & HA & HM);
        [exact Ha | discriminate|].
      exists wsh', w'. split; [exact HR|]. split; [|now repeat split].
      rewrite HT. cbn [trace add_effect repeat].
      now rewrite <- app_assoc.
    + destruct (IH (set_statusTickle
                      (set_statusTickle
                         (set_statusTickle wsh (fire (statusTickle wsh)))
                         (recv (fire (statusTickle wsh))))
                      (Reset (recv (fire (statusTickle wsh)))
                             DefaultStatusTickle))
                   (add_effect w (Emit "request-status" (PInt 0))))
        as (wsh' & w' & HR & HT & HL & HA & HM);
        [exact Ha | discriminate|].
      exists wsh', w'. split; [exact HR|]. split; [|now repeat split].
      rewrite HT. cbn [trace add_effect repeat].
      now rewrite <- app_assoc.
Qed.

(** *** The handlers of the connection *)

Lemma resetStatusTickle_live (wsh : wsHandler StatusResponse)
      (w : World LocalHeaderCache HeaderCache) :
  live (statusTickle wsh) -> live (watchdog wsh) ->
  exists t1 t2,
    resetStatusTickle (wsh, w)
    = Done (set_watchdog (set_statusTickle wsh t1) t2, w).
Proof.
  intros Hs Hw. destruct (stop_drain_live _ Hs) as (t1 & E1 & _).
  unfold resetStatusTickle. rewrite E1.
  destruct (resetWatchdog_live
              (set_statusTickle wsh (Reset t1 DefaultStatusTickle)) w Hw)
    as (t2 & _ & E2).
  exists (Reset t1 DefaultStatusTickle), t2. exact E2.
Qed.

(** X23.  [Status] returns the status last received: after [rxStatus] has
    taken a payload that parses, [Status] gives that status, from the
    peer cache when the handler has one and from the pending status
    otherwise. *)
Theorem Status_after_rxStatus (m : list byte) (status : StatusResponse)
        (wsh : wsHandler StatusResponse)
        (w : World LocalHeaderCache HeaderCache) :
  (forall c s, get_status (set_status c s) = s) ->
  Unmarshal_status m = Some status ->
  live (statusTickle wsh) -> live (watchdog wsh) ->
  exists st',
    rxStatus set_status Unmarshal_status m (wsh, w) = Done st' /\
    Status get_status st' = Some status.
Proof.
  intros Hgs Hm Hs Hw. unfold rxStatus. rewrite Hm.
  destruct (resetStatusTickle_live wsh w Hs Hw) as (t1 & t2 & ->).
  cbn [bind remote set_watchdog set_statusTickle].
  destruct (remote wsh) as [p|] eqn:Er; eexists; (split; [reflexivity|]);
    unfold Status; cbn; rewrite Er; [|reflexivity].
  now rewrite Nat.eqb_refl, Hgs.
Qed.

(** X24.  [txPeers] resets the watchdog and emits one [response-peer] for
    each peer of the local cache that marshals, in the order of the list,
    and nothing else. *)
Theorem txPeers_emits_each_peer (wsh : wsHandler StatusResponse)
        (w : World LocalHeaderCache HeaderCache) :
  live (watchdog wsh) ->
  exists t,
    armed t = Some DefaultWatchdogTimeout /\
    txPeers ListPeers Marshal_peer (wsh, w)
    = Done (set_watchdog wsh t,
            mkWorld (lhc w) (hcs w) (wsHandlerList w)
                    (trace w
                     ++ flat_map
                          (fun peer =>
                             match Marshal_peer peer with
                             | Some j => [Emit "response-peer" (PText j)]
                             | None => []
                             end) (ListPeers (lhc w)))).
Proof.
  intro Hl. destruct (resetWatchdog_live wsh w Hl) as (t & Ht & Hw).
  exists t. split; [exact Ht|]. unfold txPeers. rewrite Hw. cbn [bind snd].
  apply emit_peers_trace.
Qed.

Lemma Deserialize_Serialize_fresh (h : RawMessageHeader) :
  sized h -> typed h -> representable h ->
  exists s, Serialize h = Some s /\
            Deserialize new_RawMessageHeader s = Some (h, None).
Proof.
  intros Hs Ht [(Hv & Hb & Hr & Hn) | (Hv & Hn)].
  - destruct (serialize_deserialize_v1 h new_RawMessageHeader Hv Hs)
      as (s & HS & HD); try apply Ht.
    exists s. split; [exact HS|]. rewrite HD.
    destruct h; cbn in *. now subst.
  - destruct (serialize_deserialize_v2 h new_RawMessageHeader Hv Hs Ht)
      as (s & HS & HD).
    exists s. split; [exact HS|]. rewrite HD, N.mod_small by assumption.
    now destruct h.
Qed.

(** X25.  A header sent with [TxHeader] arrives as it was: what the sender
    emits as [response-header] is a text from which [rxHeader] of a
    handler with a peer cache recovers the same header, and that header
    is what the handler inserts into the peer cache and, when it was new
    there, into the local cache. *)
Theorem TxHeader_then_rxHeader (h : RawMessageHeader)
        (sender : state)
        (wsh : wsHandler StatusResponse)
        (w : World LocalHeaderCache HeaderCache) (p : nat) :
  sized h -> typed h -> representable h ->
  remote wsh = Some p -> live (watchdog wsh) ->
  exists s t,
    TxHeader (Serialize h) sender
    = Done (fst sender,
            add_effect (snd sender) (Emit "response-header" (PText s))) /\
    armed t = Some DefaultWatchdogTimeout /\
    rxHeader hc_Insert lhc_Insert s (wsh, w)
    = let w' := set_hc w p (fst (hc_Insert (hcs w p) h)) in
      Done (set_watchdog wsh t,
            match snd (hc_Insert (hcs w p) h) with
            | (true, None) => set_lhc w' (fst (lhc_Insert (lhc w) h))
            | _ => w'
            end).
Proof.
  intros Hs Ht Hr Hp Hl.
  destruct (Deserialize_Serialize_fresh h Hs Ht Hr) as (s & HS & HD).
  destruct (resetWatchdog_live wsh w Hl) as (t & Ha & Hw).
  exists s, t. rewrite HS. split; [reflexivity|]. split; [exact Ha|].
  unfold rxHeader. rewrite HD, Hw. cbn [bind remote set_watchdog].
  rewrite Hp. destruct (hc_Insert (hcs w p) h) as [hc' [ins [e|]]];
    cbn [fst snd]; [now destruct ins|]. now destruct ins.
Qed.

(** *** After the teardown *)

Lemma Disconnect_Done_dead (wsh wsh1 : wsHandler StatusResponse)
      (w w1 : World LocalHeaderCache HeaderCache) :
  Disconnect (wsh, w) = Done (wsh1, w1) -> tidy_all wsh ->
  watchdog wsh1 = mkTimer None false /\
  timeTickle wsh1 = mkTimer None false /\
  statusTickle wsh1 = mkTimer None false.
Proof.
  unfold Disconnect, drain_with, send_abort, tidy_all, tidy.
  destruct wsh as [sf rm ts dc [[d1|] c1] [[d2|] c2] [[d3|] c3] pt a ib];
    destruct c1, c2, c3, a, dc as [f|]; cbn; try discriminate;
    destruct (find_from sf (wsHandlerList w) 0) as [i|]; try discriminate;
    intros H ([H1|H1] & [H2|H2] & [H3|H3] & _); try discriminate;
    some_done H; now repeat split.
Qed.

Lemma resetWatchdog_dead (wsh : wsHandler StatusResponse)
      (w : World LocalHeaderCache HeaderCache) :
  watchdog wsh = mkTimer None false ->
  resetWatchdog (wsh, w) = Blocked (wsh, w).
Proof. intro H. unfold resetWatchdog. now rewrite H. Qed.

(** X26.  After [Disconnect] has returned, the handlers stay registered on
    the connection, and an event that still arrives changes nothing: the
    handler called blocks on the stopped watchdog or tickle before it
    touches a cache, emits or calls anything. *)
Theorem after_Disconnect_nothing_changes
        (wsh wsh1 : wsHandler StatusResponse)
        (w w1 : World LocalHeaderCache HeaderCache)
        (now : Z) (event : string) (p : payload) :
  Disconnect (wsh, w) = Done (wsh1, w1) -> tidy_all wsh ->
  match handle now event p (wsh1, w1) with
  | Some o => state_of o = (wsh1, w1)
  | None => True
  end.
Proof.
  intros HD Ht.
  destruct (Disconnect_Done_dead _ _ _ _ HD Ht) as (Hw & Hti & Hs).
  pose proof (resetWatchdog_dead wsh1 w1 Hw) as RW.
  unfold on_event.
  destruct (registered event) as [[]|], p; try exact I.
  - unfold txTime, resetTimeTickle. now rewrite Hti.
  - unfold rxTime. now rewrite RW.
  - unfold txStatus. now rewrite RW.
  - unfold rxStatus. destruct (Unmarshal_status s); [|reflexivity].
    unfold resetStatusTickle. now rewrite Hs.
  - unfold rxHeader.
    destruct (Deserialize new_RawMessageHeader s) as [[rmh [e|]]|];
      try reflexivity.
    now rewrite RW.
  - unfold txPeers. now rewrite RW.
  - unfold rxPeer. now rewrite RW.
Qed.

End SystemFacts.

Import Examples3.

Lemma watchdog_expiry_blocks_witness :
  exists wsh' w',
    eventLoop WatchdogC (fst watchdog_due3, snd watchdog_due3)
    = Some (Blocked (wsh', w')) /\
    wsHandlerList w' = wsHandlerList (snd watchdog_due3) /\
    trace w' = trace (snd watchdog_due3)
               ++ match disconnect (fst watchdog_due3) with
                  | Some f => [Called f]
                  | None => []
                  end.
Proof.
  apply (watchdog_expiry_blocks (fst watchdog_due3) (snd watchdog_due3));
    reflexivity.
Defined.


Lemma Disconnect_removes_self_witness :
  Permutation (wsHandlerList (snd oldest3))
              (self (fst oldest3) :: wsHandlerList (snd oldest3_gone)).
Proof.
  apply (Disconnect_removes_self (fst oldest3) (fst oldest3_gone)
           (snd oldest3) (snd oldest3_gone)).
  vm_compute. reflexivity.
Defined.

Lemma timers_stay_tidy_witness :
  match run set_serverTime set_status local_Status peers AddPeer
            Marshal Unmarshal Marshal Unmarshal peer_Insert local_Insert
            (Tick PeersTickleC) peers_due3 with
  | Some o => tidy_all (fst (state_of o))
  | None => True
  end.
Proof.
  apply (timers_stay_tidy set_serverTime set_status local_Status peers
           AddPeer Marshal Unmarshal Marshal Unmarshal peer_Insert
           local_Insert (Tick PeersTickleC) peers_due3).
  - reflexivity.
  - repeat split; (now left) || (now right).
Defined.

Lemma registry_changes_only_in_Disconnect_witness :
  match run set_serverTime set_status local_Status peers AddPeer
            Marshal Unmarshal Marshal Unmarshal peer_Insert local_Insert
            (Tick WatchdogC) watchdog_due3 with
  | Some o => wsHandlerList (snd (state_of o))
              = wsHandlerList (snd watchdog_due3)
  | None => True
  end.
Proof.
  apply (registry_changes_only_in_Disconnect set_serverTime set_status
           local_Status peers AddPeer Marshal Unmarshal Marshal Unmarshal
           peer_Insert local_Insert (Tick WatchdogC) watchdog_due3).
  discriminate.
Defined.

Lemma emitted_events_are_handled_witness :
  match run set_serverTime set_status local_Status peers AddPeer
            Marshal Unmarshal Marshal Unmarshal peer_Insert local_Insert
            (Event 0 "request-peers" (PInt 0)) outbound3 with
  | Some o =>
      exists new,
        trace (snd (state_of o)) = trace (snd outbound3) ++ new /\
        forall event p,
          In (Emit event p) new ->
          forall now s,
            on_event set_serverTime set_status local_Status peers AddPeer
                     Marshal Unmarshal Marshal Unmarshal peer_Insert
                     local_Insert now event p s <> None
  | None => True
  end.
Proof.
  exact (emitted_events_are_handled set_serverTime set_status local_Status
           peers AddPeer Marshal Unmarshal Marshal Unmarshal peer_Insert
           local_Insert (Event 0 "request-peers" (PInt 0)) outbound3).
Defined.

Lemma ticks_are_periodic_witness :
  exists wsh' w',
    rounds 3 TimeTickleC (fst outbound3, snd outbound3) = Some (wsh', w') /\
    trace w' = trace (snd outbound3)
               ++ repeat (Emit "request-time" (PInt 0)) 3 /\
    wsHandlerList w' = wsHandlerList (snd outbound3) /\
    at_select wsh' = true /\ armed (timer_of TimeTickleC wsh') <> None.
Proof.
  apply (ticks_are_periodic TimeTickleC "request-time" 3
           (fst outbound3) (snd outbound3)).
  - left. reflexivity.
  - reflexivity.
  - discriminate.
Defined.

Lemma Status_after_rxStatus_witness :
  exists st',
    rxStatus set_status Unmarshal (str "{up}") (fst outbound3, snd outbound3)
    = Done st' /\
    Status status st' = Some (str "{up}").
Proof.
  apply (Status_after_rxStatus status set_status Unmarshal
           (str "{up}") (str "{up}") (fst outbound3) (snd outbound3)).
  - reflexivity.
  - reflexivity.
  - left. discriminate.
  - left. discriminate.
Defined.

Lemma txPeers_emits_each_peer_witness :
  exists t,
    armed t = Some DefaultWatchdogTimeout /\
    txPeers peers Marshal (fst outbound3, snd outbound3)
    = Done (set_watchdog (fst outbound3) t,
            mkWorld (lhc (snd outbound3)) (hcs (snd outbound3))
                    (wsHandlerList (snd outbound3))
                    (trace (snd outbound3)
                     ++ flat_map
                          (fun peer =>
                             match Marshal peer with
                             | Some j => [Emit "response-peer" (PText j)]
                             | None => []
                             end) (peers (lhc (snd outbound3))))).
Proof.
  apply (txPeers_emits_each_peer peers Marshal
           (fst outbound3) (snd outbound3)).
  left. discriminate.
Defined.

Lemma TxHeader_then_rxHeader_witness :
  exists s t,
    TxHeader (Serialize v2_header) inbound3
    = Done (fst inbound3,
            add_effect (snd inbound3) (Emit "response-header" (PText s))) /\
    armed t = Some DefaultWatchdogTimeout /\
    rxHeader peer_Insert local_Insert s (fst outbound3, snd outbound3)
    = let w' := set_hc (snd outbound3) 0
                  (fst (peer_Insert (hcs (snd outbound3) 0%nat) v2_header)) in
      Done (set_watchdog (fst outbound3) t,
            match snd (peer_Insert (hcs (snd outbound3) 0%nat) v2_header) with
            | (true, None) =>
                set_lhc w' (fst (local_Insert (lhc (snd outbound3)) v2_header))
            | _ => w'
            end).
Proof.
  apply (TxHeader_then_rxHeader peer_Insert local_Insert v2_header inbound3
           (fst outbound3) (snd outbound3) 0).
  - repeat split; reflexivity.
  - repeat split; reflexivity.
  - right. split; reflexivity.
  - reflexivity.
  - left. discriminate.
Defined.

Lemma after_Disconnect_nothing_changes_witness :
  match on_event set_serverTime set_status local_Status peers AddPeer
                 Marshal Unmarshal Marshal Unmarshal peer_Insert local_Insert
                 0 "response-time" (PInt 5) (fst torn_down3, snd torn_down3)
  with
  | Some o => state_of o = (fst torn_down3, snd torn_down3)
  | None => True
  end.
Proof.
  apply (after_Disconnect_nothing_changes set_serverTime set_status
           local_Status peers AddPeer Marshal Unmarshal Marshal Unmarshal
           peer_Insert local_Insert
           (fst outbound3) (fst torn_down3) (snd outbound3) (snd torn_down3)
           0 "response-time" (PInt 5)).
  - vm_compute. reflexivity.
  - repeat split; now right.
Defined.

End WSExtFacts.
